(** * transfer-track: a shallow embedding of the synchronisation engine

    The development follows the Go packages of the repository:
    [storage] (the PostgreSQL tables and the queries run against them),
    [etherscan] (the paginated, rate-limited feed client), [service]
    (the sync coordinator and the refresh policy), [scheduler] (the
    daily trigger) and the amount normalisation of [api].

    Conventions.
    - Go [int], [int64] and [time.Duration] are [Z]; every operation
      that can leave the 64-bit range is wrapped with [wrap64].
    - Go strings are byte strings: [string] of 8-bit [ascii].
    - Everything outside the process (the database driver, the HTTP
      feed, the wall clock) is an oracle of the environment [Env],
      indexed by the number of interactions of that kind made so far,
      so that each call may see a different answer.
    - Calls to the logger are left out: they change neither the control
      flow nor any state the program reads back. *)

From Stdlib Require Import ZArith String Ascii List Lia DecimalString.
From Stdlib Require DecimalZ.
From stdpp Require Import base option list gmap strings.

Open Scope Z_scope.

(* ================================================================== *)
(** * Part I: the program *)
(* ================================================================== *)

(** ** Errors *)

(** [errors.New] / [fmt.Errorf] without [%w] give an [errorString];
    [fmt.Errorf("ctx: %w", err)] gives a [wrapError];
    [&strconv.NumError{Func, Num, Err}] is a [numError]. *)
Inductive error : Type :=
| errorString (msg : string)
| wrapError (msg : string) (cause : error)
| numError (func num : string) (cause : error).

Inductive result (A : Type) : Type :=
| Ok (a : A)
| Err (e : error).
Arguments Ok {A} a.
Arguments Err {A} e.

(** ** Machine integers *)

Definition minInt64 : Z := - 2 ^ 63.
Definition maxInt64 : Z := 2 ^ 63 - 1.

(** Two's-complement wrap-around of 64-bit signed arithmetic. *)
Definition wrap64 (z : Z) : Z := (z + 2 ^ 63) mod 2 ^ 64 - 2 ^ 63.

Definition in_int64 (z : Z) : bool := (minInt64 <=? z) && (z <=? maxInt64).

(** ** [strings] and [strconv] *)

Definition lower_byte (c : ascii) : ascii :=
  let n := N_of_ascii c in
  if ((65 <=? n) && (n <=? 90))%N then ascii_of_N (n + 32) else c.

(** [strings.ToLower] on the bytes of the string. Bytes outside
    ['A'..'Z'] are kept (Go additionally maps non-ASCII upper-case runes;
    addresses and hashes are ASCII hexadecimal text). *)
Fixpoint strings_ToLower (s : string) : string :=
  match s with
  | EmptyString => EmptyString
  | String c s' => String (lower_byte c) (strings_ToLower s')
  end.

Definition isDigit (c : ascii) : bool :=
  let n := N_of_ascii c in ((48 <=? n) && (n <=? 57))%N.

Definition digitVal (c : ascii) : Z := Z.of_N (N_of_ascii c) - 48.

(** The digit loop of [strconv.ParseUint] in base 10: every byte must be
    a decimal digit. *)
Fixpoint parseDigits (s : string) (acc : Z) : option Z :=
  match s with
  | EmptyString => Some acc
  | String c s' =>
      if isDigit c then parseDigits s' (acc * 10 + digitVal c) else None
  end.

(** [strconv.ParseInt(s, 10, 64)]: an optional sign, at least one digit,
    nothing else, and the value must fit in [int64]; [None] stands for
    the returned error ([ErrSyntax] or [ErrRange]). *)
Definition strconv_ParseInt (s : string) : option Z :=
  match s with
  | EmptyString => None
  | String c s' =>
      let '(neg, body) :=
        if Ascii.eqb c "+" then (false, s')
        else if Ascii.eqb c "-" then (true, s')
        else (false, s) in
      match body with
      | EmptyString => None
      | _ =>
          match parseDigits body 0 with
          | None => None
          | Some un =>
              let n := if (neg : bool) then - un else un in
              if in_int64 n then Some n else None
          end
      end
  end.

(** [strconv.Atoi] is [ParseInt(s, 10, 0)] on a 64-bit platform. *)
Definition strconv_Atoi (s : string) : option Z := strconv_ParseInt s.

Definition ErrSyntax : error := errorString "invalid syntax".
Definition ErrRange : error := errorString "value out of range".
Definition maxUint64 : Z := 2 ^ 64 - 1.

(** The loop of [strconv.ParseUint(s, 10, 64)] over the bytes of [s],
    from the value [n] read so far: a byte that is no digit ends it
    with [ErrSyntax], a value that leaves [uint64] with [ErrRange],
    whichever comes first. *)
Fixpoint ParseUint_loop (s : string) (n : Z) : result Z :=
  match s with
  | EmptyString => Ok n
  | String c s' =>
      if negb (isDigit c) then Err ErrSyntax
      else if maxUint64 / 10 + 1 <=? n then Err ErrRange
      else
        let n1 := n * 10 + digitVal c in
        if maxUint64 <? n1 then Err ErrRange else ParseUint_loop s' n1
  end.

(** The [Err] field of the error of [strconv.ParseInt(s, 10, 64)], for
    an [s] it rejects: [ErrSyntax] for an empty text, a lone sign or a
    byte that is no digit, [ErrRange] when the digits leave [uint64]
    before such a byte is met, or leave [int64] at the end. *)
Definition ParseInt_Err (s : string) : error :=
  match s with
  | EmptyString => ErrSyntax
  | String c s' =>
      let body :=
        if Ascii.eqb c "+" then s'
        else if Ascii.eqb c "-" then s'
        else s in
      match body with
      | EmptyString => ErrSyntax
      | _ =>
          match ParseUint_loop body 0 with
          | Err kind => kind
          | Ok _ => ErrRange
          end
      end
  end.

(** The error [strconv.ParseInt] ([fn] is ["ParseInt"]) or
    [strconv.Atoi] ([fn] is ["Atoi"]) returns for a text [s] it
    rejects: [Func] is the function called and [Num] the whole text. *)
Definition strconv_NumError (fn s : string) : error :=
  numError fn s (ParseInt_Err s).

(** [strconv.Itoa] / [strconv.FormatInt(_, 10)]. *)
Definition strconv_Itoa (n : Z) : string := NilZero.string_of_int (Z.to_int n).

(** ** [time] *)

(** A [time.Time]: the instant in nanoseconds since the Unix epoch and
    the offset east of UTC (seconds) its [Location] has at that instant.
    [time.Duration] is a number of nanoseconds in [int64]. *)
Record Time : Type := mkTime { unixNano : Z; zoneOffset : Z }.

Definition Nanosecond : Z := 1.
Definition Millisecond : Z := 1000000.
Definition Second : Z := 1000000000.
Definition Minute : Z := 60 * Second.
Definition Hour : Z := 60 * Minute.

Definition time_After (t u : Time) : bool := unixNano u <? unixNano t.
Definition time_Before (t u : Time) : bool := unixNano t <? unixNano u.
Definition time_Equal (t u : Time) : bool := unixNano t =? unixNano u.

(** [t.Sub(u)]: the difference, saturated to the [Duration] range. *)
Definition time_Sub (t u : Time) : Z :=
  let d := unixNano t - unixNano u in
  if d <? minInt64 then minInt64
  else if maxInt64 <? d then maxInt64
  else d.

(** [t.Hour()] and [t.Minute()] read the wall clock of [t]'s location. *)
Definition wallSeconds (t : Time) : Z := unixNano t / Second + zoneOffset t.
Definition time_Hour (t : Time) : Z := (wallSeconds t mod 86400) / 3600.
Definition time_Minute (t : Time) : Z := (wallSeconds t mod 3600) / 60.

(** 0000-01-01T00:00:00Z in Unix seconds. *)
Definition yearZeroUnix : Z := -62167219200.

(** [time.Date(0, 1, 1, hour, min, 0, 0, time.UTC)]: out-of-range hours
    and minutes are carried over, which is the linear sum. *)
Definition time_Date_0_1_1 (hour min : Z) : Time :=
  mkTime ((yearZeroUnix + hour * 3600 + min * 60) * Second) 0.

(** Layout constants of package [time]. *)
Definition RFC3339 : string := "2006-01-02T15:04:05Z07:00".
Definition layoutClock : string := "15:04:05".

(** ** [storage]: rows *)

(** A row of table [transfers], as far as [INSERT] writes it ([id] and
    [created_at] are filled by the database and never read here). *)
Record Transfer : Type := mkTransfer {
  Hash : string;
  BlockNumber : Z;
  Timestamp : Time;
  FromAddress : string;
  ToAddress : string;
  TokenAddress : string;
  Amount : string
}.

Record SourceAddress : Type := mkSourceAddress {
  ID : Z;
  Address : string;
  Label : string;
  CreatedAt : Time;
  UpdatedAt : Time
}.

(** ** [etherscan]: wire types *)

Record ETHTransaction : Type := mkETHTransaction {
  eth_BlockNumber : string;
  eth_TimeStamp : string;
  eth_Hash : string;
  eth_From : string;
  eth_To : string;
  eth_Value : string;
  eth_GasPrice : string;
  eth_Gas : string;
  eth_IsError : string;
  eth_TxReceiptStatus : string
}.

Record ERC20Transaction : Type := mkERC20Transaction {
  erc_BlockNumber : string;
  erc_TimeStamp : string;
  erc_Hash : string;
  erc_From : string;
  erc_To : string;
  erc_Value : string;
  erc_TokenName : string;
  erc_TokenSymbol : string;
  erc_TokenDecimal : string;
  erc_ContractAddress : string;
  erc_TransactionIndex : string;
  erc_Gas : string;
  erc_GasPrice : string;
  erc_GasUsed : string;
  erc_CumulativeGasUsed : string;
  erc_Confirmations : string
}.

(** [url.Values] as the ordered list of its (key, value) pairs. *)
Definition url_Values : Type := list (string * string).

Definition url_Add (v : url_Values) (key value : string) : url_Values :=
  v ++ [(key, value)].

Definition url_Set (v : url_Values) (key value : string) : url_Values :=
  List.filter (fun kv => negb (String.eqb (fst kv) key)) v ++ [(key, value)].

(** What one HTTP round trip of [doRequest] can come back with. The
    JSON decoding of the [result] field into the caller's slice type is
    part of the answer: [Err] when [json.Unmarshal] rejects it. *)
Inductive HttpOutcome (T : Type) : Type :=
| RequestBuildError (e : error)
| TransportError (e : error)
| StatusNotOK (code : Z) (body : string)
| BodyReadError (e : error)
| EnvelopeMalformed (e : error)
| Envelope (status message : string) (decoded : result (list T)).
Arguments RequestBuildError {T} e.
Arguments TransportError {T} e.
Arguments StatusNotOK {T} code body.
Arguments BodyReadError {T} e.
Arguments EnvelopeMalformed {T} e.
Arguments Envelope {T} status message decoded.

(** ** The environment and the state of the process *)

Record Env : Type := mkEnv {
  (** the error, if any, of the n-th call into the database driver *)
  db_fault : nat -> option error;
  (** the answer to the n-th HTTP request, for the two feed actions *)
  http_txlist : nat -> url_Values -> HttpOutcome ETHTransaction;
  http_tokentx : nat -> url_Values -> HttpOutcome ERC20Transaction;
  (** the n-th reading of [time.Now()] *)
  clock : nat -> Time;
  (** offset of the local zone at a Unix second *)
  local_offset : Z -> Z;
  (** library functions of package [time] *)
  time_Parse : string -> string -> option Time;
  (** the [*time.ParseError] of [time.Parse(layout, value)] when it
      returns one *)
  time_ParseError : string -> string -> error;
  time_Format : Time -> string -> string;
  time_AddDate : Time -> Z -> Z -> Z -> Time;
  (** fields of [etherscan.Client] fixed at construction *)
  apiKey : string;
  chainID : Z
}.

Record World : Type := mkWorld {
  transfers : list Transfer;
  config : gmap string string;
  source_addresses : list SourceAddress;
  lastReq : Time;
  db_calls : nat;
  http_calls : nat;
  clock_reads : nat
}.

Definition set_transfers (rows : list Transfer) (w : World) : World :=
  mkWorld rows (config w) (source_addresses w) (lastReq w)
          (db_calls w) (http_calls w) (clock_reads w).

Definition set_config (c : gmap string string) (w : World) : World :=
  mkWorld (transfers w) c (source_addresses w) (lastReq w)
          (db_calls w) (http_calls w) (clock_reads w).

Definition set_lastReq (t : Time) (w : World) : World :=
  mkWorld (transfers w) (config w) (source_addresses w) t
          (db_calls w) (http_calls w) (clock_reads w).

Definition bump_db (w : World) : World :=
  mkWorld (transfers w) (config w) (source_addresses w) (lastReq w)
          (S (db_calls w)) (http_calls w) (clock_reads w).

Definition bump_http (w : World) : World :=
  mkWorld (transfers w) (config w) (source_addresses w) (lastReq w)
          (db_calls w) (S (http_calls w)) (clock_reads w).

Definition bump_clock (w : World) : World :=
  mkWorld (transfers w) (config w) (source_addresses w) (lastReq w)
          (db_calls w) (http_calls w) (S (clock_reads w)).

(** Code that always returns: a state transformer on [World]. *)
Definition M (A : Type) : Type := World -> A * World.

#[global] Instance M_ret : MRet M := fun A a w => (a, w).
#[global] Instance M_bind : MBind M :=
  fun A B f m w => let '(a, w') := m w in f a w'.

(** Code with an unbounded loop: [None] when the fuel runs out. *)
Definition P (A : Type) : Type := World -> option (A * World).

#[global] Instance P_ret : MRet P := fun A a w => Some (a, w).
#[global] Instance P_bind : MBind P :=
  fun A B f m w =>
    match m w with
    | Some (a, w') => f a w'
    | None => None
    end.

Definition lift {A : Type} (m : M A) : P A := fun w => Some (m w).

Definition gets {A : Type} (f : World -> A) : M A := fun w => (f w, w).
Definition modify (f : World -> World) : M unit := fun w => (tt, f w).

Section Program.

Variable env : Env.

(** ** Primitive interactions *)

(** One call into the database driver; the result is its error. *)
Definition db_exec : M (option error) :=
  fun w => (db_fault env (db_calls w), bump_db w).

(** [time.Now()]. *)
Definition time_Now : M Time :=
  fun w => (clock env (clock_reads w), bump_clock w).

(** [time.Sleep(d)]: the passing of time belongs to the clock oracle. *)
Definition time_Sleep (d : Z) : M unit := mret tt.

(** [time.Unix(sec, 0)], in the local zone, for the seconds whose
    internal count fits in 64 bits (up to 9223371974719179007); the
    overflow beyond them is written out in [time_unixTime]. *)
Definition time_Unix (sec : Z) : Time :=
  mkTime (sec * Second) (local_offset env sec).

(** ** [storage] *)

Definition ethTokenAddress : string :=
  "0x0000000000000000000000000000000000000000".

(** The columns of [UNIQUE(hash, token_address, from_address, to_address)]. *)
Definition transfer_key (t : Transfer) : string * string * string * string :=
  (Hash t, TokenAddress t, FromAddress t, ToAddress t).

Definition same_key (a b : Transfer) : bool :=
  String.eqb (Hash a) (Hash b)
  && String.eqb (TokenAddress a) (TokenAddress b)
  && String.eqb (FromAddress a) (FromAddress b)
  && String.eqb (ToAddress a) (ToAddress b).

(** [INSERT INTO transfers ... ON CONFLICT (hash, token_address,
    from_address, to_address) DO NOTHING]. *)
Definition insert_do_nothing (t : Transfer) (rows : list Transfer) : list Transfer :=
  if existsb (same_key t) rows then rows else rows ++ [t].

(** The three [strings.ToLower] assignments at the head of the loop
    body of [AddTransfersBatch]. *)
Definition lower_addresses (t : Transfer) : Transfer :=
  mkTransfer (Hash t) (BlockNumber t) (Timestamp t)
             (strings_ToLower (FromAddress t))
             (strings_ToLower (ToAddress t))
             (strings_ToLower (TokenAddress t))
             (Amount t).

(** The statement loop of [AddTransfersBatch], run against the rows the
    open transaction sees. Returns the error that ended the loop, the
    records as the loop left them (they are pointers: the lower-casing
    is visible to the caller) and the transaction's rows. *)
Fixpoint exec_batch (pending : list Transfer) (rows : list Transfer)
  : M (option error * list Transfer * list Transfer) :=
  match pending with
  | [] => mret (None, [], rows)
  | transfer :: rest =>
      let transfer := lower_addresses transfer in
      err ← db_exec;
      match err with
      | Some e =>
          mret (Some (wrapError "executing statement" e), transfer :: rest, rows)
      | None =>
          '(r, rows') ← exec_batch rest (insert_do_nothing transfer rows);
          mret (fst r, transfer :: snd r, rows')
      end
  end.

(** The two deferred calls, in the order they run: [stmt.Close()], then
    [tx.Rollback()] when [err != nil]. Their own errors are only logged. *)
Definition deferred_close : M unit := _ ← db_exec; mret tt.
Definition deferred_rollback : M unit := _ ← db_exec; mret tt.

(** [AddTransfersBatch]: the returned error and the records after the
    call. The table changes at [tx.Commit()] only. *)
Definition AddTransfersBatch (batch : list Transfer)
  : M (option error * list Transfer) :=
  match batch with
  | [] => mret (None, batch)
  | _ :: _ =>
      err ← db_exec;                                   (* BeginTxx *)
      match err with
      | Some e => mret (Some (wrapError "beginning transaction" e), batch)
      | None =>
          err ← db_exec;                               (* PreparexContext *)
          match err with
          | Some e =>
              _ ← deferred_rollback;
              mret (Some (wrapError "preparing statement" e), batch)
          | None =>
              snapshot ← gets transfers;
              '(r, rows') ← exec_batch batch snapshot;
              match fst r with
              | Some e =>
                  _ ← deferred_close;
                  _ ← deferred_rollback;
                  mret (Some e, snd r)
              | None =>
                  err ← db_exec;                       (* Commit *)
                  match err with
                  | Some e =>
                      _ ← deferred_close;
                      _ ← deferred_rollback;
                      mret (Some (wrapError "committing transaction" e), snd r)
                  | None =>
                      _ ← modify (set_transfers rows');
                      _ ← deferred_close;
                      mret (None, snd r)
                  end
              end
          end
      end
  end.

(** SQL aggregates over a column: [None] is SQL [NULL]. *)
Definition sql_MAX (col : list Z) : option Z :=
  match col with
  | [] => None
  | x :: rest => Some (fold_left Z.max rest x)
  end.

Definition sql_MIN (col : list Z) : option Z :=
  match col with
  | [] => None
  | x :: rest => Some (fold_left Z.min rest x)
  end.

Definition COALESCE (v : option Z) (d : Z) : Z :=
  match v with Some x => x | None => d end.

(** [from_address = $1 OR to_address = $1]. *)
Definition from_or_to (address : string) (t : Transfer) : bool :=
  String.eqb (FromAddress t) address || String.eqb (ToAddress t) address.

(** [GetLastProcessedBlock]. *)
Definition GetLastProcessedBlock (address tokenAddress : string)
  : M (Z * option error) :=
  let address := strings_ToLower address in
  let tokenAddress := strings_ToLower tokenAddress in
  let where_ : Transfer -> bool :=
    if String.eqb tokenAddress "" || String.eqb tokenAddress ethTokenAddress
    then fun t => from_or_to address t
                  && String.eqb (TokenAddress t) ethTokenAddress
    else fun t => from_or_to address t
                  && String.eqb (TokenAddress t) tokenAddress in
  err ← db_exec;
  match err with
  | Some e =>
      mret (0, Some (wrapError ("getting last processed block for address "
                                +:+ address +:+ " and token " +:+ tokenAddress) e))
  | None =>
      rows ← gets transfers;
      mret (COALESCE (sql_MAX (map BlockNumber (List.filter where_ rows))) 0, None)
  end.

(** The sub-select of [GetLastProcessedBlockForERC20]: one row
    [(token_address, COALESCE(MAX(block_number), 0))] per group of
    [GROUP BY token_address]. *)
Definition token_blocks (address : string) (rows : list Transfer)
  : list (string * Z) :=
  let selected :=
    List.filter (fun t => from_or_to address t
                          && negb (String.eqb (TokenAddress t) ethTokenAddress))
                rows in
  map (fun token =>
         (token,
          COALESCE (sql_MAX (map BlockNumber
             (List.filter (fun t => String.eqb (TokenAddress t) token) selected))) 0))
      (remove_dups (map TokenAddress selected)).

(** [GetLastProcessedBlockForERC20]. *)
Definition GetLastProcessedBlockForERC20 (address : string)
  : M (Z * option error) :=
  let address := strings_ToLower address in
  err ← db_exec;
  match err with
  | Some e =>
      mret (0, Some (wrapError ("getting last processed block for ERC20 tokens for address "
                                +:+ address) e))
  | None =>
      rows ← gets transfers;
      mret (COALESCE (sql_MIN (map snd (token_blocks address rows))) 0, None)
  end.

(** [GetSourceAddresses]: the table is kept in [id] order. *)
Definition GetSourceAddresses : M (list SourceAddress * option error) :=
  err ← db_exec;
  match err with
  | Some e => mret ([], Some (wrapError "getting source addresses" e))
  | None => rows ← gets source_addresses; mret (rows, None)
  end.

Definition sql_ErrNoRows : error := errorString "sql: no rows in result set".

(** [GetConfig]. *)
Definition GetConfig (key : string) : M (string * option error) :=
  err ← db_exec;
  match err with
  | Some e => mret ("", Some (wrapError ("getting config " +:+ key) e))
  | None =>
      c ← gets config;
      match c !! key with
      | Some value => mret (value, None)
      | None => mret ("", Some (wrapError ("getting config " +:+ key) sql_ErrNoRows))
      end
  end.

(** [UpdateConfig]: [UPDATE], and [INSERT] when no row was affected. *)
Definition UpdateConfig (key value : string) : M (option error) :=
  err ← db_exec;                                       (* UPDATE *)
  match err with
  | Some e => mret (Some (wrapError ("updating config " +:+ key) e))
  | None =>
      c ← gets config;
      let rowsAffected : Z := match c !! key with Some _ => 1 | None => 0 end in
      _ ← modify (set_config (match c !! key with
                              | Some _ => <[key := value]> c
                              | None => c
                              end));
      err ← db_exec;                                   (* RowsAffected *)
      match err with
      | Some e => mret (Some (wrapError "getting rows affected" e))
      | None =>
          if rowsAffected =? 0 then
            err ← db_exec;                             (* INSERT *)
            match err with
            | Some e => mret (Some (wrapError ("inserting config " +:+ key) e))
            | None =>
                _ ← modify (set_config (<[key := value]> c));
                mret None
            end
          else mret None
      end
  end.

(** ** [etherscan] *)

Definition moduleAccount : string := "account".
Definition actionTxList : string := "txlist".
Definition actionTokenTx : string := "tokentx".
Definition defaultStartBlock : Z := 0.
Definition defaultEndBlock : Z := 999999999.
Definition defaultOffset : Z := 10000.
Definition defaultPage : Z := 1.
Definition maxRequestsPerSecond : Z := 5.
Definition requestIntervalMs : Z := 1000 / maxRequestsPerSecond.

(** [rateLimit]. *)
Definition rateLimit : M unit :=
  now ← time_Now;
  last ← gets lastReq;
  let elapsed := time_Sub now last in
  _ ← (if elapsed <? requestIntervalMs * Millisecond
       then time_Sleep (wrap64 (requestIntervalMs * Millisecond - elapsed))
       else mret tt);
  now ← time_Now;
  modify (set_lastReq now).

(** [doRequest], for a feed whose [result] decodes to [[]T]. *)
Definition doRequest {T : Type}
    (feed : nat -> url_Values -> HttpOutcome T) (params : url_Values)
  : M (result (list T)) :=
  fun w =>
    (match feed (http_calls w) params with
     | RequestBuildError e => Err (wrapError "creating request" e)
     | TransportError e => Err (wrapError "executing request" e)
     | StatusNotOK code body =>
         Err (errorString ("unexpected status code: " +:+ strconv_Itoa code
                           +:+ ", body: " +:+ body))
     | BodyReadError e => Err (wrapError "reading response body" e)
     | EnvelopeMalformed e => Err (wrapError "unmarshaling response" e)
     | Envelope status message decoded =>
         if negb (String.eqb status "1")
         then Err (errorString ("etherscan API error: " +:+ message))
         else match decoded with
              | Err e => Err (wrapError "unmarshaling result" e)
              | Ok txs => Ok txs
              end
     end, bump_http w).

(** The window test of the two fetch loops. *)
Definition in_window (startTime endTime txTime : Time) : bool :=
  (time_After txTime startTime || time_Equal txTime startTime)
  && (time_Before txTime endTime || time_Equal txTime endTime).

(** The inner loop of [fetchETHTransactions] / [fetchERC20Transactions]:
    [filteredTxs] for one page. [TimeStamp] is the field accessor. *)
Fixpoint filter_page {T : Type} (TimeStamp : T -> string)
    (startTime endTime : Time) (transactions : list T) : list T :=
  match transactions with
  | [] => []
  | tx :: rest =>
      match strconv_ParseInt (TimeStamp tx) with
      | None => filter_page TimeStamp startTime endTime rest
      | Some timestamp =>
          let txTime := time_Unix timestamp in
          if in_window startTime endTime txTime
          then tx :: filter_page TimeStamp startTime endTime rest
          else filter_page TimeStamp startTime endTime rest
      end
  end.

(** The two [params.Set] calls at the head of the fetch loop. *)
Definition page_params (params : url_Values) (page : Z) : url_Values :=
  let params := url_Set params "page" (strconv_Itoa page) in
  url_Set params "offset" (strconv_Itoa defaultOffset).

(** The outer [for] of the two fetch functions, which differ in the
    element type only. One unit of fuel per page. *)
Fixpoint fetch_pages {T : Type} (TimeStamp : T -> string)
    (feed : nat -> url_Values -> HttpOutcome T)
    (fuel : nat) (params : url_Values) (startTime endTime : Time)
    (page : Z) (allTransactions : list T) : P (result (list T)) :=
  match fuel with
  | O => fun _ => None
  | S fuel' =>
      let params := page_params params page in
      r ← lift (doRequest feed params);
      match r with
      | Err e => mret (Err e)
      | Ok transactions =>
          let filteredTxs := filter_page TimeStamp startTime endTime transactions in
          let allTransactions := allTransactions ++ filteredTxs in
          if Z.of_nat (length transactions) <? defaultOffset
          then mret (Ok allTransactions)
          else
            _ ← lift rateLimit;
            fetch_pages TimeStamp feed fuel' params startTime endTime
                        (wrap64 (page + 1)) allTransactions
      end
  end.

Definition fetchETHTransactions (fuel : nat) (params : url_Values)
    (startTime endTime : Time) : P (result (list ETHTransaction)) :=
  fetch_pages eth_TimeStamp (http_txlist env) fuel params startTime endTime
              defaultPage [].

Definition fetchERC20Transactions (fuel : nat) (params : url_Values)
    (startTime endTime : Time) : P (result (list ERC20Transaction)) :=
  fetch_pages erc_TimeStamp (http_tokentx env) fuel params startTime endTime
              defaultPage [].

Definition base_params (action address : string) (startBlock : Z) : url_Values :=
  let params : url_Values := [] in
  let params := url_Add params "module" moduleAccount in
  let params := url_Add params "action" action in
  let params := url_Add params "address" address in
  let params := url_Add params "startblock" (strconv_Itoa startBlock) in
  let params := url_Add params "endblock" (strconv_Itoa defaultEndBlock) in
  let params := url_Add params "sort" "asc" in
  let params := url_Add params "apikey" (apiKey env) in
  url_Add params "chainid" (strconv_Itoa (chainID env)).

(** [GetETHTransfers]. *)
Definition GetETHTransfers (fuel : nat) (address : string)
    (startTime endTime : Time) (startBlock : Z)
  : P (result (list ETHTransaction)) :=
  _ ← lift rateLimit;
  let startBlock := if startBlock <=? 0 then defaultStartBlock else startBlock in
  let params := base_params actionTxList address startBlock in
  fetchETHTransactions fuel params startTime endTime.

(** [GetERC20Transfers]. *)
Definition GetERC20Transfers (fuel : nat) (address tokenAddress : string)
    (startTime endTime : Time) (startBlock : Z)
  : P (result (list ERC20Transaction)) :=
  _ ← lift rateLimit;
  let startBlock := if startBlock <=? 0 then defaultStartBlock else startBlock in
  let params := base_params actionTokenTx address startBlock in
  let params := if negb (String.eqb tokenAddress "")
                then url_Add params "contractaddress" tokenAddress
                else params in
  fetchERC20Transactions fuel params startTime endTime.

(** ** [service] *)

Definition configKeyLastETHUpdate : string := "last_eth_update".
Definition configKeyLastTokenUpdate : string := "last_token_update".
Definition configKeyDailyRefreshTime : string := "daily_refresh_time".
Definition configKeyMinRefreshInterval : string := "min_refresh_interval_hours".
Definition defaultMinRefreshIntervalHrs : Z := 1.

(** [UpdateRefreshInterval]. *)
Definition UpdateRefreshInterval (hours : Z) : M (option error) :=
  if hours <? 1
  then mret (Some (errorString "refresh interval must be at least 1 hour"))
  else
    err ← UpdateConfig configKeyMinRefreshInterval (strconv_Itoa hours);
    match err with
    | Some e => mret (Some (wrapError "updating refresh interval" e))
    | None => mret None
    end.

(** [GetRefreshInterval]. *)
Definition GetRefreshInterval : M (Z * option error) :=
  '(value, err) ← GetConfig configKeyMinRefreshInterval;
  match err with
  | Some e =>
      mret (defaultMinRefreshIntervalHrs, Some (wrapError "getting refresh interval" e))
  | None =>
      match strconv_Atoi value with
      | None =>
          mret (defaultMinRefreshIntervalHrs,
                Some (wrapError "parsing refresh interval"
                        (strconv_NumError "Atoi" value)))
      | Some hours => mret (hours, None)
      end
  end.

(** [UpdateDailyRefreshTime]. *)
Definition UpdateDailyRefreshTime (timeStr : string) : M (option error) :=
  match time_Parse env layoutClock timeStr with
  | None =>
      mret (Some (wrapError "invalid time format, expected HH:MM:SS"
                    (time_ParseError env layoutClock timeStr)))
  | Some _ =>
      err ← UpdateConfig configKeyDailyRefreshTime timeStr;
      match err with
      | Some e => mret (Some (wrapError "updating daily refresh time" e))
      | None => mret None
      end
  end.

(** [GetDailyRefreshTime]. *)
Definition GetDailyRefreshTime : M (string * option error) :=
  '(value, err) ← GetConfig configKeyDailyRefreshTime;
  match err with
  | Some e => mret ("00:00:00", Some (wrapError "getting daily refresh time" e))
  | None => mret (value, None)
  end.

(** [ShouldRefreshData]. The product [Duration(refreshInterval) * Hour]
    is an [int64] product. *)
Definition ShouldRefreshData : M (bool * option error) :=
  '(lastETHUpdateStr, err) ← GetConfig configKeyLastETHUpdate;
  match err with
  | Some _ => mret (true, None)
  | None =>
      match time_Parse env RFC3339 lastETHUpdateStr with
      | None => mret (true, None)
      | Some lastETHUpdate =>
          '(refreshInterval, err) ← GetRefreshInterval;
          let refreshInterval :=
            match err with
            | Some _ => defaultMinRefreshIntervalHrs
            | None => refreshInterval
            end in
          now ← time_Now;                                (* time.Since *)
          mret (wrap64 (refreshInterval * Hour) <? time_Sub now lastETHUpdate,
                None)
      end
  end.

(** The normalisation loop of [fetchAndStoreETHTransfers]: the batch
    built from the fetched transactions. *)
Fixpoint eth_batch (transactions : list ETHTransaction) : list Transfer :=
  match transactions with
  | [] => []
  | tx :: rest =>
      if negb (String.eqb (eth_IsError tx) "0") then eth_batch rest
      else
        match strconv_ParseInt (eth_BlockNumber tx) with
        | None => eth_batch rest
        | Some blockNumber =>
            match strconv_ParseInt (eth_TimeStamp tx) with
            | None => eth_batch rest
            | Some timestamp =>
                mkTransfer (eth_Hash tx) blockNumber (time_Unix timestamp)
                           (eth_From tx) (eth_To tx)
                           "0x0000000000000000000000000000000000000000"
                           (eth_Value tx)
                :: eth_batch rest
            end
        end
  end.

(** The normalisation loop of [fetchAndStoreAllERC20Transfers]. *)
Fixpoint erc20_batch (transactions : list ERC20Transaction) : list Transfer :=
  match transactions with
  | [] => []
  | tx :: rest =>
      match strconv_ParseInt (erc_BlockNumber tx) with
      | None => erc20_batch rest
      | Some blockNumber =>
          match strconv_ParseInt (erc_TimeStamp tx) with
          | None => erc20_batch rest
          | Some timestamp =>
              mkTransfer (erc_Hash tx) blockNumber (time_Unix timestamp)
                         (erc_From tx) (erc_To tx)
                         (erc_ContractAddress tx)
                         (erc_Value tx)
              :: erc20_batch rest
          end
      end
  end.

(** The tail shared by the two functions: store a non-empty batch. *)
Definition store_batch (what : string) (batch : list Transfer) : M (option error) :=
  if (0 <? length batch)%nat then
    '(err, _) ← AddTransfersBatch batch;
    match err with
    | Some e => mret (Some (wrapError what e))
    | None => mret None
    end
  else mret None.

(** [fetchAndStoreETHTransfers]. *)
Definition fetchAndStoreETHTransfers (fuel : nat) (address : string)
    (startTime endTime : Time) : P (option error) :=
  '(lastBlock, err) ← lift (GetLastProcessedBlock address ethTokenAddress);
  let lastBlock := match err with Some _ => 0 | None => lastBlock end in
  r ← GetETHTransfers fuel address startTime endTime lastBlock;
  match r with
  | Err e => mret (Some (wrapError "fetching ETH transfers" e))
  | Ok transactions =>
      lift (store_batch "storing ETH transfers batch" (eth_batch transactions))
  end.

(** [fetchAndStoreAllERC20Transfers]. *)
Definition fetchAndStoreAllERC20Transfers (fuel : nat) (address : string)
    (startTime endTime : Time) : P (option error) :=
  '(lastBlock, err) ← lift (GetLastProcessedBlockForERC20 address);
  let lastBlock := match err with Some _ => 0 | None => lastBlock end in
  r ← GetERC20Transfers fuel address "" startTime endTime lastBlock;
  match r with
  | Err e => mret (Some (wrapError "fetching ERC20 transfers" e))
  | Ok transactions =>
      lift (store_batch "storing ERC20 transfers batch" (erc20_batch transactions))
  end.

(** The body of the [for _, sourceAddr := range sourceAddresses] loop of
    [FetchAndStoreTransfers]. Its value is the error that made the body
    [continue], which the loop logs and drops. *)
Definition sync_address (fuel : nat) (sourceAddr : SourceAddress)
    (startTime endTime : Time) : P (option error) :=
  err ← fetchAndStoreETHTransfers fuel (Address sourceAddr) startTime endTime;
  match err with
  | Some e => mret (Some e)                                      (* continue *)
  | None =>
      fetchAndStoreAllERC20Transfers fuel (Address sourceAddr) startTime endTime
  end.

(** The loop itself. *)
Fixpoint sync_addresses (fuel : nat) (sourceAddresses : list SourceAddress)
    (startTime endTime : Time) : P unit :=
  match sourceAddresses with
  | [] => mret tt
  | sourceAddr :: rest =>
      _ ← sync_address fuel sourceAddr startTime endTime;
      sync_addresses fuel rest startTime endTime
  end.

(** The last statements of [FetchAndStoreTransfers]: both freshness
    markers are written with one reading of the clock; a failed write
    is logged and otherwise ignored. *)
Definition stamp_markers : M unit :=
  t ← time_Now;
  let now := time_Format env t RFC3339 in
  _ ← UpdateConfig configKeyLastETHUpdate now;
  _ ← UpdateConfig configKeyLastTokenUpdate now;
  mret tt.

(** [FetchAndStoreTransfers]. *)
Definition FetchAndStoreTransfers (fuel : nat) : P (option error) :=
  '(sourceAddresses, err) ← lift GetSourceAddresses;
  match err with
  | Some e => mret (Some (wrapError "getting source addresses" e))
  | None =>
      if (length sourceAddresses =? 0)%nat then mret None
      else
        endTime ← lift time_Now;
        let startTime := time_AddDate env endTime 0 (-1) 0 in
        _ ← sync_addresses fuel sourceAddresses startTime endTime;
        _ ← lift stamp_markers;
        mret None
  end.

(** ** [scheduler] *)

(** [runDailyUpdate]. *)
Definition runDailyUpdate (fuel : nat) : P unit :=
  _ ← FetchAndStoreTransfers fuel;
  mret tt.

(** [checkAndRunDailyUpdate] up to its last [if]: whether the daily
    update is to be run at this wake. *)
Definition dailyUpdateDue : M bool :=
  '(timeStr, err) ← GetDailyRefreshTime;
  match err with
  | Some _ => mret false
  | None =>
      match time_Parse env layoutClock timeStr with
      | None => mret false
      | Some refreshTime =>
          now ← time_Now;
          let currentTime := time_Date_0_1_1 (time_Hour now) (time_Minute now) in
          let scheduledTime :=
            time_Date_0_1_1 (time_Hour refreshTime) (time_Minute refreshTime) in
          mret (time_Equal currentTime scheduledTime)
      end
  end.

(** [checkAndRunDailyUpdate]; the value tells whether [runDailyUpdate]
    was called. *)
Definition checkAndRunDailyUpdate (fuel : nat) : P bool :=
  due ← lift dailyUpdateDue;
  if (due : bool) then _ ← runDailyUpdate fuel; mret true
  else mret false.

End Program.

(** ** [api]: amount normalisation over [math/big] *)

(** A finite, non-negative [big.Float]: precision in bits and the value
    [fl_mant * 2 ^ fl_exp] ([fl_mant = 0] for zero). *)
Record Float : Type := mkFloat { fl_prec : Z; fl_mant : Z; fl_exp : Z }.

Definition Float_num (x : Float) : Z :=
  if 0 <=? fl_exp x then fl_mant x * 2 ^ fl_exp x else fl_mant x.
Definition Float_den (x : Float) : Z :=
  if 0 <=? fl_exp x then 1 else 2 ^ (- fl_exp x).

(** The fraction [n / d] times [2 ^ k]. *)
Definition scale2 (n d k : Z) : Z * Z :=
  if 0 <=? k then (n * 2 ^ k, d) else (n, d * 2 ^ (- k)).

(** Nearest integer to [n / d], ties to even ([ToNearestEven], and the
    rounding of [decimal.round]). *)
Definition round_half_even (n d : Z) : Z :=
  let q := n / d in
  let r := n mod d in
  if 2 * r <? d then q
  else if d <? 2 * r then q + 1
  else if Z.even q then q else q + 1.

(** The largest [e] with [2 ^ e <= n / d], for positive [n] and [d]. *)
Definition floor_log2_ratio (n d : Z) : Z :=
  let l := Z.log2 n - Z.log2 d in
  let '(n', d') := scale2 n d (- l) in
  if d' <=? n' then l else l - 1.

(** Rounding of the positive fraction [n / d] to [prec] mantissa bits,
    as [Float.round] does in mode [ToNearestEven]. *)
Definition Float_round (prec n d : Z) : Float :=
  if n =? 0 then mkFloat prec 0 0
  else
    let k := floor_log2_ratio n d - (prec - 1) in
    let '(n', d') := scale2 n d (- k) in
    mkFloat prec (round_half_even n' d') k.

(** The plain decimal numerals among the inputs of [Float.SetString]:
    one or more digits, read in base 10 (a leading [0] is no octal
    prefix for floats). *)
Definition decimal_numeral (s : string) : option Z :=
  match s with
  | EmptyString => None
  | _ => parseDigits s 0
  end.

(** [new(big.Float).SetString] on a decimal numeral of value [n]: the
    receiver's precision 0 becomes 64 and the value is rounded to it. *)
Definition Float_SetString_numeral (n : Z) : Float := Float_round 64 n 1.

(** [new(big.Float).SetInt(x)] for [x >= 0]: precision
    [max(x.BitLen(), 64)], no rounding. *)
Definition Int_BitLen (x : Z) : Z := if x =? 0 then 0 else Z.log2 x + 1.
Definition Float_SetInt (x : Z) : Float := mkFloat (Z.max (Int_BitLen x) 64) x 0.

(** [new(big.Int).Exp(x, y, nil)]: [x ** y], and 1 when [y <= 0]. *)
Definition Int_Exp (x y : Z) : Z := if y <=? 0 then 1 else x ^ y.

(** [new(big.Float).Quo(x, y)] for [y > 0]: precision the larger of the
    operands', the quotient rounded to it. *)
Definition Float_Quo (x y : Float) : Float :=
  Float_round (Z.max (fl_prec x) (fl_prec y))
              (Float_num x * Float_den y) (Float_den x * Float_num y).

Fixpoint zeros (n : nat) : string :=
  match n with
  | O => EmptyString
  | S n' => String "0" (zeros n')
  end.

(** [s], with zeros in front up to [width] characters. *)
Definition pad_zeros (width : nat) (s : string) : string :=
  zeros (width - String.length s) +:+ s.

(** The text of [i / 10 ^ prec] with exactly [prec] fractional digits
    ([fmtF]): integer part, then the point and the digits if any. *)
Definition decimal_text (i : Z) (prec : Z) : string :=
  let p := 10 ^ prec in
  if 0 <? prec
  then strconv_Itoa (i / p) +:+ "." +:+ pad_zeros (Z.to_nat prec) (strconv_Itoa (i mod p))
  else strconv_Itoa i.

(** [x.Text('f', prec)] for [prec >= 0]: the exact binary value rounded
    half-even at [prec] decimals. *)
Definition Float_Text_f (x : Float) (prec : Z) : string :=
  decimal_text (round_half_even (Float_num x * 10 ^ prec) (Float_den x)) prec.

(** [normalizeAmount], on the inputs the workflow produces: [amount] a
    plain decimal numeral (the text of SQL [SUM] over [NUMERIC(78,0)])
    and [decimals >= 0]. [None] marks an input outside this fragment
    (other syntaxes of [SetString], among them the ones it rejects with
    result ["0"], and the shortest-digits format of a negative
    precision). *)
Definition normalizeAmount (amount : string) (decimals : Z) : option string :=
  match decimal_numeral amount with
  | None => None
  | Some n =>
      if decimals <? 0 then None
      else
        let bigAmount := Float_SetString_numeral n in
        let divisor := Float_SetInt (Int_Exp 10 decimals) in
        let normalizedAmount := Float_Quo bigAmount divisor in
        Some (Float_Text_f normalizedAmount decimals)
  end.

(** What the documentation asks for: [amount / 10 ^ decimals] itself,
    written with [decimals] fractional digits. *)
Definition exact_normalized (amount : string) (decimals : Z) : option string :=
  match decimal_numeral amount with
  | None => None
  | Some n => Some (decimal_text n decimals)
  end.

(** ** Vocabulary of the statements *)

(** The [UNIQUE] constraint of table [transfers]. *)
Definition unique_keys (rows : list Transfer) : Prop :=
  NoDup (map transfer_key rows).

(** Number of rows carrying the uniqueness key of [t]. *)
Definition rows_with_key (t : Transfer) (rows : list Transfer) : nat :=
  length (List.filter (same_key t) rows).

(** The table after the statements of a whole batch. *)
Definition insert_all (batch rows : list Transfer) : list Transfer :=
  fold_left (fun rows t => insert_do_nothing (lower_addresses t) rows) batch rows.

(** No call into the database driver fails from the [n]-th on. *)
Definition db_healthy_from (env : Env) (n : nat) : Prop :=
  forall m : nat, (n <= m)%nat -> db_fault env m = None.

(** The message [AddTransfersBatch] puts on a fault of its [i]-th call
    into the driver, for a batch of [n] records: call 0 begins the
    transaction, call 1 prepares the statement, calls 2 to [n + 1] run
    it for the records and call [n + 2] commits. *)
Definition transaction_step (n i : nat) : string :=
  if (i =? 0)%nat then "beginning transaction"
  else if (i =? 1)%nat then "preparing statement"
  else if (i <? n + 2)%nat then "executing statement"
  else "committing transaction".

(** The world with its count of database calls replaced. *)
Definition with_db_calls (n : nat) (w : World) : World :=
  mkWorld (transfers w) (config w) (source_addresses w) (lastReq w)
          n (http_calls w) (clock_reads w).

(** [b] is the largest block number among [rows]. *)
Definition is_max_block (b : Z) (rows : list Transfer) : Prop :=
  (exists t, In t rows /\ BlockNumber t = b)
  /\ (forall t, In t rows -> BlockNumber t <= b).

(** The rows of [address] (as sender or receiver) for asset [token]. *)
Definition rows_of (address token : string) (rows : list Transfer) : list Transfer :=
  List.filter (fun t => from_or_to address t && String.eqb (TokenAddress t) token) rows.

(** [token] is a non-native asset seen for [address]. *)
Definition token_seen (address token : string) (rows : list Transfer) : Prop :=
  token <> ethTokenAddress /\ rows_of address token rows <> [].

(** The page a feed serves to request number [n] with query [q], when
    [doRequest] accepts the answer. *)
Definition served {T : Type} (feed : nat -> url_Values -> HttpOutcome T)
    (n : nat) (q : url_Values) : option (list T) :=
  match feed n q with
  | Envelope status _ (Ok page) => if String.eqb status "1" then Some page else None
  | _ => None
  end.

(** The answer ends the pagination: an error or a short page. *)
Definition ends_paging {T : Type} (o : HttpOutcome T) : Prop :=
  match o with
  | Envelope status _ (Ok page) =>
      status = "1" -> Z.of_nat (length page) < defaultOffset
  | _ => True
  end.

(** Among any [fuel] consecutive requests there is one that no query
    can answer with a full page: every fetch ends within [fuel] pages. *)
Definition bounded_pagination (env : Env) (fuel : nat) : Prop :=
  forall n : nat, exists j : nat, (j < fuel)%nat /\
    forall q, ends_paging (http_txlist env (n + j) q)
              /\ ends_paging (http_tokentx env (n + j) q).

(** The page number of the [j]-th request of one fetch. *)
Fixpoint page_number (j : nat) : Z :=
  match j with
  | O => defaultPage
  | S j' => wrap64 (page_number j' + 1)
  end.

(** ** Concrete environments and states for the examples *)

Definition silent_feed {T : Type} : nat -> url_Values -> HttpOutcome T :=
  fun _ _ => Envelope "1" "OK" (Ok []).

(** The error of a [time] library that names the text and the layout. *)
Definition parse_failure (layout value : string) : error :=
  errorString ("parsing time " +:+ value +:+ " as " +:+ layout).

(** A driver that never fails, a feed without transactions, a clock
    that advances one second per reading, UTC as local zone. *)
Definition example_env : Env :=
  mkEnv (fun _ => None) silent_feed silent_feed
        (fun n => mkTime (Z.of_nat n * Second) 0)
        (fun _ => 0)
        (fun _ _ => None) parse_failure
        (fun t _ => strconv_Itoa (unixNano t / Second))
        (fun t _ months _ => mkTime (unixNano t + months * 30 * 86400 * Second) 0)
        "KEY" 1.

(** The same, with a driver whose [n]-th call fails. *)
Definition faulty_db_env (n : nat) : Env :=
  mkEnv (fun m => if (m =? n)%nat then Some (errorString "connection reset") else None)
        silent_feed silent_feed
        (clock example_env) (local_offset example_env)
        (time_Parse example_env) (time_ParseError example_env)
        (time_Format example_env)
        (time_AddDate example_env) "KEY" 1.

Definition empty_world : World :=
  mkWorld [] ∅ [] (mkTime 0 0) 0 0 0.

Definition tokenA : string := "0xaaaaaaaaaaaaaaaaaaaaaaaaaaaaaaaaaaaaaaaa".
Definition tokenB : string := "0xbbbbbbbbbbbbbbbbbbbbbbbbbbbbbbbbbbbbbbbb".
Definition alice : string := "0x1111111111111111111111111111111111111111".
Definition bob : string := "0x2222222222222222222222222222222222222222".

Definition row (hash : string) (block : Z) (from to token : string) : Transfer :=
  mkTransfer hash block (mkTime (block * 12 * Second) 0) from to token "1000".

(** Three records, the first two with one key up to the case of the
    token address. *)
Definition example_batch : list Transfer :=
  [ row "0xh1" 10 alice bob "0xAAAAAAAAAAAAAAAAAAAAAAAAAAAAAAAAAAAAAAAA";
    row "0xh1" 10 alice bob tokenA;
    row "0xh2" 11 bob alice ethTokenAddress ].

(** A store where [alice] has token A up to block 100, token B up to
    block 50 and native transfers up to block 70. *)
Definition cursor_world : World :=
  mkWorld [ row "0xa1" 60 alice bob tokenA;
            row "0xa2" 100 bob alice tokenA;
            row "0xb1" 50 alice bob tokenB;
            row "0xe1" 30 alice bob ethTokenAddress;
            row "0xe2" 70 bob alice ethTokenAddress;
            row "0xx1" 900 bob bob tokenB ]
          ∅ [] (mkTime 0 0) 0 0 0.

(** What the window filter promises about the result [txs] of a fetch
    that started in [w] and ended in [w']: every returned transaction
    has a timestamp inside the window, and every transaction of a page
    served during the call whose timestamp is inside the window (bounds
    included) is returned. *)
Definition window_filtered {T : Type} (TimeStamp : T -> string)
    (feed : nat -> url_Values -> HttpOutcome T) (params : url_Values)
    (startTime endTime : Time) (w w' : World) (txs : list T) : Prop :=
  (forall tx, In tx txs ->
     exists ts, strconv_ParseInt (TimeStamp tx) = Some ts
                /\ unixNano startTime <= ts * Second <= unixNano endTime)
  /\ (forall i page tx ts,
        (http_calls w + i < http_calls w')%nat ->
        served feed (http_calls w + i) (page_params params (page_number i)) = Some page ->
        In tx page ->
        strconv_ParseInt (TimeStamp tx) = Some ts ->
        unixNano startTime <= ts * Second <= unixNano endTime ->
        In tx txs).

Definition eth_tx (hash timeStamp : string) : ETHTransaction :=
  mkETHTransaction "100" timeStamp hash alice bob "5" "1" "21000" "0" "1".

(** One short page with transactions just before, at and just after
    the bounds of the window [1000 s, 2000 s], and one without a
    readable timestamp. *)
Definition window_page : list ETHTransaction :=
  [ eth_tx "0x1" "999"; eth_tx "0x2" "1000"; eth_tx "0x3" "1500";
    eth_tx "0x4" "2000"; eth_tx "0x5" "2001"; eth_tx "0x6" "soon" ].

Definition window_env : Env :=
  mkEnv (fun _ => None)
        (fun _ _ => Envelope "1" "OK" (Ok window_page)) silent_feed
        (clock example_env) (local_offset example_env)
        (time_Parse example_env) (time_ParseError example_env)
        (time_Format example_env)
        (time_AddDate example_env) "KEY" 1.

(** Three tracked addresses; the feed refuses the connection for the
    second one, [bob], and has one native transfer for each of the
    others. *)
Definition carol : string := "0x3333333333333333333333333333333333333333".

Fixpoint url_Get (v : url_Values) (key : string) : string :=
  match v with
  | [] => ""
  | (k, x) :: rest => if String.eqb k key then x else url_Get rest key
  end.

Definition isolation_env : Env :=
  mkEnv (fun _ => None)
        (fun _ q =>
           let a := url_Get q "address" in
           if String.eqb a bob
           then TransportError (errorString "connection refused")
           else Envelope "1" "OK"
                  (Ok [mkETHTransaction "7" "1699990000" ("0xh" +:+ a) a tokenA
                                        "5" "1" "21000" "0" "1"]))
        silent_feed
        (fun n => mkTime ((1700000000 + Z.of_nat n) * Second) 0)
        (fun _ => 0)
        (fun _ _ => None) parse_failure
        (fun t _ => strconv_Itoa (unixNano t / Second))
        (fun t _ months _ => mkTime (unixNano t + months * 30 * 86400 * Second) 0)
        "KEY" 1.

Definition isolation_world : World :=
  mkWorld [] ∅
          [ mkSourceAddress 1 alice "first" (mkTime 0 0) (mkTime 0 0);
            mkSourceAddress 2 bob "second" (mkTime 0 0) (mkTime 0 0);
            mkSourceAddress 3 carol "third" (mkTime 0 0) (mkTime 0 0) ]
          (mkTime 0 0) 0 0 0.

(** The "last native update" marker as [ShouldRefreshData] reads it:
    [None] when the row cannot be read or its text does not parse. *)
Definition stored_marker (env : Env) (w : World) : option Time :=
  match db_fault env (db_calls w) with
  | Some _ => None
  | None =>
      match config w !! configKeyLastETHUpdate with
      | None => None
      | Some s => time_Parse env RFC3339 s
      end
  end.

(** The minimum refresh interval in hours as [ShouldRefreshData] gets
    it, on the call that follows the reading of the marker: the default
    when the row cannot be read or is no integer. *)
Definition configured_interval (env : Env) (w : World) : Z :=
  match db_fault env (S (db_calls w)) with
  | Some _ => defaultMinRefreshIntervalHrs
  | None =>
      match config w !! configKeyMinRefreshInterval with
      | None => defaultMinRefreshIntervalHrs
      | Some v =>
          match strconv_Atoi v with
          | None => defaultMinRefreshIntervalHrs
          | Some hours => hours
          end
      end
  end.

(** An environment that reads three marker texts, with a clock that
    stands at a given second. 2023-11-14T22:13:20Z is Unix second
    1700000000; 0000-01-01T09:00:00Z is wall clock 09:00:00. *)
Definition policy_env (nowSec offset : Z) : Env :=
  mkEnv (fun _ => None) silent_feed silent_feed
        (fun _ => mkTime (nowSec * Second) offset)
        (fun _ => offset)
        (fun layout value =>
           if String.eqb layout RFC3339 && String.eqb value "2023-11-14T22:13:20Z"
           then Some (mkTime (1700000000 * Second) 0)
           else if String.eqb layout layoutClock && String.eqb value "09:00:00"
           then Some (time_Date_0_1_1 9 0)
           else None)
        parse_failure
        (fun t _ => strconv_Itoa (unixNano t / Second))
        (fun t _ months _ => mkTime (unixNano t + months * 30 * 86400 * Second) 0)
        "KEY" 1.

Definition policy_world (hours : string) : World :=
  mkWorld []
          (<[configKeyLastETHUpdate := "2023-11-14T22:13:20Z"]>
             (<[configKeyMinRefreshInterval := hours]>
                (<[configKeyDailyRefreshTime := "09:00:00"]> ∅)))
          [] (mkTime 0 0) 0 0 0.

(** Both fields the normalisation loops parse are readable. *)
Definition erc20_parseable (tx : ERC20Transaction) : bool :=
  match strconv_ParseInt (erc_BlockNumber tx), strconv_ParseInt (erc_TimeStamp tx) with
  | Some _, Some _ => true
  | _, _ => false
  end.

Definition erc_tx (hash block timeStamp : string) : ERC20Transaction :=
  mkERC20Transaction block timeStamp hash alice bob "5" "Token A" "TKA" "18"
                     tokenA "0" "60000" "1" "50000" "50000" "12".

Definition failed_eth_tx (hash timeStamp : string) : ETHTransaction :=
  mkETHTransaction "100" timeStamp hash alice bob "5" "1" "21000" "1" "0".

(** The token counterpart of [window_page] and [window_env]. *)
Definition window_token_page : list ERC20Transaction :=
  [ erc_tx "0x1" "100" "999"; erc_tx "0x2" "100" "1000"; erc_tx "0x3" "100" "1500";
    erc_tx "0x4" "100" "2000"; erc_tx "0x5" "100" "2001"; erc_tx "0x6" "100" "soon" ].

Definition window_token_env : Env :=
  mkEnv (fun _ => None)
        silent_feed (fun _ _ => Envelope "1" "OK" (Ok window_token_page))
        (clock example_env) (local_offset example_env)
        (time_Parse example_env) (time_ParseError example_env)
        (time_Format example_env)
        (time_AddDate example_env) "KEY" 1.


(** ** Further functions of [api], [service] and [storage] *)

Definition set_source_addresses (rows : list SourceAddress) (w : World) : World :=
  mkWorld (transfers w) (config w) rows (lastReq w)
          (db_calls w) (http_calls w) (clock_reads w).

Section Further.

Variable env : Env.

(** Seconds from year 1 to 1970, the [unixToInternal] of package
    [time]. *)
Definition unixToInternal : Z := 62135596800.

(** [time.Unix(sec, 0)] with the 64-bit addition of its [unixTime]
    written out: the instant is kept as [sec + unixToInternal] seconds
    in an [int64], which wraps for [sec] above 9223371974719179007;
    the zone is looked up at [sec]. Up to that bound it is [time_Unix]. *)
Definition time_unixTime (sec : Z) : Time :=
  mkTime ((wrap64 (sec + unixToInternal) - unixToInternal) * Second)
         (local_offset env sec).

(** [parseTimeParam] of package [api]. *)
Definition parseTimeParam (timeStr : string) (defaultTime : Time) : result Time :=
  if String.eqb timeStr "" then Ok defaultTime
  else
    match strconv_ParseInt timeStr with
    | None =>
        Err (wrapError "parsing timestamp as integer"
               (strconv_NumError "ParseInt" timeStr))
    | Some epoch => Ok (time_unixTime epoch)
    end.

(** [refreshDataIfNeeded] of package [api]; the 30 s deadline of the
    refresh context shows as failing requests of the oracles. *)
Definition refreshDataIfNeeded (fuel : nat) : P unit :=
  '(shouldRefresh, err) ← lift (ShouldRefreshData env);
  match err with
  | Some _ => mret tt
  | None =>
      if negb shouldRefresh then mret tt
      else
        _ ← FetchAndStoreTransfers env fuel;
        mret tt
  end.

(** [NewTransferService], as far as it writes to the store: the two
    configuration values given at start-up. The client it builds is the
    [apiKey] and [chainID] of the environment. The returned error is
    always [nil]. *)
Definition NewTransferService (refreshInterval : Z) (dailyRefreshTime : string)
  : M (option error) :=
  _ ← (if 0 <? refreshInterval
       then _ ← UpdateConfig env configKeyMinRefreshInterval
                  (strconv_Itoa refreshInterval);
            mret tt
       else mret tt);
  _ ← (if negb (String.eqb dailyRefreshTime "")
       then match time_Parse env layoutClock dailyRefreshTime with
            | Some _ =>
                _ ← UpdateConfig env configKeyDailyRefreshTime dailyRefreshTime;
                mret tt
            | None => mret tt
            end
       else mret tt);
  mret None.

(** [DeleteSourceAddress] of package [storage]. *)
Definition DeleteSourceAddress (id : Z) : M (option error) :=
  err ← db_exec env;                                   (* DELETE *)
  match err with
  | Some e => mret (Some (wrapError "deleting source address" e))
  | None =>
      rows ← gets source_addresses;
      let rowsAffected : Z :=
        Z.of_nat (length (List.filter (fun a => ID a =? id) rows)) in
      _ ← modify (set_source_addresses
                    (List.filter (fun a => negb (ID a =? id)) rows));
      err ← db_exec env;                               (* RowsAffected *)
      match err with
      | Some e => mret (Some (wrapError "getting rows affected" e))
      | None =>
          if rowsAffected =? 0 then mret (Some sql_ErrNoRows) else mret None
      end
  end.

End Further.

(** Value of a decimal numeral read left to right from [acc]. *)
Fixpoint uint_value (d : Decimal.uint) (acc : Z) : Z :=
  match d with
  | Decimal.Nil => acc
  | Decimal.D0 l => uint_value l (acc * 10 + 0)
  | Decimal.D1 l => uint_value l (acc * 10 + 1)
  | Decimal.D2 l => uint_value l (acc * 10 + 2)
  | Decimal.D3 l => uint_value l (acc * 10 + 3)
  | Decimal.D4 l => uint_value l (acc * 10 + 4)
  | Decimal.D5 l => uint_value l (acc * 10 + 5)
  | Decimal.D6 l => uint_value l (acc * 10 + 6)
  | Decimal.D7 l => uint_value l (acc * 10 + 7)
  | Decimal.D8 l => uint_value l (acc * 10 + 8)
  | Decimal.D9 l => uint_value l (acc * 10 + 9)
  end.

(** The world with its [config] table and its count of database calls
    replaced. *)
Definition with_config (c : gmap string string) (n : nat) (w : World) : World :=
  set_config c (with_db_calls n w).

(** An environment whose [time] library prints an instant as its Unix
    second and reads such a text back, with a clock standing at
    2023-11-14T22:13:20Z and a feed without transactions. *)
Definition seconds_env : Env :=
  mkEnv (fun _ => None) silent_feed silent_feed
        (fun _ => mkTime (1700000000 * Second) 0)
        (fun _ => 0)
        (fun _ value =>
           match strconv_ParseInt value with
           | Some n => Some (mkTime (n * Second) 0)
           | None => None
           end)
        parse_failure
        (fun t _ => strconv_Itoa (unixNano t / Second))
        (fun t _ months _ => mkTime (unixNano t + months * 30 * 86400 * Second) 0)
        "KEY" 1.

Definition one_address_world : World :=
  mkWorld [] ∅ [mkSourceAddress 1 alice "first" (mkTime 0 0) (mkTime 0 0)]
          (mkTime 0 0) 0 0 0.

(** A row whose three address columns are in lower case. *)
Definition lower_row (t : Transfer) : Prop := lower_addresses t = t.

(** The ledger of [w'] is the ledger of [w] with rows appended, all of
    them in lower case; the [UNIQUE] constraint is kept; the tracked
    addresses are the same. *)
Definition ledger_grows (w w' : World) : Prop :=
  (exists new, transfers w' = transfers w ++ new /\ Forall lower_row new)
  /\ (unique_keys (transfers w) -> unique_keys (transfers w'))
  /\ source_addresses w' = source_addresses w.

(** What a healthy [GetLastProcessedBlock] returns on a table. *)
Definition cursor_of (address tokenAddress : string) (rows : list Transfer) : Z :=
  let token := strings_ToLower tokenAddress in
  let asset := if String.eqb token "" || String.eqb token ethTokenAddress
               then ethTokenAddress else token in
  COALESCE (sql_MAX (map BlockNumber
                       (rows_of (strings_ToLower address) asset rows))) 0.

(** What a healthy [GetLastProcessedBlockForERC20] returns on a table. *)
Definition token_cursor_of (address : string) (rows : list Transfer) : Z :=
  COALESCE (sql_MIN (map snd (token_blocks (strings_ToLower address) rows))) 0.

(** The store of [cursor_world] with the three tracked addresses of
    [isolation_world]. *)
Definition stocked_world : World :=
  mkWorld (transfers cursor_world) ∅ (source_addresses isolation_world)
          (mkTime 0 0) 0 0 0.

(** The query of one request, as the two [Get...Transfers] functions
    and the fetch loop build it, in the order of the calls. *)
Definition explorer_query (env : Env) (action address : string) (startBlock : Z)
    (tokenAddress : string) (page : Z) : url_Values :=
  [ ("module", "account"); ("action", action); ("address", address);
    ("startblock", strconv_Itoa (Z.max 0 startBlock));
    ("endblock", "999999999"); ("sort", "asc");
    ("apikey", apiKey env); ("chainid", strconv_Itoa (chainID env)) ]
  ++ (if String.eqb tokenAddress "" then [] else [("contractaddress", tokenAddress)])
  ++ [ ("page", strconv_Itoa page); ("offset", "10000") ].

(** A fetch that started in [w] and ended in [w'] with [txs] walked the
    pages of the feed in order: full pages and then one short page,
    each asked for with [query] at its page number, one request per
    page; [txs] is the pages' filtered content, in that order. *)
Definition paged {T : Type} (env : Env) (TimeStamp : T -> string)
    (feed : nat -> url_Values -> HttpOutcome T) (query : Z -> url_Values)
    (startTime endTime : Time) (w w' : World) (txs : list T) : Prop :=
  exists pages last,
    txs = concat (map (filter_page env TimeStamp startTime endTime) (pages ++ [last]))
    /\ Forall (fun p => defaultOffset <= Z.of_nat (length p)) pages
    /\ Z.of_nat (length last) < defaultOffset
    /\ http_calls w' = (http_calls w + length pages + 1)%nat
    /\ forall i page, nth_error (pages ++ [last]) i = Some page ->
         served feed (http_calls w + i) (query (page_number i)) = Some page.

(* ================================================================== *)
(** * Part II: properties *)
(* ================================================================== *)

(** ** Strings and keys *)

Lemma lower_byte_idem (c : ascii) : lower_byte (lower_byte c) = lower_byte c.
Proof.
  destruct c as [[] [] [] [] [] [] [] []]; reflexivity.
Qed.

Lemma strings_ToLower_idem (s : string) :
  strings_ToLower (strings_ToLower s) = strings_ToLower s.
Proof.
  induction s as [| c s IH]; simpl; [reflexivity |].
  now rewrite lower_byte_idem, IH.
Qed.

Lemma lower_addresses_idem (t : Transfer) :
  lower_addresses (lower_addresses t) = lower_addresses t.
Proof.
  unfold lower_addresses; simpl. now rewrite !strings_ToLower_idem.
Qed.

Lemma same_key_iff (a b : Transfer) :
  same_key a b = true <-> transfer_key a = transfer_key b.
Proof.
  unfold same_key, transfer_key.
  rewrite !andb_true_iff, !String.eqb_eq.
  split.
  - intros [[[-> ->] ->] ->]. reflexivity.
  - intros H. injection H as -> -> -> ->. auto.
Qed.

Lemma existsb_same_key (t : Transfer) (rows : list Transfer) :
  existsb (same_key t) rows = true <-> In (transfer_key t) (map transfer_key rows).
Proof.
  rewrite existsb_exists, in_map_iff. split.
  - intros (x & Hx & Hk). exists x. apply same_key_iff in Hk. auto.
  - intros (x & Hk & Hx). exists x. split; [assumption |].
    apply same_key_iff. now symmetry.
Qed.

(** ** [INSERT ... ON CONFLICT DO NOTHING] *)

Lemma insert_present (t : Transfer) (rows : list Transfer) :
  existsb (same_key t) rows = true -> insert_do_nothing t rows = rows.
Proof. unfold insert_do_nothing. now intros ->. Qed.

Lemma insert_keeps (t x : Transfer) (rows : list Transfer) :
  In x rows -> In x (insert_do_nothing t rows).
Proof.
  unfold insert_do_nothing. destruct (existsb _ _); [auto |].
  intros H. apply in_or_app. now left.
Qed.

Lemma insert_key_mono (t x : Transfer) (rows : list Transfer) :
  existsb (same_key x) rows = true ->
  existsb (same_key x) (insert_do_nothing t rows) = true.
Proof.
  rewrite !existsb_exists. intros (y & Hy & Hk).
  exists y. split; [now apply insert_keeps | assumption].
Qed.

Lemma insert_has_key (t : Transfer) (rows : list Transfer) :
  existsb (same_key t) (insert_do_nothing t rows) = true.
Proof.
  unfold insert_do_nothing.
  destruct (existsb (same_key t) rows) eqn:E; [assumption |].
  rewrite existsb_app. simpl.
  replace (same_key t t) with true; [now rewrite orb_true_r |].
  symmetry. now apply same_key_iff.
Qed.

Lemma insert_unique (t : Transfer) (rows : list Transfer) :
  unique_keys rows -> unique_keys (insert_do_nothing t rows).
Proof.
  unfold unique_keys, insert_do_nothing. intros Hnd.
  destruct (existsb (same_key t) rows) eqn:E; [assumption |].
  rewrite map_app. simpl.
  apply NoDup_app. split; [assumption |]. split.
  - intros k Hk Hin. apply list_elem_of_singleton in Hin. subst k.
    apply list_elem_of_In, existsb_same_key in Hk. congruence.
  - apply NoDup_singleton.
Qed.

Lemma insert_all_unique (batch rows : list Transfer) :
  unique_keys rows -> unique_keys (insert_all batch rows).
Proof.
  revert rows. induction batch as [| t batch IH]; intros rows H; simpl.
  - assumption.
  - apply IH. now apply insert_unique.
Qed.

Lemma insert_all_key_mono (batch rows : list Transfer) (x : Transfer) :
  existsb (same_key x) rows = true ->
  existsb (same_key x) (insert_all batch rows) = true.
Proof.
  revert rows. induction batch as [| t batch IH]; intros rows H; simpl.
  - assumption.
  - apply IH. now apply insert_key_mono.
Qed.

Lemma insert_all_keeps (batch rows : list Transfer) (x : Transfer) :
  In x rows -> In x (insert_all batch rows).
Proof.
  revert rows. induction batch as [| t batch IH]; intros rows H; simpl.
  - assumption.
  - apply IH. now apply insert_keeps.
Qed.

Lemma insert_all_has_keys (batch rows : list Transfer) (t : Transfer) :
  In t batch ->
  existsb (same_key (lower_addresses t)) (insert_all batch rows) = true.
Proof.
  revert rows. induction batch as [| u batch IH]; intros rows Hin; simpl.
  - inversion Hin.
  - destruct Hin as [-> | Hin].
    + apply insert_all_key_mono, insert_has_key.
    + now apply IH.
Qed.

Lemma insert_all_present (batch rows : list Transfer) :
  (forall t, In t batch ->
             existsb (same_key (lower_addresses t)) rows = true) ->
  insert_all batch rows = rows.
Proof.
  induction batch as [| t batch IH]; intros H; simpl.
  - reflexivity.
  - rewrite insert_present by (apply H; now left).
    apply IH. intros u Hu. apply H. now right.
Qed.

Lemma insert_all_lowered (batch rows : list Transfer) :
  insert_all (map lower_addresses batch) rows = insert_all batch rows.
Proof.
  revert rows. induction batch as [| t batch IH]; intros rows; simpl.
  - reflexivity.
  - now rewrite lower_addresses_idem, IH.
Qed.

Lemma unique_key_count (t : Transfer) (rows : list Transfer) :
  unique_keys rows ->
  existsb (same_key t) rows = true ->
  rows_with_key t rows = 1%nat.
Proof.
  unfold unique_keys, rows_with_key.
  induction rows as [| r rows IH]; simpl; intros Hnd Hex.
  - discriminate.
  - apply NoDup_cons in Hnd. destruct Hnd as [Hnotin Hnd'].
    rewrite list_elem_of_In in Hnotin.
    destruct (same_key t r) eqn:E.
    + simpl. f_equal.
      assert (Hnone : List.filter (same_key t) rows = []).
      { destruct (List.filter (same_key t) rows) as [| y ys] eqn:F; [reflexivity |].
        exfalso. apply Hnotin.
        assert (Hy : In y (List.filter (same_key t) rows)) by (rewrite F; now left).
        apply filter_In in Hy. destruct Hy as [Hy Hk].
        apply same_key_iff in E. apply same_key_iff in Hk.
        rewrite <- E, Hk. now apply in_map. }
      now rewrite Hnone.
    + simpl in Hex. apply IH; assumption.
Qed.

(** ** The statement loop and the transaction *)

Lemma with_db_calls_twice (n m : nat) (w : World) :
  with_db_calls n (with_db_calls m w) = with_db_calls n w.
Proof. reflexivity. Qed.

Lemma bump_db_with (w : World) : bump_db w = with_db_calls (S (db_calls w)) w.
Proof. reflexivity. Qed.

(** Either every statement of the loop ran, or the first fault of the
    driver ended it; the loop touches nothing but the driver. *)
Lemma exec_batch_cases (env : Env) (batch rows : list Transfer) (w : World)
    (err : option error) (b' rows' : list Transfer) (w' : World) :
  exec_batch env batch rows w = (err, b', rows', w') ->
  (err = None /\ b' = map lower_addresses batch
   /\ rows' = insert_all batch rows
   /\ w' = with_db_calls (db_calls w + length batch) w
   /\ (forall i, (i < length batch)%nat -> db_fault env (db_calls w + i) = None))
  \/ (exists i e,
        (i < length batch)%nat
        /\ db_fault env (db_calls w + i) = Some e
        /\ (forall j, (j < i)%nat -> db_fault env (db_calls w + j) = None)
        /\ err = Some (wrapError "executing statement" e)
        /\ w' = with_db_calls (db_calls w + S i) w).
Proof.
  revert rows w err b' rows' w'.
  induction batch as [| t batch IH]; intros rows w err b' rows' w'; simpl.
  - intros H. injection H as <- <- <- <-. left.
    repeat split; try reflexivity.
    + destruct w. unfold with_db_calls. simpl. f_equal. lia.
    + intros i Hi. lia.
  - unfold mbind, M_bind, db_exec at 1; cbv beta.
    destruct (db_fault env (db_calls w)) as [e |] eqn:Hf.
    + intros H. injection H as <- <- <- <-.
      right. exists 0%nat, e.
      rewrite Nat.add_0_r. repeat split; try assumption; try lia.
      rewrite bump_db_with. f_equal. lia.
    + destruct (exec_batch env batch (insert_do_nothing (lower_addresses t) rows)
                           (bump_db w)) as [[[err0 b0] rows0] w0] eqn:E.
      intros H. injection H as <- <- <- <-.
      apply IH in E. simpl in E.
      destruct E as [(-> & -> & -> & -> & Hok)
                    | (i & e & Hi & Hfault & Hbefore & -> & ->)].
      * left. repeat split; try reflexivity.
        -- unfold with_db_calls, bump_db. simpl. f_equal. lia.
        -- intros i Hi. destruct i as [| i].
           ++ now rewrite Nat.add_0_r.
           ++ specialize (Hok i ltac:(lia)).
              replace (db_calls w + S i)%nat with (S (db_calls w + i)) by lia.
              exact Hok.
      * right. exists (S i), e. repeat split.
        -- lia.
        -- replace (db_calls w + S i)%nat with (S (db_calls w + i)) by lia.
           exact Hfault.
        -- intros j Hj. destruct j as [| j].
           ++ now rewrite Nat.add_0_r.
           ++ specialize (Hbefore j ltac:(lia)).
              replace (db_calls w + S j)%nat with (S (db_calls w + j)) by lia.
              exact Hbefore.
        -- unfold with_db_calls, bump_db. simpl. f_equal. lia.
Qed.

(** One step of symbolic execution of state-passing code. *)
Ltac run :=
  cbv beta iota zeta delta
      [mbind M_bind mret M_ret db_exec gets modify
       deferred_close deferred_rollback].

(** The outcome of a whole call: committed with every statement applied,
    or an error with the table as it was. *)
Lemma AddTransfersBatch_cases (env : Env) (batch : list Transfer) (w : World)
    (err : option error) (b' : list Transfer) (w' : World) :
  AddTransfersBatch env batch w = (err, b', w') ->
  (err = None /\ b' = map lower_addresses batch
   /\ exists n, w' = set_transfers (insert_all batch (transfers w))
                                   (with_db_calls n w))
  \/ (exists e n, err = Some e /\ w' = with_db_calls n w).
Proof.
  destruct batch as [| t batch].
  - simpl. intros H. injection H as <- <- <-. left.
    repeat split; try reflexivity. exists (db_calls w). now destruct w.
  - unfold AddTransfersBatch. run.
    destruct (db_fault env (db_calls w)) as [e |] eqn:F0.
    { intros H. injection H as <- <- <-. right.
      exists (wrapError "beginning transaction" e), (S (db_calls w)).
      split; [reflexivity | apply bump_db_with]. }
    destruct (db_fault env (db_calls (bump_db w))) as [e |] eqn:F1.
    { intros H. injection H as <- <- <-. right.
      exists (wrapError "preparing statement" e), (S (S (S (db_calls w)))).
      split; reflexivity. }
    destruct (exec_batch env (t :: batch) (transfers (bump_db (bump_db w)))
                         (bump_db (bump_db w)))
      as [[[err0 b0] rows0] w0] eqn:E.
    apply exec_batch_cases in E.
    destruct E as [(-> & -> & -> & -> & Hok)
                  | (i & e & Hi & Hfault & Hbefore & -> & ->)].
    + cbn [fst snd].
      match goal with |- context [db_fault env ?n] =>
        destruct (db_fault env n) as [e |] eqn:F2 end.
      * intros H. injection H as <- <- <-. right.
        exists (wrapError "committing transaction" e).
        eexists. split; reflexivity.
      * intros H. injection H as <- <- <-. left.
        repeat split; try reflexivity. eexists. reflexivity.
    + cbn [fst snd]. intros H. injection H as <- <- <-. right.
      exists (wrapError "executing statement" e). eexists. split; reflexivity.
Qed.

(** With a driver that reports no fault the call commits. *)
Lemma AddTransfersBatch_healthy (env : Env) (batch : list Transfer) (w : World) :
  db_healthy_from env (db_calls w) ->
  fst (fst (AddTransfersBatch env batch w)) = None.
Proof.
  intros Hh.
  destruct batch as [| t batch]; [reflexivity |].
  unfold AddTransfersBatch. run.
  rewrite (Hh (db_calls w)) by lia.
  rewrite (Hh (db_calls (bump_db w))) by (simpl; lia).
  destruct (exec_batch env (t :: batch) (transfers (bump_db (bump_db w)))
                       (bump_db (bump_db w)))
    as [[[err0 b0] rows0] w0] eqn:E.
  apply exec_batch_cases in E.
  destruct E as [(-> & -> & -> & -> & Hok)
                | (i & e & Hi & Hfault & Hbefore & -> & ->)].
  - cbn [fst snd].
    rewrite (Hh _) by (simpl; lia). reflexivity.
  - rewrite (Hh _) in Hfault by (simpl; lia). discriminate.
Qed.

Lemma with_db_calls_transfers (n : nat) (w : World) :
  transfers (with_db_calls n w) = transfers w.
Proof. reflexivity. Qed.

(** A commit implies that no call of the transaction faulted: the
    begin, the prepare, each statement and the commit itself. *)
Lemma AddTransfersBatch_commit_no_fault (env : Env) (batch : list Transfer)
    (w : World) (b' : list Transfer) (w' : World) :
  batch <> [] ->
  AddTransfersBatch env batch w = (None, b', w') ->
  forall i, (i < length batch + 3)%nat -> db_fault env (db_calls w + i) = None.
Proof.
  intros Hne. destruct batch as [| t batch]; [congruence |].
  unfold AddTransfersBatch. run.
  destruct (db_fault env (db_calls w)) as [e |] eqn:F0; [discriminate |].
  destruct (db_fault env (db_calls (bump_db w))) as [e |] eqn:F1; [discriminate |].
  destruct (exec_batch env (t :: batch) (transfers (bump_db (bump_db w)))
                       (bump_db (bump_db w)))
    as [[[err0 b0] rows0] w0] eqn:E.
  apply exec_batch_cases in E.
  destruct E as [(-> & -> & -> & -> & Hok)
                | (i & e & Hi & Hfault & Hbefore & -> & ->)].
  - cbn [fst snd].
    match goal with |- context [db_fault env ?n] =>
      destruct (db_fault env n) as [e |] eqn:F2 end; [discriminate |].
    intros _ i Hi. simpl in F1, F2, Hok, Hi.
    destruct (Nat.eq_dec i 0%nat) as [-> | H0]; [now rewrite Nat.add_0_r |].
    destruct (Nat.eq_dec i 1%nat) as [-> | H1].
    { now replace (db_calls w + 1)%nat with (S (db_calls w)) by lia. }
    destruct (Nat.eq_dec i (S (length batch) + 2)%nat) as [-> | H2].
    { now replace (db_calls w + (S (length batch) + 2))%nat
        with (S (S (db_calls w + S (length batch)))) by lia. }
    specialize (Hok (i - 2)%nat ltac:(lia)).
    now replace (S (S (db_calls w + (i - 2))))%nat with (db_calls w + i)%nat
      in Hok by lia.
  - cbn [fst snd]. discriminate.
Qed.

(** ** Batch persistence *)

(** C1. Batch persistence is idempotent. After a committed call the
    table holds exactly one row for the uniqueness key (hash, asset,
    from, to) of every record of the batch; a further call with the same
    records (as passed or as the first call left them), or with any
    records whose keys are all stored, leaves the table as it is; and
    with a driver that reports no fault that further call returns no
    error: the conflicting inserts are skipped silently. *)
Theorem AddTransfersBatch_idempotent (env : Env) (batch : list Transfer)
    (w : World) (batch1 : list Transfer) (w1 : World) :
  unique_keys (transfers w) ->
  AddTransfersBatch env batch w = (None, batch1, w1) ->
  unique_keys (transfers w1)
  /\ (forall t, In t batch ->
        rows_with_key (lower_addresses t) (transfers w1) = 1%nat)
  /\ (forall again,
        (forall t, In t again ->
           existsb (same_key (lower_addresses t)) (transfers w1) = true) ->
        transfers (snd (AddTransfersBatch env again w1)) = transfers w1)
  /\ transfers (snd (AddTransfersBatch env batch w1)) = transfers w1
  /\ transfers (snd (AddTransfersBatch env batch1 w1)) = transfers w1
  /\ (db_healthy_from env (db_calls w1) ->
        fst (fst (AddTransfersBatch env batch w1)) = None
        /\ fst (fst (AddTransfersBatch env batch1 w1)) = None).
Proof.
  intros Huniq Hfirst.
  apply AddTransfersBatch_cases in Hfirst.
  destruct Hfirst as [(_ & -> & n & ->) | (e & n & He & _)]; [| discriminate].
  assert (Hrows : forall m, transfers (set_transfers (insert_all batch (transfers w))
                                                     (with_db_calls m w))
                            = insert_all batch (transfers w)) by reflexivity.
  set (w1 := set_transfers (insert_all batch (transfers w)) (with_db_calls n w)).
  assert (Hw1 : transfers w1 = insert_all batch (transfers w)) by reflexivity.
  assert (Hstored : forall t, In t batch ->
            existsb (same_key (lower_addresses t)) (transfers w1) = true).
  { intros t Ht. rewrite Hw1. now apply insert_all_has_keys. }
  assert (Hagain : forall again,
            (forall t, In t again ->
               existsb (same_key (lower_addresses t)) (transfers w1) = true) ->
            transfers (snd (AddTransfersBatch env again w1)) = transfers w1).
  { intros again Hkeys.
    destruct (AddTransfersBatch env again w1) as [[err2 again2] w2] eqn:E2.
    apply AddTransfersBatch_cases in E2. simpl.
    destruct E2 as [(_ & _ & m & ->) | (e & m & _ & ->)].
    - simpl. now apply insert_all_present.
    - reflexivity. }
  assert (Hstored1 : forall t, In t (map lower_addresses batch) ->
            existsb (same_key (lower_addresses t)) (transfers w1) = true).
  { intros t Ht. apply in_map_iff in Ht. destruct Ht as (t0 & <- & Ht0).
    rewrite lower_addresses_idem. now apply Hstored. }
  split; [| split; [| split; [| split; [| split]]]].
  - rewrite Hw1. now apply insert_all_unique.
  - intros t Ht. apply unique_key_count.
    + rewrite Hw1. now apply insert_all_unique.
    + now apply Hstored.
  - exact Hagain.
  - now apply Hagain.
  - now apply Hagain.
  - intros Hh. split; now apply AddTransfersBatch_healthy.
Qed.

(** C1, on [example_batch]: two of its three records share a key, so
    two rows are stored, and the second call changes nothing. *)
Lemma AddTransfersBatch_idempotent_witness :
  let r := AddTransfersBatch example_env example_batch empty_world in
  length (transfers (snd r)) = 2%nat
  /\ unique_keys (transfers (snd r))
  /\ transfers (snd (AddTransfersBatch example_env example_batch (snd r)))
     = transfers (snd r)
  /\ fst (fst (AddTransfersBatch example_env example_batch (snd r))) = None.
Proof.
  pose proof (AddTransfersBatch_idempotent example_env example_batch empty_world
                (snd (fst (AddTransfersBatch example_env example_batch empty_world)))
                (snd (AddTransfersBatch example_env example_batch empty_world)))
    as H.
  assert (Hu : unique_keys (transfers empty_world)) by apply NoDup_nil_2.
  assert (He : AddTransfersBatch example_env example_batch empty_world
               = (None,
                  snd (fst (AddTransfersBatch example_env example_batch empty_world)),
                  snd (AddTransfersBatch example_env example_batch empty_world)))
    by (vm_compute; reflexivity).
  destruct (H Hu He) as (H1 & _ & _ & H4 & _ & H6).
  split; [vm_compute; reflexivity |].
  split; [exact H1 |].
  split; [exact H4 |].
  apply H6. intros m _. reflexivity.
Defined.

(** An error of [AddTransfersBatch] is the first fault of the driver
    during the call, under the message of the step that met it. *)
Lemma AddTransfersBatch_error_fault (env : Env) (batch : list Transfer)
    (w : World) (e : error) (b' : list Transfer) (w' : World) :
  AddTransfersBatch env batch w = (Some e, b', w') ->
  exists i e0,
    (i < length batch + 3)%nat
    /\ db_fault env (db_calls w + i) = Some e0
    /\ (forall j, (j < i)%nat -> db_fault env (db_calls w + j) = None)
    /\ e = wrapError (transaction_step (length batch) i) e0.
Proof.
  destruct batch as [| t batch]; [discriminate |].
  unfold AddTransfersBatch. run.
  destruct (db_fault env (db_calls w)) as [e0 |] eqn:F0.
  { intros H. injection H as <- _ _. exists 0%nat, e0.
    rewrite Nat.add_0_r. repeat split; [simpl; lia | assumption | lia]. }
  destruct (db_fault env (db_calls (bump_db w))) as [e0 |] eqn:F1.
  { intros H. injection H as <- _ _. exists 1%nat, e0.
    replace (db_calls w + 1)%nat with (S (db_calls w)) by lia.
    repeat split; [simpl; lia | assumption |].
    intros j Hj. replace j with 0%nat by lia. now rewrite Nat.add_0_r. }
  destruct (exec_batch env (t :: batch) (transfers (bump_db (bump_db w)))
                       (bump_db (bump_db w)))
    as [[[err0 b0] rows0] w0] eqn:E.
  apply exec_batch_cases in E.
  assert (Hhead : forall j, (j < 2)%nat -> db_fault env (db_calls w + j) = None).
  { intros j Hj. destruct j as [| [| j]]; [now rewrite Nat.add_0_r | | lia].
    now replace (db_calls w + 1)%nat with (S (db_calls w)) by lia. }
  destruct E as [(-> & -> & -> & -> & Hok)
                | (i & e0 & Hi & Hfault & Hbefore & -> & ->)].
  - cbn [fst snd].
    match goal with |- context [db_fault env ?n] =>
      destruct (db_fault env n) as [e0 |] eqn:F2 end; [| discriminate].
    intros H. injection H as <- _ _.
    exists (length (t :: batch) + 2)%nat, e0.
    simpl in F2, Hok.
    split; [simpl; lia |]. split.
    { now replace (db_calls w + (length (t :: batch) + 2))%nat
        with (S (S (db_calls w + S (length batch)))) by (simpl; lia). }
    split.
    { intros j Hj.
      destruct (Nat.lt_ge_cases j 2) as [Hlt | Hge]; [now apply Hhead |].
      specialize (Hok (j - 2)%nat ltac:(simpl in Hj; lia)).
      now replace (S (S (db_calls w + (j - 2))))%nat with (db_calls w + j)%nat
        in Hok by lia. }
    unfold transaction_step.
    replace (length (t :: batch) + 2 =? 0)%nat with false
      by (symmetry; apply Nat.eqb_neq; simpl; lia).
    replace (length (t :: batch) + 2 =? 1)%nat with false
      by (symmetry; apply Nat.eqb_neq; simpl; lia).
    now rewrite Nat.ltb_irrefl.
  - cbn [fst snd]. intros H. injection H as <- _ _.
    exists (i + 2)%nat, e0. simpl in Hfault, Hbefore.
    split; [simpl in *; lia |]. split.
    { now replace (db_calls w + (i + 2))%nat with (S (S (db_calls w + i))) by lia. }
    split.
    { intros j Hj.
      destruct (Nat.lt_ge_cases j 2) as [Hlt | Hge]; [now apply Hhead |].
      specialize (Hbefore (j - 2)%nat ltac:(lia)).
      now replace (S (S (db_calls w + (j - 2))))%nat with (db_calls w + j)%nat
        in Hbefore by lia. }
    unfold transaction_step.
    replace (i + 2 =? 0)%nat with false by (symmetry; apply Nat.eqb_neq; lia).
    replace (i + 2 =? 1)%nat with false by (symmetry; apply Nat.eqb_neq; lia).
    replace (i + 2 <? length (t :: batch) + 2)%nat with true
      by (symmetry; apply Nat.ltb_lt; lia).
    reflexivity.
Qed.

(** C9. Batch persistence is all-or-nothing per call. A call either
    commits, and then every statement of the batch was applied to the
    table (each record's key is stored, earlier rows are kept) and no
    call into the driver had failed; or it returns an error and the
    table is exactly as before the call. It returns an error only for
    a fault of the driver during the call (at the begin, the prepare,
    one of the statements or the commit), and the error is the first
    such fault under the message of that step; so a call during which
    the driver reports no fault commits and persists all the records. *)
Theorem AddTransfersBatch_all_or_nothing (env : Env) (batch : list Transfer)
    (w : World) (err : option error) (batch1 : list Transfer) (w1 : World) :
  AddTransfersBatch env batch w = (err, batch1, w1) ->
  ((err = None
    /\ transfers w1 = insert_all batch (transfers w)
    /\ (forall t, In t batch ->
          existsb (same_key (lower_addresses t)) (transfers w1) = true)
    /\ (forall x, In x (transfers w) -> In x (transfers w1))
    /\ (batch <> [] ->
        forall i, (i < length batch + 3)%nat ->
                  db_fault env (db_calls w + i) = None))
   \/ (exists e,
         err = Some e /\ transfers w1 = transfers w
         /\ exists i e0,
              (i < length batch + 3)%nat
              /\ db_fault env (db_calls w + i) = Some e0
              /\ (forall j, (j < i)%nat -> db_fault env (db_calls w + j) = None)
              /\ e = wrapError (transaction_step (length batch) i) e0))
  /\ ((forall i, (i < length batch + 3)%nat ->
                 db_fault env (db_calls w + i) = None) ->
      err = None
      /\ transfers w1 = insert_all batch (transfers w)).
Proof.
  intros H. pose proof H as Hc. apply AddTransfersBatch_cases in Hc.
  destruct Hc as [(-> & -> & n & ->) | (e & n & -> & ->)].
  - split.
    + left. split; [reflexivity |]. split; [reflexivity |].
      split; [| split].
      * intros t Ht. simpl. now apply insert_all_has_keys.
      * intros x Hx. simpl. now apply insert_all_keeps.
      * intros Hne.
        now apply (AddTransfersBatch_commit_no_fault env batch w _ _ Hne H).
    + intros _. split; reflexivity.
  - destruct (AddTransfersBatch_error_fault env batch w e _ _ H)
      as (i & e0 & Hi & Hfault & Hbefore & He).
    split.
    + right. exists e. split; [reflexivity |]. split; [reflexivity |].
      exists i, e0. auto.
    + intros Hok. rewrite (Hok i Hi) in Hfault. discriminate.
Qed.

(** C9, on [example_batch]. With a driver that fails on the fourth
    call, the second statement, the error of that statement surfaces
    and the table, empty before, is still empty; with a driver that
    reports no fault the call commits and the table holds the two keys
    of the batch. *)
Lemma AddTransfersBatch_all_or_nothing_witness :
  (let r := AddTransfersBatch (faulty_db_env 3) example_batch empty_world in
   fst (fst r)
   = Some (wrapError "executing statement" (errorString "connection reset"))
   /\ transfers (snd r) = [])
  /\ (let r := AddTransfersBatch example_env example_batch empty_world in
      fst (fst r) = None
      /\ map Hash (transfers (snd r)) = ["0xh1"; "0xh2"]%string).
Proof.
  split.
  - pose proof (AddTransfersBatch_all_or_nothing (faulty_db_env 3) example_batch
                  empty_world
                  (fst (fst (AddTransfersBatch (faulty_db_env 3) example_batch
                               empty_world)))
                  (snd (fst (AddTransfersBatch (faulty_db_env 3) example_batch
                               empty_world)))
                  (snd (AddTransfersBatch (faulty_db_env 3) example_batch
                          empty_world)))
      as H.
    assert (He : AddTransfersBatch (faulty_db_env 3) example_batch empty_world
                 = (fst (fst (AddTransfersBatch (faulty_db_env 3) example_batch
                                empty_world)),
                    snd (fst (AddTransfersBatch (faulty_db_env 3) example_batch
                                empty_world)),
                    snd (AddTransfersBatch (faulty_db_env 3) example_batch
                           empty_world)))
      by (vm_compute; reflexivity).
    destruct (H He) as [[(Hnone & _) | (e & Herr & Hsame & _)] _].
    + vm_compute in Hnone. discriminate Hnone.
    + split; [vm_compute; reflexivity | exact Hsame].
  - pose proof (AddTransfersBatch_all_or_nothing example_env example_batch
                  empty_world
                  (fst (fst (AddTransfersBatch example_env example_batch
                               empty_world)))
                  (snd (fst (AddTransfersBatch example_env example_batch
                               empty_world)))
                  (snd (AddTransfersBatch example_env example_batch empty_world)))
      as H.
    assert (He : AddTransfersBatch example_env example_batch empty_world
                 = (fst (fst (AddTransfersBatch example_env example_batch
                                empty_world)),
                    snd (fst (AddTransfersBatch example_env example_batch
                                empty_world)),
                    snd (AddTransfersBatch example_env example_batch empty_world)))
      by (vm_compute; reflexivity).
    destruct (H He) as [_ Hcommit].
    destruct Hcommit as [Hnone Hrows]; [intros i _; reflexivity |].
    split; [exact Hnone |]. cbv zeta. rewrite Hrows. vm_compute. reflexivity.
Defined.

(** ** SQL aggregates *)

Lemma fold_max_spec (rest : list Z) (x : Z) :
  let m := fold_left Z.max rest x in
  In m (x :: rest) /\ forall y, In y (x :: rest) -> y <= m.
Proof.
  revert x. induction rest as [| z rest IH]; intros x; simpl.
  - split; [now left |]. intros y [<- | []]. lia.
  - destruct (IH (Z.max x z)) as [Hin Hle]. split.
    + destruct Hin as [Hm | Hm].
      * destruct (Z.max_spec x z) as [[_ E] | [_ E]]; rewrite E in *; auto.
      * auto.
    + intros y [<- | [<- | Hy]].
      * specialize (Hle (Z.max x z) ltac:(now left)). lia.
      * specialize (Hle (Z.max x z) ltac:(now left)). lia.
      * apply Hle. now right.
Qed.

Lemma fold_min_spec (rest : list Z) (x : Z) :
  let m := fold_left Z.min rest x in
  In m (x :: rest) /\ forall y, In y (x :: rest) -> m <= y.
Proof.
  revert x. induction rest as [| z rest IH]; intros x; simpl.
  - split; [now left |]. intros y [<- | []]. lia.
  - destruct (IH (Z.min x z)) as [Hin Hle]. split.
    + destruct Hin as [Hm | Hm].
      * destruct (Z.min_spec x z) as [[_ E] | [_ E]]; rewrite E in *; auto.
      * auto.
    + intros y [<- | [<- | Hy]].
      * specialize (Hle (Z.min x z) ltac:(now left)). lia.
      * specialize (Hle (Z.min x z) ltac:(now left)). lia.
      * apply Hle. now right.
Qed.

Lemma sql_MAX_some (col : list Z) :
  col <> [] ->
  exists m, sql_MAX col = Some m /\ In m col /\ forall y, In y col -> y <= m.
Proof.
  destruct col as [| x rest]; [congruence |]. intros _.
  exists (fold_left Z.max rest x). split; [reflexivity |].
  apply fold_max_spec.
Qed.

Lemma sql_MIN_some (col : list Z) :
  col <> [] ->
  exists m, sql_MIN col = Some m /\ In m col /\ forall y, In y col -> m <= y.
Proof.
  destruct col as [| x rest]; [congruence |]. intros _.
  exists (fold_left Z.min rest x). split; [reflexivity |].
  apply fold_min_spec.
Qed.

(** [COALESCE(MAX(block_number), 0)] over a set of rows. *)
Lemma max_block_of_rows (rows : list Transfer) :
  rows <> [] ->
  is_max_block (COALESCE (sql_MAX (map BlockNumber rows)) 0) rows.
Proof.
  intros Hne.
  destruct (sql_MAX_some (map BlockNumber rows)) as (m & -> & Hin & Hle).
  { destruct rows; [congruence | discriminate]. }
  simpl. split.
  - apply in_map_iff in Hin. destruct Hin as (t & Hb & Ht). now exists t.
  - intros t Ht. apply Hle. now apply in_map.
Qed.

Lemma is_max_block_unique (rows : list Transfer) (m m' : Z) :
  is_max_block m rows -> is_max_block m' rows -> m = m'.
Proof.
  intros [(t & Ht & Hb) Hle] [(t' & Ht' & Hb') Hle'].
  apply Hle' in Ht. apply Hle in Ht'. lia.
Qed.

Lemma filter_filter {A : Type} (p q : A -> bool) (l : list A) :
  List.filter p (List.filter q l) = List.filter (fun x => q x && p x) l.
Proof.
  induction l as [| x l IH]; simpl; [reflexivity |].
  destruct (q x); simpl; [destruct (p x) |]; now rewrite IH.
Qed.

(** ** Cursor resolution *)

(** The rows a group of the sub-select aggregates are the rows of the
    address for that token. *)
Lemma group_rows (address token : string) (rows : list Transfer) :
  token <> ethTokenAddress ->
  List.filter (fun t => String.eqb (TokenAddress t) token)
    (List.filter (fun t => from_or_to address t
                           && negb (String.eqb (TokenAddress t) ethTokenAddress))
                 rows)
  = rows_of address token rows.
Proof.
  intros Hne. rewrite filter_filter. unfold rows_of.
  apply filter_ext. intros t.
  destruct (String.eqb (TokenAddress t) token) eqn:E.
  - apply String.eqb_eq in E.
    assert (String.eqb (TokenAddress t) ethTokenAddress = false) as ->.
    { apply String.eqb_neq. congruence. }
    simpl. now rewrite !andb_true_r.
  - now rewrite !andb_false_r.
Qed.

Lemma group_key_seen (address token : string) (rows : list Transfer) :
  In token (remove_dups (map TokenAddress
     (List.filter (fun t => from_or_to address t
                            && negb (String.eqb (TokenAddress t) ethTokenAddress))
                  rows)))
  <-> token_seen address token rows.
Proof.
  rewrite <- list_elem_of_In, elem_of_remove_dups, list_elem_of_In.
  rewrite in_map_iff. unfold token_seen, rows_of. split.
  - intros (t & <- & Ht). apply filter_In in Ht. destruct Ht as [Ht Hp].
    apply andb_true_iff in Hp. destruct Hp as [Hft Hneq].
    apply negb_true_iff, String.eqb_neq in Hneq. split; [assumption |].
    intros Hnil.
    assert (Hin : In t (List.filter
              (fun t0 => from_or_to address t0
                         && String.eqb (TokenAddress t0) (TokenAddress t)) rows)).
    { apply filter_In. split; [assumption |].
      now rewrite Hft, String.eqb_refl. }
    rewrite Hnil in Hin. inversion Hin.
  - intros [Hne Hrows].
    destruct (List.filter _ rows) as [| t l] eqn:F; [congruence |].
    assert (Hin : In t (List.filter
              (fun t0 => from_or_to address t0
                         && String.eqb (TokenAddress t0) token) rows))
      by (rewrite F; now left).
    apply filter_In in Hin. destruct Hin as [Ht Hp].
    apply andb_true_iff in Hp. destruct Hp as [Hft Heq].
    apply String.eqb_eq in Heq.
    exists t. split; [assumption |]. apply filter_In. split; [assumption |].
    rewrite Hft. simpl. apply negb_true_iff, String.eqb_neq. congruence.
Qed.

(** Each row of the sub-select carries a seen token and its maximum. *)
Lemma token_blocks_spec (address : string) (rows : list Transfer)
    (token : string) (b : Z) :
  In (token, b) (token_blocks address rows) <->
  token_seen address token rows /\ is_max_block b (rows_of address token rows).
Proof.
  unfold token_blocks. rewrite in_map_iff. split.
  - intros (tok & Heq & Hin). injection Heq as -> <-.
    apply group_key_seen in Hin. split; [assumption |].
    destruct Hin as [Hne Hrows].
    rewrite group_rows by assumption. now apply max_block_of_rows.
  - intros [Hseen Hmax]. exists token. split.
    + f_equal. destruct Hseen as [Hne Hrows].
      rewrite group_rows by assumption.
      eapply is_max_block_unique; [| exact Hmax].
      now apply max_block_of_rows.
    + now apply group_key_seen.
Qed.

(** C2. The cursor resolver, when the query reaches the database. For
    the native asset class it returns the largest block number among
    the stored rows that have the (lower-cased) address as sender or
    receiver and the zero-address sentinel as asset, and 0 when there is
    no such row. For the aggregate-token class it returns the smallest,
    over the non-native assets seen for the address, of each asset's
    largest block number, and 0 when no non-native row exists. *)
Theorem cursor_resolver_spec (env : Env) (address : string) (w : World) :
  db_fault env (db_calls w) = None ->
  let a := strings_ToLower address in
  let rows := transfers w in
  let native := fst (fst (GetLastProcessedBlock env address ethTokenAddress w)) in
  let token := fst (fst (GetLastProcessedBlockForERC20 env address w)) in
  (rows_of a ethTokenAddress rows = [] -> native = 0)
  /\ (rows_of a ethTokenAddress rows <> [] ->
      is_max_block native (rows_of a ethTokenAddress rows))
  /\ ((forall tok, ~ token_seen a tok rows) -> token = 0)
  /\ (forall tok0, token_seen a tok0 rows ->
        (exists tok, token_seen a tok rows
                     /\ is_max_block token (rows_of a tok rows))
        /\ (forall tok m, token_seen a tok rows ->
                          is_max_block m (rows_of a tok rows) -> token <= m)).
Proof.
  intros Hdb a rows native token.
  assert (Hnative : native
            = COALESCE (sql_MAX (map BlockNumber (rows_of a ethTokenAddress rows))) 0).
  { unfold native, GetLastProcessedBlock. run. rewrite Hdb. reflexivity. }
  assert (Htoken : token = COALESCE (sql_MIN (map snd (token_blocks a rows))) 0).
  { unfold token, GetLastProcessedBlockForERC20. run. rewrite Hdb. reflexivity. }
  split; [| split; [| split]].
  - intros Hnil. rewrite Hnative, Hnil. reflexivity.
  - intros Hne. rewrite Hnative. now apply max_block_of_rows.
  - intros Hnone. rewrite Htoken.
    destruct (token_blocks a rows) as [| [tok b] l] eqn:E; [reflexivity |].
    exfalso. apply (Hnone tok).
    apply (token_blocks_spec a rows tok b). rewrite E. now left.
  - intros tok0 Hseen0.
    destruct (max_block_of_rows (rows_of a tok0 rows)) as [Hex0 Hle0];
      [apply Hseen0 |].
    assert (Hin0 : In (tok0, COALESCE (sql_MAX (map BlockNumber (rows_of a tok0 rows))) 0)
                      (token_blocks a rows)).
    { apply token_blocks_spec. split; [assumption |].
      apply max_block_of_rows, Hseen0. }
    destruct (sql_MIN_some (map snd (token_blocks a rows))) as (m & Hm & Hin & Hle).
    { intros Hnil. apply (in_map snd) in Hin0. rewrite Hnil in Hin0. inversion Hin0. }
    rewrite Htoken, Hm. simpl. split.
    + apply in_map_iff in Hin. destruct Hin as ([tok b] & Hb & Hin).
      simpl in Hb. subst b. exists tok. now apply token_blocks_spec.
    + intros tok m' Hseen Hmax. apply Hle.
      apply in_map_iff. exists (tok, m'). split; [reflexivity |].
      now apply token_blocks_spec.
Qed.

(** C2, on [cursor_world]: token A reaches block 100 and token B block
    50 for [alice], so the aggregate cursor is 50; the native one is 70. *)
Lemma cursor_resolver_spec_witness :
  fst (fst (GetLastProcessedBlock example_env alice ethTokenAddress cursor_world)) = 70
  /\ fst (fst (GetLastProcessedBlockForERC20 example_env alice cursor_world)) = 50
  /\ is_max_block 70 (rows_of alice ethTokenAddress (transfers cursor_world))
  /\ is_max_block 50 (rows_of alice tokenB (transfers cursor_world)).
Proof.
  assert (Hdb : db_fault example_env (db_calls cursor_world) = None) by reflexivity.
  destruct (cursor_resolver_spec example_env alice cursor_world Hdb)
    as (_ & Hnat & _ & Htok).
  assert (Hseen : token_seen alice tokenB (transfers cursor_world)).
  { split; [discriminate | vm_compute; discriminate]. }
  destruct (Htok tokenB Hseen) as [_ Hmin].
  assert (Hn : fst (fst (GetLastProcessedBlock example_env alice ethTokenAddress
                                                cursor_world)) = 70)
    by (vm_compute; reflexivity).
  assert (Ht : fst (fst (GetLastProcessedBlockForERC20 example_env alice
                                                        cursor_world)) = 50)
    by (vm_compute; reflexivity).
  split; [exact Hn |]. split; [exact Ht |]. split.
  - rewrite <- Hn. apply Hnat. vm_compute. discriminate.
  - replace (rows_of alice tokenB (transfers cursor_world))
      with [row "0xb1" 50 alice bob tokenB] by (vm_compute; reflexivity).
    split.
    + eexists. split; [now left | reflexivity].
    + intros t [<- | []]. simpl. lia.
Defined.

(** ** The paginated fetcher *)

Ltac runP :=
  cbv beta iota zeta delta [mbind P_bind mret P_ret lift].

Lemma in_window_iff (startTime endTime t : Time) :
  in_window startTime endTime t = true
  <-> unixNano startTime <= unixNano t <= unixNano endTime.
Proof.
  unfold in_window, time_After, time_Before, time_Equal.
  rewrite andb_true_iff, !orb_true_iff, !Z.ltb_lt, !Z.eqb_eq. lia.
Qed.

Lemma filter_page_spec {T : Type} (env : Env) (TimeStamp : T -> string)
    (startTime endTime : Time) (page : list T) (tx : T) :
  In tx (filter_page env TimeStamp startTime endTime page) <->
  In tx page
  /\ exists ts, strconv_ParseInt (TimeStamp tx) = Some ts
                /\ unixNano startTime <= ts * Second <= unixNano endTime.
Proof.
  induction page as [| x page IH]; simpl.
  - tauto.
  - destruct (strconv_ParseInt (TimeStamp x)) as [ts |] eqn:Ep.
    + destruct (in_window startTime endTime (time_Unix env ts)) eqn:Ew.
      * simpl. rewrite IH. split.
        -- intros [<- | [Hin Hts]]; [| tauto].
           split; [now left |]. exists ts. split; [assumption |].
           now apply in_window_iff in Ew.
        -- intros [[<- | Hin] Hts]; [now left | right; tauto].
      * rewrite IH. split; [tauto |].
        intros [[<- | Hin] Hts]; [| tauto].
        destruct Hts as (ts' & Hp & Hw). rewrite Ep in Hp. injection Hp as <-.
        assert (in_window startTime endTime (time_Unix env ts) = true)
          by now apply in_window_iff.
        congruence.
    + rewrite IH. split; [tauto |].
      intros [[<- | Hin] Hts]; [| tauto].
      destruct Hts as (ts' & Hp & _). congruence.
Qed.

(** The query without its [page] and [offset] entries. *)
Lemma page_params_shape (params : url_Values) (page : Z) :
  page_params params page
  = List.filter (fun kv => negb (String.eqb (fst kv) "page")
                           && negb (String.eqb (fst kv) "offset")) params
    ++ [("page", strconv_Itoa page); ("offset", strconv_Itoa defaultOffset)].
Proof.
  unfold page_params, url_Set.
  rewrite List.filter_app, filter_filter. simpl. now rewrite <- app_assoc.
Qed.

(** The loop keeps mutating one map: the query of a later page depends
    on the page number only. *)
Lemma page_params_again (params : url_Values) (a b : Z) :
  page_params (page_params params a) b = page_params params b.
Proof.
  rewrite (page_params_shape (page_params params a)).
  rewrite (page_params_shape params a), (page_params_shape params b).
  rewrite List.filter_app, filter_filter. simpl. rewrite app_nil_r.
  f_equal. apply filter_ext. intros kv.
  now destruct (negb (String.eqb (fst kv) "page")),
               (negb (String.eqb (fst kv) "offset")).
Qed.

Lemma doRequest_world {T : Type} (feed : nat -> url_Values -> HttpOutcome T)
    (q : url_Values) (w : World) :
  snd (doRequest feed q w) = bump_http w.
Proof. reflexivity. Qed.

Lemma doRequest_ok {T : Type} (feed : nat -> url_Values -> HttpOutcome T)
    (q : url_Values) (w : World) (page : list T) :
  fst (doRequest feed q w) = Ok page <-> served feed (http_calls w) q = Some page.
Proof.
  unfold doRequest, served. simpl.
  destruct (feed (http_calls w) q) as [e | e | c b | e | e | st msg [pg | e]];
    try (split; discriminate).
  - destruct (String.eqb st "1"); simpl; split; congruence.
  - destruct (String.eqb st "1"); simpl; split; discriminate.
Qed.

Lemma rateLimit_http (env : Env) (w : World) :
  http_calls (snd (rateLimit env w)) = http_calls w.
Proof.
  unfold rateLimit, time_Now, time_Sleep. run.
  destruct (_ <? _); reflexivity.
Qed.

Lemma rateLimit_tables (env : Env) (w : World) :
  let w' := snd (rateLimit env w) in
  transfers w' = transfers w /\ config w' = config w
  /\ source_addresses w' = source_addresses w /\ db_calls w' = db_calls w.
Proof.
  unfold rateLimit, time_Now, time_Sleep. run.
  destruct (_ <? _); repeat split; reflexivity.
Qed.

(** The result of a successful fetch is the concatenation of the
    filtered pages, which are the pages served to its requests. *)
Lemma fetch_pages_spec {T : Type} (env : Env) (TimeStamp : T -> string)
    (feed : nat -> url_Values -> HttpOutcome T)
    (startTime endTime : Time) (params0 : url_Values) (fuel : nat) :
  forall (j : nat) (params : url_Values) (acc : list T) (w : World)
         (txs : list T) (w' : World),
    (forall b, page_params params b = page_params params0 b) ->
    fetch_pages env TimeStamp feed fuel params startTime endTime
                (page_number j) acc w = Some (Ok txs, w') ->
    exists pages,
      txs = acc ++ concat (map (filter_page env TimeStamp startTime endTime) pages)
      /\ http_calls w' = (http_calls w + length pages)%nat
      /\ forall i page, nth_error pages i = Some page ->
           served feed (http_calls w + i)
                  (page_params params0 (page_number (j + i))) = Some page.
Proof.
  induction fuel as [| fuel IH]; intros j params acc w txs w' Hq; simpl.
  - discriminate.
  - runP.
    destruct (doRequest feed (page_params params (page_number j)) w)
      as [r w1] eqn:Er.
    assert (Hw1 : w1 = bump_http w).
    { now rewrite <- (doRequest_world feed (page_params params (page_number j)) w), Er. }
    destruct r as [page | e]; [| discriminate].
    assert (Hserved : served feed (http_calls w)
                        (page_params params0 (page_number j)) = Some page).
    { rewrite <- Hq. apply doRequest_ok. now rewrite Er. }
    destruct (Z.of_nat (length page) <? defaultOffset) eqn:Eshort.
    + intros H. injection H as <- <-.
      exists [page]. simpl. rewrite app_nil_r. split; [reflexivity |].
      split; [rewrite Hw1; simpl; lia |].
      intros i pg Hi. destruct i as [| i].
      * injection Hi as <-. now rewrite !Nat.add_0_r.
      * destruct i; discriminate.
    + destruct (rateLimit env w1) as [u w2] eqn:Erl.
      assert (Hw2 : http_calls w2 = S (http_calls w)).
      { pose proof (rateLimit_http env w1) as Hh. rewrite Erl in Hh.
        simpl in Hh. rewrite Hh, Hw1. reflexivity. }
      intros H.
      apply (IH (S j)) in H.
      * destruct H as (pages & -> & Hcalls & Hpages).
        exists (page :: pages). simpl. rewrite <- app_assoc.
        split; [reflexivity |].
        split; [rewrite Hcalls, Hw2; lia |].
        intros i pg Hi. destruct i as [| i].
        -- injection Hi as <-. now rewrite !Nat.add_0_r.
        -- simpl in Hi. apply Hpages in Hi.
           rewrite Hw2 in Hi.
           replace (http_calls w + S i)%nat with (S (http_calls w) + i)%nat by lia.
           replace (j + S i)%nat with (S j + i)%nat by lia.
           exact Hi.
      * intros b. rewrite page_params_again. apply Hq.
Qed.

Lemma fetch_pages_window {T : Type} (env : Env) (TimeStamp : T -> string)
    (feed : nat -> url_Values -> HttpOutcome T)
    (startTime endTime : Time) (params : url_Values) (fuel : nat)
    (w : World) (txs : list T) (w' : World) :
  fetch_pages env TimeStamp feed fuel params startTime endTime defaultPage [] w
  = Some (Ok txs, w') ->
  window_filtered TimeStamp feed params startTime endTime w w' txs.
Proof.
  intros H.
  apply (fetch_pages_spec env TimeStamp feed startTime endTime params fuel 0%nat)
    in H; [| reflexivity].
  destruct H as (pages & -> & Hcalls & Hpages). simpl.
  split.
  - intros tx Hin. apply in_concat in Hin. destruct Hin as (l & Hl & Hin).
    apply in_map_iff in Hl. destruct Hl as (page & <- & _).
    apply filter_page_spec in Hin. tauto.
  - intros i page tx ts Hi Hserved Hin Hparse Hwin.
    assert (Hlt : (i < length pages)%nat) by lia.
    destruct (nth_error pages i) as [pg |] eqn:En.
    2:{ apply nth_error_None in En. lia. }
    pose proof (Hpages i pg En) as Hs. simpl in Hs.
    rewrite Hserved in Hs. injection Hs as <-.
    apply in_concat. exists (filter_page env TimeStamp startTime endTime page).
    split.
    + apply in_map. eapply nth_error_In. exact En.
    + apply filter_page_spec. split; [assumption |]. now exists ts.
Qed.

(** A successful fetch walked the pages in order: full pages, then one
    short page, each served to one request at its page number. *)
Lemma fetch_pages_shape {T : Type} (env : Env) (TimeStamp : T -> string)
    (feed : nat -> url_Values -> HttpOutcome T)
    (startTime endTime : Time) (params0 : url_Values) (fuel : nat) :
  forall (j : nat) (params : url_Values) (acc : list T) (w : World)
         (txs : list T) (w' : World),
    (forall b, page_params params b = page_params params0 b) ->
    fetch_pages env TimeStamp feed fuel params startTime endTime
                (page_number j) acc w = Some (Ok txs, w') ->
    exists pages last,
      txs = acc ++ concat (map (filter_page env TimeStamp startTime endTime)
                               (pages ++ [last]))
      /\ Forall (fun p => defaultOffset <= Z.of_nat (length p)) pages
      /\ Z.of_nat (length last) < defaultOffset
      /\ http_calls w' = (http_calls w + length pages + 1)%nat
      /\ forall i page, nth_error (pages ++ [last]) i = Some page ->
           served feed (http_calls w + i)
                  (page_params params0 (page_number (j + i))) = Some page.
Proof.
  induction fuel as [| fuel IH]; intros j params acc w txs w' Hq; simpl.
  - discriminate.
  - runP.
    destruct (doRequest feed (page_params params (page_number j)) w)
      as [r w1] eqn:Er.
    assert (Hw1 : w1 = bump_http w).
    { now rewrite <- (doRequest_world feed (page_params params (page_number j)) w), Er. }
    destruct r as [page | e]; [| discriminate].
    assert (Hserved : served feed (http_calls w)
                        (page_params params0 (page_number j)) = Some page).
    { rewrite <- Hq. apply doRequest_ok. now rewrite Er. }
    destruct (Z.of_nat (length page) <? defaultOffset) eqn:Eshort.
    + intros H. injection H as <- <-.
      exists [], page. simpl. rewrite app_nil_r.
      split; [reflexivity |]. split; [constructor |].
      split; [now apply Z.ltb_lt |].
      split; [rewrite Hw1; simpl; lia |].
      intros i pg Hi. destruct i as [| i].
      * injection Hi as <-. now rewrite !Nat.add_0_r.
      * destruct i; discriminate.
    + destruct (rateLimit env w1) as [u w2] eqn:Erl.
      assert (Hw2 : http_calls w2 = S (http_calls w)).
      { pose proof (rateLimit_http env w1) as Hh. rewrite Erl in Hh.
        simpl in Hh. rewrite Hh, Hw1. reflexivity. }
      intros H.
      apply (IH (S j)) in H.
      * destruct H as (pages & last & -> & Hfull & Hshort & Hcalls & Hpages).
        exists (page :: pages), last. simpl. rewrite <- app_assoc.
        split; [reflexivity |].
        split; [constructor; [now apply Z.ltb_ge | exact Hfull] |].
        split; [exact Hshort |].
        split; [rewrite Hcalls, Hw2; lia |].
        intros i pg Hi. destruct i as [| i].
        -- injection Hi as <-. now rewrite !Nat.add_0_r.
        -- simpl in Hi. apply Hpages in Hi.
           rewrite Hw2 in Hi.
           replace (http_calls w + S i)%nat with (S (http_calls w) + i)%nat by lia.
           replace (j + S i)%nat with (S j + i)%nat by lia.
           exact Hi.
      * intros b. rewrite page_params_again. apply Hq.
Qed.

(** C7. Window filtering is inclusive on both bounds and applied to
    every page. Whenever one of the two fetch functions returns a
    sequence, it has sent at least one request, for page 1, and one
    request for each following page as long as the page before held
    10000 records; the sequence is the filtered content of the pages
    served, in that order; each returned transaction has a timestamp
    [ts] with [T0 <= ts <= T2] (so one before [T0], after [T2] or
    unreadable is excluded), and each transaction of any page served
    during the call with [T0 <= ts <= T2], in particular at exactly
    [T0] or exactly [T2], is in the returned sequence. *)
Theorem window_filtering (env : Env) (fuel : nat) (params : url_Values)
    (T0 T2 : Time) (w : World) :
  (forall txs w',
     fetchETHTransactions env fuel params T0 T2 w = Some (Ok txs, w') ->
     window_filtered eth_TimeStamp (http_txlist env) params T0 T2 w w' txs
     /\ paged env eth_TimeStamp (http_txlist env) (page_params params)
              T0 T2 w w' txs)
  /\ (forall txs w',
        fetchERC20Transactions env fuel params T0 T2 w = Some (Ok txs, w') ->
        window_filtered erc_TimeStamp (http_tokentx env) params T0 T2 w w' txs
        /\ paged env erc_TimeStamp (http_tokentx env) (page_params params)
                 T0 T2 w w' txs).
Proof.
  split; intros txs w' H; split.
  - exact (fetch_pages_window env eth_TimeStamp (http_txlist env) T0 T2 params
             fuel w txs w' H).
  - exact (fetch_pages_shape env eth_TimeStamp (http_txlist env) T0 T2 params
             fuel 0%nat params [] w txs w' (fun b => eq_refl) H).
  - exact (fetch_pages_window env erc_TimeStamp (http_tokentx env) T0 T2 params
             fuel w txs w' H).
  - exact (fetch_pages_shape env erc_TimeStamp (http_tokentx env) T0 T2 params
             fuel 0%nat params [] w txs w' (fun b => eq_refl) H).
Qed.

(** C7, on [window_page] and [window_token_page] with the window
    [1000 s, 2000 s]: for both functions the transactions at 1000, 1500
    and 2000 are returned, the ones at 999 and 2001 and the unreadable
    one are not, after one request. *)
Lemma window_filtering_witness :
  (fetchETHTransactions window_env 1 [] (mkTime (1000 * Second) 0)
                        (mkTime (2000 * Second) 0) empty_world
   = Some (Ok [eth_tx "0x2" "1000"; eth_tx "0x3" "1500"; eth_tx "0x4" "2000"],
           bump_http empty_world)
   /\ window_filtered eth_TimeStamp (http_txlist window_env) []
        (mkTime (1000 * Second) 0) (mkTime (2000 * Second) 0)
        empty_world (bump_http empty_world)
        [eth_tx "0x2" "1000"; eth_tx "0x3" "1500"; eth_tx "0x4" "2000"]
   /\ paged window_env eth_TimeStamp (http_txlist window_env) (page_params [])
        (mkTime (1000 * Second) 0) (mkTime (2000 * Second) 0)
        empty_world (bump_http empty_world)
        [eth_tx "0x2" "1000"; eth_tx "0x3" "1500"; eth_tx "0x4" "2000"])
  /\ (fetchERC20Transactions window_token_env 1 [] (mkTime (1000 * Second) 0)
                             (mkTime (2000 * Second) 0) empty_world
      = Some (Ok [erc_tx "0x2" "100" "1000"; erc_tx "0x3" "100" "1500";
                  erc_tx "0x4" "100" "2000"],
              bump_http empty_world)
      /\ window_filtered erc_TimeStamp (http_tokentx window_token_env) []
           (mkTime (1000 * Second) 0) (mkTime (2000 * Second) 0)
           empty_world (bump_http empty_world)
           [erc_tx "0x2" "100" "1000"; erc_tx "0x3" "100" "1500";
            erc_tx "0x4" "100" "2000"]
      /\ paged window_token_env erc_TimeStamp (http_tokentx window_token_env)
           (page_params [])
           (mkTime (1000 * Second) 0) (mkTime (2000 * Second) 0)
           empty_world (bump_http empty_world)
           [erc_tx "0x2" "100" "1000"; erc_tx "0x3" "100" "1500";
            erc_tx "0x4" "100" "2000"]).
Proof.
  assert (H : fetchETHTransactions window_env 1 [] (mkTime (1000 * Second) 0)
                (mkTime (2000 * Second) 0) empty_world
              = Some (Ok [eth_tx "0x2" "1000"; eth_tx "0x3" "1500"; eth_tx "0x4" "2000"],
                      bump_http empty_world))
    by (vm_compute; reflexivity).
  assert (H' : fetchERC20Transactions window_token_env 1 []
                 (mkTime (1000 * Second) 0) (mkTime (2000 * Second) 0) empty_world
               = Some (Ok [erc_tx "0x2" "100" "1000"; erc_tx "0x3" "100" "1500";
                           erc_tx "0x4" "100" "2000"],
                       bump_http empty_world))
    by (vm_compute; reflexivity).
  split.
  - split; [exact H |].
    exact (proj1 (window_filtering window_env 1 [] (mkTime (1000 * Second) 0)
                    (mkTime (2000 * Second) 0) empty_world) _ _ H).
  - split; [exact H' |].
    exact (proj2 (window_filtering window_token_env 1 [] (mkTime (1000 * Second) 0)
                    (mkTime (2000 * Second) 0) empty_world) _ _ H').
Defined.

(** ** Termination of the fetch loops *)

Lemma doRequest_full_page {T : Type} (feed : nat -> url_Values -> HttpOutcome T)
    (q : url_Values) (w : World) (page : list T) :
  fst (doRequest feed q w) = Ok page ->
  ends_paging (feed (http_calls w) q) ->
  Z.of_nat (length page) < defaultOffset.
Proof.
  unfold doRequest, ends_paging. simpl.
  destruct (feed (http_calls w) q) as [e | e | c b | e | e | st msg [pg | e]];
    try discriminate.
  - destruct (String.eqb st "1") eqn:E; simpl; [| discriminate].
    intros H. injection H as <-. intros Hshort. apply Hshort.
    now apply String.eqb_eq.
  - destruct (String.eqb st "1"); discriminate.
Qed.

(** A fetch ends within [j + 1] pages when its [j]-th request cannot be
    answered with a full page. *)
Lemma fetch_pages_terminates {T : Type} (env : Env) (TimeStamp : T -> string)
    (feed : nat -> url_Values -> HttpOutcome T) (startTime endTime : Time) :
  forall (j fuel : nat) (params : url_Values) (page : Z) (acc : list T) (w : World),
    (j < fuel)%nat ->
    (forall q, ends_paging (feed (http_calls w + j)%nat q)) ->
    exists r w', fetch_pages env TimeStamp feed fuel params startTime endTime
                             page acc w = Some (r, w').
Proof.
  induction j as [| j IH]; intros fuel params page acc w Hlt Hend;
    (destruct fuel as [| fuel]; [lia |]); simpl; runP.
  - destruct (doRequest feed (page_params params page) w) as [r w1] eqn:Er.
    destruct r as [pg | e]; [| eauto].
    assert (Hshort : Z.of_nat (length pg) < defaultOffset).
    { apply (doRequest_full_page feed (page_params params page) w).
      - now rewrite Er.
      - specialize (Hend (page_params params page)).
        now rewrite Nat.add_0_r in Hend. }
    apply Z.ltb_lt in Hshort. rewrite Hshort. eauto.
  - destruct (doRequest feed (page_params params page) w) as [r w1] eqn:Er.
    assert (Hw1 : w1 = bump_http w).
    { now rewrite <- (doRequest_world feed (page_params params page) w), Er. }
    destruct r as [pg | e]; [| eauto].
    destruct (Z.of_nat (length pg) <? defaultOffset); [eauto |].
    destruct (rateLimit env w1) as [u w2] eqn:Erl.
    apply IH; [lia |].
    intros q.
    pose proof (rateLimit_http env w1) as Hh. rewrite Erl in Hh. simpl in Hh.
    rewrite Hh, Hw1. change (http_calls (bump_http w)) with (S (http_calls w)).
    replace (S (http_calls w) + j)%nat with (http_calls w + S j)%nat by lia.
    apply Hend.
Qed.

Lemma GetETHTransfers_terminates (env : Env) (fuel : nat) (address : string)
    (startTime endTime : Time) (startBlock : Z) (w : World) :
  bounded_pagination env fuel ->
  exists r w', GetETHTransfers env fuel address startTime endTime startBlock w
               = Some (r, w').
Proof.
  intros Hb. unfold GetETHTransfers, fetchETHTransactions. runP.
  destruct (rateLimit env w) as [u w1].
  destruct (Hb (http_calls w1)) as (j & Hj & Hend).
  apply (fetch_pages_terminates env eth_TimeStamp (http_txlist env)
           startTime endTime j fuel); [assumption |].
  intros q. apply Hend.
Qed.

Lemma GetERC20Transfers_terminates (env : Env) (fuel : nat)
    (address tokenAddress : string)
    (startTime endTime : Time) (startBlock : Z) (w : World) :
  bounded_pagination env fuel ->
  exists r w', GetERC20Transfers env fuel address tokenAddress startTime endTime
                                 startBlock w = Some (r, w').
Proof.
  intros Hb. unfold GetERC20Transfers, fetchERC20Transactions. runP.
  destruct (rateLimit env w) as [u w1].
  destruct (Hb (http_calls w1)) as (j & Hj & Hend).
  apply (fetch_pages_terminates env erc_TimeStamp (http_tokentx env)
           startTime endTime j fuel); [assumption |].
  intros q. apply Hend.
Qed.

Lemma fetchAndStoreETHTransfers_terminates (env : Env) (fuel : nat)
    (address : string) (startTime endTime : Time) (w : World) :
  bounded_pagination env fuel ->
  exists r w', fetchAndStoreETHTransfers env fuel address startTime endTime w
               = Some (r, w').
Proof.
  intros Hb. unfold fetchAndStoreETHTransfers. runP.
  destruct (GetLastProcessedBlock env address ethTokenAddress w) as [[b err] w1].
  match goal with |- context [GetETHTransfers env fuel ?a ?s ?e ?b ?w] =>
    destruct (GetETHTransfers_terminates env fuel a s e b w Hb) as (r & w2 & ->)
  end.
  destruct r as [txs | e]; [| eauto].
  match goal with |- context [store_batch env ?m ?b ?w] =>
    destruct (store_batch env m b w) as [r w3] end.
  eauto.
Qed.

Lemma fetchAndStoreAllERC20Transfers_terminates (env : Env) (fuel : nat)
    (address : string) (startTime endTime : Time) (w : World) :
  bounded_pagination env fuel ->
  exists r w', fetchAndStoreAllERC20Transfers env fuel address startTime endTime w
               = Some (r, w').
Proof.
  intros Hb. unfold fetchAndStoreAllERC20Transfers. runP.
  destruct (GetLastProcessedBlockForERC20 env address w) as [[b err] w1].
  match goal with |- context [GetERC20Transfers env fuel ?a ?t ?s ?e ?b ?w] =>
    destruct (GetERC20Transfers_terminates env fuel a t s e b w Hb) as (r & w2 & ->)
  end.
  destruct r as [txs | e]; [| eauto].
  match goal with |- context [store_batch env ?m ?b ?w] =>
    destruct (store_batch env m b w) as [r w3] end.
  eauto.
Qed.

Lemma sync_address_terminates (env : Env) (fuel : nat) (a : SourceAddress)
    (startTime endTime : Time) (w : World) :
  bounded_pagination env fuel ->
  exists r w', sync_address env fuel a startTime endTime w = Some (r, w').
Proof.
  intros Hb. unfold sync_address. runP.
  destruct (fetchAndStoreETHTransfers_terminates env fuel (Address a)
              startTime endTime w Hb) as (r & w1 & ->).
  destruct r as [e |]; [eauto |].
  apply fetchAndStoreAllERC20Transfers_terminates, Hb.
Qed.

Lemma sync_addresses_terminates (env : Env) (fuel : nat)
    (addrs : list SourceAddress) (startTime endTime : Time) (w : World) :
  bounded_pagination env fuel ->
  exists w', sync_addresses env fuel addrs startTime endTime w = Some (tt, w').
Proof.
  intros Hb. revert w. induction addrs as [| a addrs IH]; intros w; simpl.
  - eexists. reflexivity.
  - runP.
    destruct (sync_address_terminates env fuel a startTime endTime w Hb)
      as (r & w1 & ->).
    apply IH.
Qed.

(** The loop visits the addresses one after the other, whatever the
    outcome of each. *)
Lemma sync_addresses_app (env : Env) (fuel : nat)
    (pre post : list SourceAddress) (startTime endTime : Time) (w : World) :
  sync_addresses env fuel (pre ++ post) startTime endTime w
  = match sync_addresses env fuel pre startTime endTime w with
    | Some (_, w1) => sync_addresses env fuel post startTime endTime w1
    | None => None
    end.
Proof.
  revert w. induction pre as [| a pre IH]; intros w; simpl.
  - reflexivity.
  - runP. destruct (sync_address env fuel a startTime endTime w) as [[r w1] |];
      [apply IH | reflexivity].
Qed.

(** ** What the stages of a sync leave in the table *)

Lemma fetch_pages_transfers {T : Type} (env : Env) (TimeStamp : T -> string)
    (feed : nat -> url_Values -> HttpOutcome T) (startTime endTime : Time)
    (fuel : nat) :
  forall (params : url_Values) (page : Z) (acc : list T) (w : World)
         (r : result (list T)) (w' : World),
    fetch_pages env TimeStamp feed fuel params startTime endTime page acc w
    = Some (r, w') ->
    transfers w' = transfers w.
Proof.
  induction fuel as [| fuel IH]; intros params page acc w r w'; simpl.
  - discriminate.
  - runP.
    destruct (doRequest feed (page_params params page) w) as [r1 w1] eqn:Er.
    assert (Hw1 : w1 = bump_http w).
    { now rewrite <- (doRequest_world feed (page_params params page) w), Er. }
    destruct r1 as [pg | e].
    + destruct (Z.of_nat (length pg) <? defaultOffset).
      * intros H. injection H as <- <-. now rewrite Hw1.
      * destruct (rateLimit env w1) as [u w2] eqn:Erl.
        intros H. apply IH in H. rewrite H.
        pose proof (rateLimit_tables env w1) as Ht. rewrite Erl in Ht.
        simpl in Ht. destruct Ht as [-> _]. now rewrite Hw1.
    + intros H. injection H as <- <-. now rewrite Hw1.
Qed.

Lemma store_batch_error (env : Env) (what : string) (batch : list Transfer)
    (w : World) (e : error) (w' : World) :
  store_batch env what batch w = (Some e, w') -> transfers w' = transfers w.
Proof.
  unfold store_batch. destruct (0 <? length batch)%nat.
  - run.
    destruct (AddTransfersBatch env batch w) as [[err b'] w1] eqn:E.
    apply AddTransfersBatch_cases in E.
    destruct E as [(-> & _ & n & ->) | (e0 & n & -> & ->)].
    + discriminate.
    + intros H. injection H as <- <-. reflexivity.
  - run. discriminate.
Qed.

Lemma GetLastProcessedBlock_world (env : Env) (address token : string) (w : World) :
  snd (GetLastProcessedBlock env address token w) = bump_db w.
Proof.
  unfold GetLastProcessedBlock. run.
  destruct (db_fault env (db_calls w)); reflexivity.
Qed.

Lemma GetLastProcessedBlockForERC20_world (env : Env) (address : string) (w : World) :
  snd (GetLastProcessedBlockForERC20 env address w) = bump_db w.
Proof.
  unfold GetLastProcessedBlockForERC20. run.
  destruct (db_fault env (db_calls w)); reflexivity.
Qed.

(** A failed native stage, be it the fetch or the write, stores nothing. *)
Lemma fetchAndStoreETHTransfers_error (env : Env) (fuel : nat) (address : string)
    (startTime endTime : Time) (w : World) (e : error) (w' : World) :
  fetchAndStoreETHTransfers env fuel address startTime endTime w = Some (Some e, w') ->
  transfers w' = transfers w.
Proof.
  unfold fetchAndStoreETHTransfers, GetETHTransfers, fetchETHTransactions. runP.
  destruct (GetLastProcessedBlock env address ethTokenAddress w) as [[b err] w1] eqn:E1.
  assert (Hw1 : w1 = bump_db w).
  { now rewrite <- (GetLastProcessedBlock_world env address ethTokenAddress w), E1. }
  destruct (rateLimit env w1) as [u w2] eqn:Erl.
  assert (Hw2 : transfers w2 = transfers w).
  { pose proof (rateLimit_tables env w1) as Ht. rewrite Erl in Ht.
    simpl in Ht. destruct Ht as [-> _]. now rewrite Hw1. }
  match goal with |- context [fetch_pages env ?ts ?fd ?fu ?pa ?s ?en ?pg ?ac ?ww] =>
    destruct (fetch_pages env ts fd fu pa s en pg ac ww) as [[r w3] |] eqn:Ef
  end; [| discriminate].
  apply fetch_pages_transfers in Ef.
  destruct r as [txs | e0].
  - intros H. injection H as H.
    apply store_batch_error in H. congruence.
  - intros H. injection H as _ <-. congruence.
Qed.

Lemma fetchAndStoreAllERC20Transfers_error (env : Env) (fuel : nat)
    (address : string)
    (startTime endTime : Time) (w : World) (e : error) (w' : World) :
  fetchAndStoreAllERC20Transfers env fuel address startTime endTime w
  = Some (Some e, w') ->
  transfers w' = transfers w.
Proof.
  unfold fetchAndStoreAllERC20Transfers, GetERC20Transfers, fetchERC20Transactions.
  runP.
  destruct (GetLastProcessedBlockForERC20 env address w) as [[b err] w1] eqn:E1.
  assert (Hw1 : w1 = bump_db w).
  { now rewrite <- (GetLastProcessedBlockForERC20_world env address w), E1. }
  destruct (rateLimit env w1) as [u w2] eqn:Erl.
  assert (Hw2 : transfers w2 = transfers w).
  { pose proof (rateLimit_tables env w1) as Ht. rewrite Erl in Ht.
    simpl in Ht. destruct Ht as [-> _]. now rewrite Hw1. }
  match goal with |- context [fetch_pages env ?ts ?fd ?fu ?pa ?s ?en ?pg ?ac ?ww] =>
    destruct (fetch_pages env ts fd fu pa s en pg ac ww) as [[r w3] |] eqn:Ef
  end; [| discriminate].
  apply fetch_pages_transfers in Ef.
  destruct r as [txs | e0].
  - intros H. injection H as H.
    apply store_batch_error in H. congruence.
  - intros H. injection H as _ <-. congruence.
Qed.

(** [FetchAndStoreTransfers] past its two early returns. *)
Lemma FetchAndStoreTransfers_loop (env : Env) (fuel : nat) (w : World) :
  db_fault env (db_calls w) = None ->
  source_addresses w <> [] ->
  FetchAndStoreTransfers env fuel w
  = match sync_addresses env fuel (source_addresses w)
            (time_AddDate env (clock env (clock_reads w)) 0 (-1) 0)
            (clock env (clock_reads w)) (bump_clock (bump_db w)) with
    | Some (_, wl) => Some (None, snd (stamp_markers env wl))
    | None => None
    end.
Proof.
  intros Hdb Hne. unfold FetchAndStoreTransfers, GetSourceAddresses, time_Now.
  runP. run. rewrite Hdb.
  change (source_addresses (bump_db w)) with (source_addresses w).
  destruct (source_addresses w) as [| a l] eqn:Es; [congruence |].
  cbn [length Nat.eqb].
  change (clock_reads (bump_db w)) with (clock_reads w).
  destruct (sync_addresses env fuel (a :: l) _ _ _) as [[u wl] |]; [| reflexivity].
  destruct (stamp_markers env wl) as [u' w']. reflexivity.
Qed.

(** ** The sync coordinator *)

(** A run over a non-empty address list goes through the whole loop and
    returns no error. *)
Lemma sync_run_completes (env : Env) (fuel : nat) (w : World) :
  bounded_pagination env fuel ->
  db_fault env (db_calls w) = None ->
  source_addresses w <> [] ->
  exists wl,
    sync_addresses env fuel (source_addresses w)
      (time_AddDate env (clock env (clock_reads w)) 0 (-1) 0)
      (clock env (clock_reads w)) (bump_clock (bump_db w)) = Some (tt, wl)
    /\ FetchAndStoreTransfers env fuel w = Some (None, snd (stamp_markers env wl)).
Proof.
  intros Hb Hdb Hne.
  destruct (sync_addresses_terminates env fuel (source_addresses w)
              (time_AddDate env (clock env (clock_reads w)) 0 (-1) 0)
              (clock env (clock_reads w)) (bump_clock (bump_db w)) Hb) as (wl & Hl).
  exists wl. split; [assumption |].
  rewrite FetchAndStoreTransfers_loop by assumption. now rewrite Hl.
Qed.

(** C3. Partial-failure isolation of [FetchAndStoreTransfers]. With a
    non-empty list of tracked addresses (and a feed that ends every
    pagination within the fuel) the run returns, and returns no error.
    For every tracked address, whatever the outcome of its body, the
    loop goes on with the addresses after it from the state that body
    left; and when the native stage of an address fails, the address is
    skipped: its body ends with that error and without a row stored. *)
Theorem syncAll_partial_failure_isolation (env : Env) (fuel : nat) (w : World) :
  bounded_pagination env fuel ->
  db_fault env (db_calls w) = None ->
  source_addresses w <> [] ->
  let endTime := clock env (clock_reads w) in
  let startTime := time_AddDate env endTime 0 (-1) 0 in
  let w0 := bump_clock (bump_db w) in
  (exists wl,
     sync_addresses env fuel (source_addresses w) startTime endTime w0 = Some (tt, wl)
     /\ FetchAndStoreTransfers env fuel w = Some (None, snd (stamp_markers env wl)))
  /\ (forall pre a post,
        source_addresses w = pre ++ a :: post ->
        exists w1 r w2,
          sync_addresses env fuel pre startTime endTime w0 = Some (tt, w1)
          /\ sync_address env fuel a startTime endTime w1 = Some (r, w2)
          /\ sync_addresses env fuel (source_addresses w) startTime endTime w0
             = sync_addresses env fuel post startTime endTime w2
          /\ (forall e w2',
                fetchAndStoreETHTransfers env fuel (Address a) startTime endTime w1
                = Some (Some e, w2') ->
                r = Some e /\ w2 = w2' /\ transfers w2 = transfers w1)).
Proof.
  intros Hb Hdb Hne endTime startTime w0. split.
  - now apply sync_run_completes.
  - intros pre a post Hsplit.
    destruct (sync_addresses_terminates env fuel pre startTime endTime w0 Hb)
      as (w1 & Hpre).
    destruct (sync_address_terminates env fuel a startTime endTime w1 Hb)
      as (r & w2 & Ha).
    exists w1, r, w2. split; [assumption |]. split; [assumption |]. split.
    + rewrite Hsplit, sync_addresses_app, Hpre. simpl. runP. now rewrite Ha.
    + intros e w2' He. pose proof He as Hstore.
      apply fetchAndStoreETHTransfers_error in Hstore.
      unfold sync_address in Ha. revert Ha. runP. rewrite He.
      intros H. injection H as <- <-. auto.
Qed.

(** C3, with three tracked addresses where the feed refuses the
    connection for the second: the run returns no error, and the table
    holds the transfers of the first and of the third address. *)
Lemma syncAll_partial_failure_isolation_witness :
  (exists w',
     FetchAndStoreTransfers isolation_env 1 isolation_world = Some (None, w')
     /\ map FromAddress (transfers w') = [alice; carol])
  /\ fst <$> fetchAndStoreETHTransfers isolation_env 1 bob
               (mkTime 0 0) (mkTime 0 0) isolation_world
     = Some (Some (wrapError "fetching ETH transfers"
                     (wrapError "executing request"
                        (errorString "connection refused")))).
Proof.
  assert (Hb : bounded_pagination isolation_env 1).
  { intros n. exists 0%nat. split; [lia |]. intros q. split.
    - unfold ends_paging, isolation_env, http_txlist.
      destruct (String.eqb (url_Get q "address") bob); [exact I |].
      intros _. reflexivity.
    - unfold ends_paging, isolation_env, http_tokentx, silent_feed.
      intros _. reflexivity. }
  assert (Hdb : db_fault isolation_env (db_calls isolation_world) = None)
    by reflexivity.
  assert (Hne : source_addresses isolation_world <> []) by discriminate.
  destruct (syncAll_partial_failure_isolation isolation_env 1 isolation_world
              Hb Hdb Hne) as [(wl & Hl & Hrun) _].
  split.
  - exists (snd (stamp_markers isolation_env wl)). split; [exact Hrun |].
    assert (Hwl : Some (tt, wl)
                  = sync_addresses isolation_env 1 (source_addresses isolation_world)
                      (time_AddDate isolation_env
                         (clock isolation_env (clock_reads isolation_world)) 0 (-1) 0)
                      (clock isolation_env (clock_reads isolation_world))
                      (bump_clock (bump_db isolation_world)))
      by (symmetry; exact Hl).
    vm_compute in Hwl. injection Hwl as ->. vm_compute. reflexivity.
  - vm_compute. reflexivity.
Defined.

(** ** Freshness markers *)

Lemma db_healthy_from_le (env : Env) (n m : nat) :
  (n <= m)%nat -> db_healthy_from env n -> db_healthy_from env m.
Proof. intros Hle H k Hk. apply H. lia. Qed.

(** With a healthy driver [UpdateConfig] is an upsert. *)
Lemma UpdateConfig_healthy (env : Env) (key value : string) (w : World) :
  db_healthy_from env (db_calls w) ->
  exists n, (db_calls w <= n)%nat
            /\ UpdateConfig env key value w
               = (None, set_config (<[key := value]> (config w)) (with_db_calls n w)).
Proof.
  intros Hh. unfold UpdateConfig. run.
  rewrite (Hh (db_calls w)) by lia.
  cbn [config bump_db].
  destruct (config w !! key) as [old |] eqn:Ek.
  - cbn [db_calls bump_db set_config].
    rewrite (Hh (S (db_calls w))) by lia. simpl.
    exists (S (S (db_calls w))). split; [lia | reflexivity].
  - cbn [db_calls bump_db set_config].
    rewrite (Hh (S (db_calls w))) by lia. simpl.
    rewrite (Hh (S (S (db_calls w)))) by lia.
    exists (S (S (S (db_calls w)))). split; [lia | reflexivity].
Qed.

(** With any driver it touches the [config] table only. *)
Lemma UpdateConfig_transfers (env : Env) (key value : string) (w : World) :
  transfers (snd (UpdateConfig env key value w)) = transfers w.
Proof.
  unfold UpdateConfig. run.
  destruct (db_fault env (db_calls w)); [reflexivity |].
  cbn [config bump_db].
  destruct (config w !! key); cbn [db_calls bump_db set_config];
    destruct (db_fault env (S (db_calls w))); try reflexivity.
  simpl. destruct (db_fault env (S (S (db_calls w)))); reflexivity.
Qed.

(** The closing statements write one reading of the clock under both
    keys. *)
Lemma stamp_markers_spec (env : Env) (wl : World) :
  let now := time_Format env (clock env (clock_reads wl)) RFC3339 in
  let w' := snd (stamp_markers env wl) in
  transfers w' = transfers wl
  /\ (db_healthy_from env (db_calls wl) ->
      config w' !! configKeyLastETHUpdate = Some now
      /\ config w' !! configKeyLastTokenUpdate = Some now).
Proof.
  intros now w'. split.
  - unfold w', stamp_markers, time_Now. run.
    match goal with |- context [UpdateConfig env ?k ?v ?w] =>
      pose proof (UpdateConfig_transfers env k v w) as H1;
      destruct (UpdateConfig env k v w) as [e1 w1] end.
    match goal with |- context [UpdateConfig env ?k ?v ?w] =>
      pose proof (UpdateConfig_transfers env k v w) as H2;
      destruct (UpdateConfig env k v w) as [e2 w2] end.
    simpl in *. congruence.
  - intros Hh. unfold w', stamp_markers, time_Now. run. fold now.
    destruct (UpdateConfig_healthy env configKeyLastETHUpdate now (bump_clock wl))
      as (n1 & Hn1 & ->); [exact Hh |].
    match goal with |- context [UpdateConfig env ?k ?v ?w] =>
      destruct (UpdateConfig_healthy env k v w) as (n2 & Hn2 & ->) end.
    { eapply db_healthy_from_le; [| exact Hh]. simpl in *. lia. }
    simpl. split.
    + rewrite lookup_insert_ne by discriminate. apply lookup_insert_eq.
    + apply lookup_insert_eq.
Qed.

(** A run that finds no tracked address returns success after its one
    query: nothing is fetched, the clock is not read and no table is
    written. *)
Lemma FetchAndStoreTransfers_no_address (env : Env) (fuel : nat) (w : World) :
  db_fault env (db_calls w) = None ->
  source_addresses w = [] ->
  FetchAndStoreTransfers env fuel w = Some (None, bump_db w).
Proof.
  intros Hdb He. unfold FetchAndStoreTransfers, GetSourceAddresses.
  runP. run. rewrite Hdb.
  change (source_addresses (bump_db w)) with (source_addresses w).
  rewrite He. reflexivity.
Qed.

(** C4, as the code has it. A run over a non-empty list of tracked
    addresses completes without error whether or not addresses failed
    on the way, and ends by writing one reading of the current time
    under both freshness keys; with a driver that is healthy from then
    on, both markers hold that time when the run returns. A run that
    finds no tracked address returns success before the stamping: the
    configuration, and so both markers, the transfers and the counts of
    requests and of clock readings are as they were. *)
Theorem markers_stamped_after_sync (env : Env) (fuel : nat) (w : World) :
  db_fault env (db_calls w) = None ->
  (source_addresses w <> [] ->
   bounded_pagination env fuel ->
   exists wl w',
     sync_addresses env fuel (source_addresses w)
       (time_AddDate env (clock env (clock_reads w)) 0 (-1) 0)
       (clock env (clock_reads w)) (bump_clock (bump_db w)) = Some (tt, wl)
     /\ FetchAndStoreTransfers env fuel w = Some (None, w')
     /\ (db_healthy_from env (db_calls wl) ->
         let now := time_Format env (clock env (clock_reads wl)) RFC3339 in
         config w' !! configKeyLastETHUpdate = Some now
         /\ config w' !! configKeyLastTokenUpdate = Some now))
  /\ (source_addresses w = [] ->
      exists w',
        FetchAndStoreTransfers env fuel w = Some (None, w')
        /\ config w' = config w
        /\ config w' !! configKeyLastETHUpdate = config w !! configKeyLastETHUpdate
        /\ config w' !! configKeyLastTokenUpdate
           = config w !! configKeyLastTokenUpdate
        /\ transfers w' = transfers w
        /\ http_calls w' = http_calls w
        /\ clock_reads w' = clock_reads w).
Proof.
  intros Hdb. split.
  - intros Hne Hb.
    destruct (sync_run_completes env fuel w Hb Hdb Hne)
      as (wl & Hl & Hrun).
    exists wl, (snd (stamp_markers env wl)).
    split; [assumption |]. split; [assumption |].
    intros Hh. now apply stamp_markers_spec.
  - intros He. exists (bump_db w).
    split; [now apply FetchAndStoreTransfers_no_address |].
    repeat split; reflexivity.
Qed.

(** C4, on two runs. On the run of [isolation_env], in which the
    second address fails, both markers hold the time read when the loop
    was over, the twelfth reading of the clock. On a store with a
    marker and no tracked address the run returns success and the
    marker is the one of before, although the clock has moved on. *)
Lemma markers_stamped_after_sync_witness :
  (exists w',
     FetchAndStoreTransfers isolation_env 1 isolation_world = Some (None, w')
     /\ config w' !! configKeyLastETHUpdate = Some "1700000011"%string
     /\ config w' !! configKeyLastTokenUpdate = Some "1700000011"%string)
  /\ (exists w',
        FetchAndStoreTransfers (policy_env 1800000000 0) 1 (policy_world "1")
        = Some (None, w')
        /\ config w' !! configKeyLastETHUpdate
           = Some "2023-11-14T22:13:20Z"%string
        /\ config w' !! configKeyLastTokenUpdate = None).
Proof.
  split.
  - assert (Hb : bounded_pagination isolation_env 1).
    { intros n. exists 0%nat. split; [lia |]. intros q. split.
      - unfold ends_paging, isolation_env, http_txlist.
        destruct (String.eqb (url_Get q "address") bob); [exact I |].
        intros _. reflexivity.
      - unfold ends_paging, isolation_env, http_tokentx, silent_feed.
        intros _. reflexivity. }
    assert (Hdb : db_fault isolation_env (db_calls isolation_world) = None)
      by reflexivity.
    assert (Hne : source_addresses isolation_world <> []) by discriminate.
    destruct (proj1 (markers_stamped_after_sync isolation_env 1 isolation_world Hdb)
                Hne Hb)
      as (wl & w' & Hl & Hrun & Hm).
    exists w'. split; [exact Hrun |].
    destruct Hm as [Hm1 Hm2]; [intros m _; reflexivity |].
    assert (Hwl : Some (tt, wl)
                  = sync_addresses isolation_env 1 (source_addresses isolation_world)
                      (time_AddDate isolation_env
                         (clock isolation_env (clock_reads isolation_world)) 0 (-1) 0)
                      (clock isolation_env (clock_reads isolation_world))
                      (bump_clock (bump_db isolation_world)))
      by (symmetry; exact Hl).
    vm_compute in Hwl. injection Hwl as ->.
    split; [rewrite Hm1 | rewrite Hm2]; vm_compute; reflexivity.
  - destruct (proj2 (markers_stamped_after_sync (policy_env 1800000000 0) 1
                       (policy_world "1") eq_refl) eq_refl)
      as (w' & Hrun & _ & He & Ht & _).
    exists w'. split; [exact Hrun |].
    split; [rewrite He | rewrite Ht]; vm_compute; reflexivity.
Defined.

(** C4 as stated fails: a run with no tracked address completes with
    success and writes no marker at all. *)
Lemma markers_not_stamped_without_addresses :
  ~ (forall (env : Env) (fuel : nat) (w : World) (r : option error) (w' : World),
       FetchAndStoreTransfers env fuel w = Some (r, w') ->
       exists t,
         config w' !! configKeyLastETHUpdate = Some (time_Format env t RFC3339)
         /\ config w' !! configKeyLastTokenUpdate = Some (time_Format env t RFC3339)).
Proof.
  intros H.
  destruct (H example_env 1%nat empty_world None (bump_db empty_world) eq_refl)
    as (t & H1 & _).
  change (config (bump_db empty_world)) with (∅ : gmap string string) in H1.
  rewrite lookup_empty in H1. discriminate H1.
Qed.

(** ** Refresh policy *)

Lemma wrap64_small (z : Z) : minInt64 <= z <= maxInt64 -> wrap64 z = z.
Proof.
  unfold wrap64, minInt64, maxInt64. intros H.
  rewrite Z.mod_small by lia. lia.
Qed.

(** [ShouldRefreshData] never returns an error, and its decision is the
    comparison below. *)
Lemma ShouldRefreshData_decision (env : Env) (w : World) :
  fst (ShouldRefreshData env w)
  = (match stored_marker env w with
     | None => true
     | Some last =>
         wrap64 (configured_interval env w * Hour)
         <? time_Sub (clock env (clock_reads w)) last
     end, None).
Proof.
  unfold ShouldRefreshData, GetRefreshInterval, GetConfig, time_Now,
    stored_marker, configured_interval.
  run.
  destruct (db_fault env (db_calls w)); [reflexivity |].
  run; cbn [config bump_db].
  destruct (config w !! configKeyLastETHUpdate) as [s |]; [| reflexivity].
  run.
  destruct (time_Parse env RFC3339 s) as [last |]; [| reflexivity].
  run; cbn [db_calls bump_db].
  destruct (db_fault env (S (db_calls w))); [reflexivity |].
  run; cbn [config bump_db].
  destruct (config w !! configKeyMinRefreshInterval) as [v |]; [| reflexivity].
  run.
  destruct (strconv_Atoi v); reflexivity.
Qed.

(** Fail open: without a readable marker a refresh is due. *)
Lemma ShouldRefreshData_fail_open (env : Env) (w : World) :
  stored_marker env w = None -> fst (ShouldRefreshData env w) = (true, None).
Proof. intros H. now rewrite ShouldRefreshData_decision, H. Qed.

(** The cooldown, for intervals whose [Duration] fits in 64 bits (up to
    2562047 hours): a refresh is due exactly when more than the
    interval has elapsed since the marker. *)
Lemma ShouldRefreshData_cooldown (env : Env) (w : World) (last : Time) :
  stored_marker env w = Some last ->
  minInt64 <= configured_interval env w * Hour <= maxInt64 ->
  fst (fst (ShouldRefreshData env w)) = true
  <-> configured_interval env w * Hour
      < unixNano (clock env (clock_reads w)) - unixNano last.
Proof.
  intros Hm Hr. rewrite ShouldRefreshData_decision, Hm. cbn [fst].
  rewrite wrap64_small by assumption.
  rewrite Z.ltb_lt. unfold time_Sub.
  unfold minInt64, maxInt64, Hour, Minute, Second in *.
  destruct (_ <? _) eqn:E1.
  - apply Z.ltb_lt in E1. lia.
  - apply Z.ltb_ge in E1. destruct (_ <? _) eqn:E2.
    + apply Z.ltb_lt in E2. lia.
    + apply Z.ltb_ge in E2. lia.
Qed.

(** With the marker at [T] and an interval of one hour: not due 59
    minutes after [T], due 61 minutes after. *)
Lemma ShouldRefreshData_59_61 (env : Env) (w : World) (T : Time) :
  stored_marker env w = Some T ->
  configured_interval env w = 1 ->
  (unixNano (clock env (clock_reads w)) = unixNano T + 59 * Minute ->
   fst (fst (ShouldRefreshData env w)) = false)
  /\ (unixNano (clock env (clock_reads w)) = unixNano T + 61 * Minute ->
      fst (fst (ShouldRefreshData env w)) = true).
Proof.
  intros Hm Hi.
  assert (Hr : minInt64 <= configured_interval env w * Hour <= maxInt64).
  { rewrite Hi. unfold minInt64, maxInt64, Hour, Minute, Second. lia. }
  pose proof (ShouldRefreshData_cooldown env w T Hm Hr) as H.
  rewrite Hi in H. unfold Hour, Minute, Second in *. split; intros Hnow.
  - destruct (fst (fst (ShouldRefreshData env w))); [| reflexivity].
    destruct H as [H _]. specialize (H eq_refl). lia.
  - apply H. lia.
Qed.

(** C6 fails on the code for intervals from 2562048 hours on: the
    [int64] product [Duration(refreshInterval) * time.Hour] wraps to a
    negative duration. With that interval configured and the marker one
    minute old, [ShouldRefreshData] answers that a refresh is due,
    though one minute does not exceed 2562048 hours. *)
Theorem ShouldRefreshData_interval_overflow :
  let env := policy_env (1700000000 + 60) 0 in
  let w := policy_world "2562048" in
  stored_marker env w = Some (mkTime (1700000000 * Second) 0)
  /\ configured_interval env w = 2562048
  /\ unixNano (clock env (clock_reads w)) - 1700000000 * Second = 1 * Minute
  /\ ~ (2562048 * Hour < 1 * Minute)
  /\ wrap64 (2562048 * Hour) = -9223371273709551616
  /\ fst (ShouldRefreshData env w) = (true, None).
Proof.
  repeat split; try (vm_compute; reflexivity).
  vm_compute. discriminate.
Qed.

(** ** The daily trigger *)

Lemma time_Minute_range (t : Time) : 0 <= time_Minute t < 60.
Proof.
  unfold time_Minute.
  pose proof (Z.mod_pos_bound (wallSeconds t) 3600 ltac:(lia)) as H.
  split.
  - apply Z.div_pos; lia.
  - apply Z.div_lt_upper_bound; lia.
Qed.

(** Two instants built by [time.Date(0, 1, 1, h, m, 0, 0, UTC)] from
    hours and minutes of wall clocks are equal only for the same hour
    and the same minute. *)
Lemma clock_instants_equal (t u : Time) :
  time_Equal (time_Date_0_1_1 (time_Hour t) (time_Minute t))
             (time_Date_0_1_1 (time_Hour u) (time_Minute u)) = true
  <-> time_Hour t = time_Hour u /\ time_Minute t = time_Minute u.
Proof.
  unfold time_Equal, time_Date_0_1_1. cbn [unixNano].
  rewrite Z.eqb_eq.
  pose proof (time_Minute_range t). pose proof (time_Minute_range u).
  unfold Second. split; [| intros [-> ->]; reflexivity].
  intros H1. lia.
Qed.

(** C8. Daily trigger exactness. A scheduler wake calls
    [runDailyUpdate] if and only if the configured daily refresh time
    is read and parsed and the hour and the minute of the current wall
    clock equal its hour and minute; seconds play no part. The wake
    then runs [FetchAndStoreTransfers], and does nothing else
    otherwise. *)
Theorem daily_trigger_exact (env : Env) (w : World) :
  (fst (dailyUpdateDue env w) = true
   <-> exists timeStr refreshTime,
         db_fault env (db_calls w) = None
         /\ config w !! configKeyDailyRefreshTime = Some timeStr
         /\ time_Parse env layoutClock timeStr = Some refreshTime
         /\ time_Hour (clock env (clock_reads w)) = time_Hour refreshTime
         /\ time_Minute (clock env (clock_reads w)) = time_Minute refreshTime)
  /\ (forall fuel,
        checkAndRunDailyUpdate env fuel w
        = if fst (dailyUpdateDue env w)
          then match FetchAndStoreTransfers env fuel (snd (dailyUpdateDue env w)) with
               | Some (_, w') => Some (true, w')
               | None => None
               end
          else Some (false, snd (dailyUpdateDue env w))).
Proof.
  split.
  - unfold dailyUpdateDue, GetDailyRefreshTime, GetConfig, time_Now. run.
    destruct (db_fault env (db_calls w)) as [e |] eqn:Hdb.
    { cbn [fst]. split; [discriminate |].
      intros (s & rt & Hf & _). discriminate. }
    run; cbn [config bump_db].
    destruct (config w !! configKeyDailyRefreshTime) as [timeStr |] eqn:Hc.
    2:{ cbn [fst]. split; [discriminate |].
        intros (s & rt & _ & Hs & _). discriminate. }
    run.
    destruct (time_Parse env layoutClock timeStr) as [refreshTime |] eqn:Hp.
    2:{ cbn [fst]. split; [discriminate |].
        intros (s & rt & _ & Hs & Hrt & _).
        injection Hs as <-. rewrite Hp in Hrt. discriminate. }
    run; cbn [fst clock_reads bump_db]. rewrite clock_instants_equal. split.
    + intros [Hh Hm]. exists timeStr, refreshTime. auto.
    + intros (s & rt & _ & Hs & Hrt & Hh & Hm).
      injection Hs as <-. rewrite Hp in Hrt. injection Hrt as <-. auto.
  - intros fuel. unfold checkAndRunDailyUpdate, runDailyUpdate. runP.
    destruct (dailyUpdateDue env w) as [[|] w1]; cbn [fst snd]; [| reflexivity].
    destruct (FetchAndStoreTransfers env fuel w1) as [[r w'] |]; reflexivity.
Qed.

(** C8, with daily refresh time "09:00:00" in a zone seven hours east
    of UTC: the wake at local 09:00:30 triggers the run, the wakes at
    08:59:30 and at 09:01:30 do not. *)
Lemma daily_trigger_exact_witness :
  fst (dailyUpdateDue (policy_env (1699920000 + 2 * 3600 + 30) 25200)
                      (policy_world "1")) = true
  /\ fst (dailyUpdateDue (policy_env (1699920000 + 2 * 3600 - 30) 25200)
                         (policy_world "1")) = false
  /\ fst (dailyUpdateDue (policy_env (1699920000 + 2 * 3600 + 90) 25200)
                         (policy_world "1")) = false.
Proof.
  split; [| split].
  - apply (proj1 (daily_trigger_exact _ _)).
    exists "09:00:00"%string, (time_Date_0_1_1 9 0).
    repeat split; vm_compute; reflexivity.
  - destruct (fst (dailyUpdateDue _ _)) eqn:E; [| reflexivity].
    apply (proj1 (daily_trigger_exact _ _)) in E.
    destruct E as (s & rt & _ & Hs & Hrt & Hh & Hm).
    vm_compute in Hs. injection Hs as <-.
    vm_compute in Hrt. injection Hrt as <-.
    vm_compute in Hh. discriminate Hh.
  - destruct (fst (dailyUpdateDue _ _)) eqn:E; [| reflexivity].
    apply (proj1 (daily_trigger_exact _ _)) in E.
    destruct E as (s & rt & _ & Hs & Hrt & Hh & Hm).
    vm_compute in Hs. injection Hs as <-.
    vm_compute in Hrt. injection Hrt as <-.
    vm_compute in Hm. discriminate Hm.
Defined.

(** ** Normalisation of fetched transactions *)

Lemma erc20_batch_length (env : Env) (txs : list ERC20Transaction) :
  length (erc20_batch env txs) = length (List.filter erc20_parseable txs).
Proof.
  induction txs as [| tx txs IH]; simpl; [reflexivity |].
  unfold erc20_parseable at 1.
  destruct (strconv_ParseInt (erc_BlockNumber tx)); [| assumption].
  destruct (strconv_ParseInt (erc_TimeStamp tx)); [| assumption].
  simpl. now rewrite IH.
Qed.

Lemma eth_batch_origin (env : Env) (txs : list ETHTransaction) (t : Transfer) :
  In t (eth_batch env txs) ->
  exists tx, In tx txs /\ eth_IsError tx = "0"%string /\ Hash t = eth_Hash tx.
Proof.
  induction txs as [| tx txs IH]; simpl; [tauto |].
  destruct (String.eqb (eth_IsError tx) "0") eqn:E; simpl.
  - apply String.eqb_eq in E.
    destruct (strconv_ParseInt (eth_BlockNumber tx)).
    2:{ intros H. destruct (IH H) as (x & Hx & Hr). exists x. tauto. }
    destruct (strconv_ParseInt (eth_TimeStamp tx)).
    2:{ intros H. destruct (IH H) as (x & Hx & Hr). exists x. tauto. }
    intros [<- | H].
    + exists tx. simpl. tauto.
    + destruct (IH H) as (x & Hx & Hr). exists x. tauto.
  - intros H. destruct (IH H) as (x & Hx & Hr). exists x. tauto.
Qed.

Lemma eth_batch_app (env : Env) (l1 l2 : list ETHTransaction) :
  eth_batch env (l1 ++ l2) = eth_batch env l1 ++ eth_batch env l2.
Proof.
  induction l1 as [| tx l1 IH]; simpl; [reflexivity |].
  destruct (negb (String.eqb (eth_IsError tx) "0")); [assumption |].
  destruct (strconv_ParseInt (eth_BlockNumber tx)); [| assumption].
  destruct (strconv_ParseInt (eth_TimeStamp tx)); [| assumption].
  simpl. now rewrite IH.
Qed.

(** C10. The token path applies no success filter. Every fetched token
    transfer whose block number and timestamp parse yields its record
    in the batch (the batch has as many records as there are such
    transfers, no field of the token record acting as a failure flag),
    and that batch is what the function hands to the batch write. The
    native path differs: each of its records comes from a transaction
    whose is-error flag is "0", and a transaction with any other flag
    leaves the batch as if it had not been fetched. *)
Theorem erc20_batch_no_status_filter (env : Env) :
  (forall txs tx bn ts,
     In tx txs ->
     strconv_ParseInt (erc_BlockNumber tx) = Some bn ->
     strconv_ParseInt (erc_TimeStamp tx) = Some ts ->
     In (mkTransfer (erc_Hash tx) bn (time_Unix env ts) (erc_From tx) (erc_To tx)
                    (erc_ContractAddress tx) (erc_Value tx))
        (erc20_batch env txs))
  /\ (forall txs,
        length (erc20_batch env txs) = length (List.filter erc20_parseable txs))
  /\ (forall fuel address startTime endTime w txs w2,
        let c := GetLastProcessedBlockForERC20 env address w in
        let lastBlock := match snd (fst c) with
                         | Some _ => 0
                         | None => fst (fst c)
                         end in
        GetERC20Transfers env fuel address "" startTime endTime lastBlock (snd c)
        = Some (Ok txs, w2) ->
        fetchAndStoreAllERC20Transfers env fuel address startTime endTime w
        = Some (store_batch env "storing ERC20 transfers batch"
                            (erc20_batch env txs) w2))
  /\ (forall txs t,
        In t (eth_batch env txs) ->
        exists tx, In tx txs /\ eth_IsError tx = "0"%string /\ Hash t = eth_Hash tx)
  /\ (forall pre tx post,
        eth_IsError tx <> "0"%string ->
        eth_batch env (pre ++ tx :: post) = eth_batch env (pre ++ post)).
Proof.
  split; [| split; [| split; [| split]]].
  - intros txs tx bn ts Hin Hb Ht.
    induction txs as [| x txs IH]; simpl; [inversion Hin |].
    destruct Hin as [-> | Hin].
    + rewrite Hb, Ht. now left.
    + destruct (strconv_ParseInt (erc_BlockNumber x)); [| now apply IH].
      destruct (strconv_ParseInt (erc_TimeStamp x)); [| now apply IH].
      right. now apply IH.
  - apply erc20_batch_length.
  - intros fuel address startTime endTime w txs w2 c lastBlock Hfetch.
    unfold fetchAndStoreAllERC20Transfers. runP.
    fold c. destruct c as [[b err] w1] eqn:Ec.
    cbn [fst snd] in lastBlock, Hfetch.
    unfold lastBlock in Hfetch. rewrite Hfetch. reflexivity.
  - apply eth_batch_origin.
  - intros pre tx post Hflag.
    rewrite !eth_batch_app. f_equal. simpl.
    apply String.eqb_neq in Hflag. now rewrite Hflag.
Qed.

(** C10, on two fetched lists: the token transfers with readable fields
    are both kept, whatever happened to their transactions; of the two
    native transactions the one flagged as failed is dropped. *)
Lemma erc20_batch_no_status_filter_witness :
  map Hash (erc20_batch example_env
              [erc_tx "0xt1" "100" "1200"; erc_tx "0xt2" "soon" "1300";
               erc_tx "0xt3" "101" "1400"])
  = ["0xt1"; "0xt3"]%string
  /\ In (mkTransfer "0xt3" 101 (time_Unix example_env 1400) alice bob tokenA "5")
        (erc20_batch example_env
           [erc_tx "0xt1" "100" "1200"; erc_tx "0xt2" "soon" "1300";
            erc_tx "0xt3" "101" "1400"])
  /\ eth_batch example_env ([eth_tx "0xe1" "1200"] ++ failed_eth_tx "0xe2" "1300" :: [])
     = eth_batch example_env ([eth_tx "0xe1" "1200"] ++ []).
Proof.
  destruct (erc20_batch_no_status_filter example_env) as (Hin & _ & _ & _ & Hdrop).
  split; [vm_compute; reflexivity |]. split.
  - apply (Hin _ (erc_tx "0xt3" "101" "1400") 101 1400);
      [simpl; tauto | vm_compute; reflexivity | vm_compute; reflexivity].
  - apply Hdrop. discriminate.
Defined.

(** ** Amount normalisation *)





Lemma isDigit_digitVal (c : ascii) : isDigit c = true -> 0 <= digitVal c <= 9.
Proof.
  unfold isDigit, digitVal. intros H.
  apply andb_true_iff in H. destruct H as [H1 H2].
  apply N.leb_le in H1. apply N.leb_le in H2. lia.
Qed.





Example normalizeAmount_one_and_a_half :
  normalizeAmount "1500000000000000000" 18 = Some "1.500000000000000000"%string.
Proof. vm_compute. reflexivity. Qed.

(** C5 fails on the code: [new(big.Float)] has a 64-bit mantissa, so
    amounts from [2 ^ 63] on are rounded. The raw amount
    20000000000000000001 (20 units of an 18-decimals asset plus one
    base unit) is read as 20000000000000000000 and rendered as
    "20.000000000000000000", while the amount divided by [10 ^ 18] is
    20.000000000000000001; likewise 18446744073709551617 with 0
    decimals comes out as 18446744073709551616. *)
Theorem normalizeAmount_loses_precision :
  normalizeAmount "20000000000000000001" 18 = Some "20.000000000000000000"%string
  /\ exact_normalized "20000000000000000001" 18 = Some "20.000000000000000001"%string
  /\ normalizeAmount "20000000000000000001" 18
     <> exact_normalized "20000000000000000001" 18
  /\ normalizeAmount "18446744073709551617" 0 = Some "18446744073709551616"%string
  /\ exact_normalized "18446744073709551617" 0 = Some "18446744073709551617"%string.
Proof.
  repeat split; try (vm_compute; reflexivity).
  vm_compute. discriminate.
Qed.

(* ================================================================== *)
(** * Part III: further properties of the code *)
(* ================================================================== *)

(** ** Decimal text of integers *)

Lemma parseDigits_string_of_uint (d : Decimal.uint) (acc : Z) :
  parseDigits (NilEmpty.string_of_uint d) acc = Some (uint_value d acc).
Proof.
  revert acc. induction d; intros acc; simpl; try reflexivity; apply IHd.
Qed.

Lemma of_uint_acc_value (d : Decimal.uint) (p : positive) :
  Z.pos (Pos.of_uint_acc d p) = uint_value d (Z.pos p).
Proof.
  revert p. induction d; intros p; simpl; try reflexivity;
    rewrite IHd; f_equal; lia.
Qed.

Lemma of_uint_value (d : Decimal.uint) : Z.of_uint d = uint_value d 0.
Proof.
  unfold Z.of_uint.
  induction d; simpl; try reflexivity; try assumption;
    rewrite of_uint_acc_value; reflexivity.
Qed.

Lemma string_of_uint_digits (d : Decimal.uint) :
  exists c s, NilZero.string_of_uint d = String c s
              /\ Ascii.eqb c "+" = false /\ Ascii.eqb c "-" = false
              /\ parseDigits (String c s) 0 = Some (Z.of_uint d).
Proof.
  rewrite of_uint_value.
  destruct d; simpl;
    try (eexists; eexists; split; [reflexivity |];
         split; [reflexivity |]; split; [reflexivity |];
         apply parseDigits_string_of_uint).
  eexists; eexists. repeat split; reflexivity.
Qed.

(** Printing an [int64] and parsing the text gives the number back. *)
Lemma ParseInt_Itoa (n : Z) :
  in_int64 n = true -> strconv_ParseInt (strconv_Itoa n) = Some n.
Proof.
  intros Hr. unfold strconv_Itoa, strconv_ParseInt, NilZero.string_of_int.
  pose proof (DecimalZ.of_to n) as Hn.
  destruct (Z.to_int n) as [d | d]; simpl in Hn.
  - destruct (string_of_uint_digits d) as (c & s & -> & -> & -> & Hp).
    rewrite Hp, Hn, Hr. reflexivity.
  - destruct (string_of_uint_digits d) as (c & s & Hs & _ & _ & Hp).
    simpl. rewrite Hs, Hp.
    replace (- Z.of_uint d) with n by lia. now rewrite Hr.
Qed.

(** ** The configuration table *)

Lemma GetConfig_healthy (env : Env) (key : string) (w : World) :
  db_fault env (db_calls w) = None ->
  GetConfig env key w
  = (match config w !! key with
     | Some value => (value, None)
     | None => (""%string,
                Some (wrapError ("getting config " +:+ key) sql_ErrNoRows))
     end, bump_db w).
Proof.
  intros Hdb. unfold GetConfig. run. rewrite Hdb. run. cbn [config bump_db].
  destruct (config w !! key); reflexivity.
Qed.

(** Every way [UpdateConfig] can end: the upsert done; nothing written;
    or the row updated and the error of [RowsAffected] returned. *)
Lemma UpdateConfig_cases (env : Env) (key value : string) (w : World) :
  exists n, (db_calls w < n)%nat /\
    ((UpdateConfig env key value w
      = (None, with_config (<[key := value]> (config w)) n w))
     \/ (exists e, UpdateConfig env key value w
                   = (Some e, with_config (config w) n w))
     \/ (exists e old, config w !! key = Some old
                       /\ UpdateConfig env key value w
                          = (Some e, with_config (<[key := value]> (config w)) n w))).
Proof.
  unfold UpdateConfig. run.
  destruct (db_fault env (db_calls w)) as [e |].
  { exists (S (db_calls w)). split; [lia |]. right. left. eexists.
    destruct w; reflexivity. }
  run; cbn [config bump_db].
  destruct (config w !! key) as [old |] eqn:Ek; run; cbn [db_calls bump_db set_config].
  - destruct (db_fault env (S (db_calls w))) as [e |].
    + exists (S (S (db_calls w))). split; [lia |]. right. right.
      exists (wrapError "getting rows affected" e), old. split; reflexivity.
    + exists (S (S (db_calls w))). split; [lia |]. left. reflexivity.
  - destruct (db_fault env (S (db_calls w))) as [e |].
    + exists (S (S (db_calls w))). split; [lia |]. right. left. eexists.
      destruct w; reflexivity.
    + simpl. destruct (db_fault env (S (S (db_calls w)))) as [e |].
      * exists (S (S (S (db_calls w)))). split; [lia |]. right. left. eexists.
        destruct w; reflexivity.
      * exists (S (S (S (db_calls w)))). split; [lia |]. left. reflexivity.
Qed.

(** X1. Upsert round trip. With a driver that reports no fault,
    [UpdateConfig key value] succeeds whether or not the key existed;
    [GetConfig key] then returns [value], and every other key reads as
    it did before. *)
Theorem config_upsert_round_trip (env : Env) (key value : string) (w : World) :
  db_healthy_from env (db_calls w) ->
  fst (UpdateConfig env key value w) = None
  /\ fst (GetConfig env key (snd (UpdateConfig env key value w))) = (value, None)
  /\ (forall key', key' <> key ->
        fst (GetConfig env key' (snd (UpdateConfig env key value w)))
        = fst (GetConfig env key' w)).
Proof.
  intros Hh.
  destruct (UpdateConfig_healthy env key value w Hh) as (n & Hn & ->).
  cbn [fst snd]. split; [reflexivity |].
  assert (Hdb : db_fault env (db_calls (set_config (<[key := value]> (config w))
                                                   (with_db_calls n w))) = None).
  { apply Hh. simpl. lia. }
  split.
  - rewrite GetConfig_healthy by assumption. cbn [config set_config fst].
    now rewrite lookup_insert_eq.
  - intros key' Hne.
    rewrite GetConfig_healthy by assumption.
    rewrite (GetConfig_healthy env key' w) by (apply Hh; lia).
    cbn [config set_config fst].
    now rewrite lookup_insert_ne by congruence.
Qed.

Lemma config_upsert_round_trip_witness :
  fst (GetConfig example_env "k"
         (snd (UpdateConfig example_env "k" "v2"
                 (snd (UpdateConfig example_env "k" "v1" empty_world)))))
  = ("v2"%string, None).
Proof.
  apply (config_upsert_round_trip example_env "k" "v2"
           (snd (UpdateConfig example_env "k" "v1" empty_world))).
  intros m _. reflexivity.
Defined.

(** X2. Whatever the driver does, [UpdateConfig key value] changes no
    other key and no other table; the row of [key] either keeps its
    content or holds [value]; when the first statement fails nothing is
    written; and an error is returned only after a call into the driver
    has failed. *)
Theorem UpdateConfig_frame (env : Env) (key value : string) (w : World) :
  let w1 := snd (UpdateConfig env key value w) in
  (forall key', key' <> key -> config w1 !! key' = config w !! key')
  /\ (config w1 !! key = config w !! key \/ config w1 !! key = Some value)
  /\ transfers w1 = transfers w
  /\ source_addresses w1 = source_addresses w
  /\ (forall e, db_fault env (db_calls w) = Some e -> config w1 = config w)
  /\ (db_healthy_from env (db_calls w) -> fst (UpdateConfig env key value w) = None).
Proof.
  intros w1.
  assert (Hfirst : forall e, db_fault env (db_calls w) = Some e -> config w1 = config w).
  { intros e He. unfold w1, UpdateConfig. run. rewrite He. reflexivity. }
  assert (Hhealthy : db_healthy_from env (db_calls w) ->
                     fst (UpdateConfig env key value w) = None).
  { intros Hh. destruct (UpdateConfig_healthy env key value w Hh) as (n & _ & ->).
    reflexivity. }
  assert (Hrest : (forall key', key' <> key -> config w1 !! key' = config w !! key')
                  /\ (config w1 !! key = config w !! key \/ config w1 !! key = Some value)
                  /\ transfers w1 = transfers w
                  /\ source_addresses w1 = source_addresses w).
  { unfold w1.
    destruct (UpdateConfig_cases env key value w)
      as (n & Hn & [-> | [(e & ->) | (e & old & Hold & ->)]]);
      cbn [snd with_config config set_config transfers source_addresses with_db_calls].
    - repeat split; auto.
      + intros key' Hne. now rewrite lookup_insert_ne by congruence.
      + right. apply lookup_insert_eq.
    - repeat split; auto.
    - repeat split; auto.
      + intros key' Hne. now rewrite lookup_insert_ne by congruence.
      + right. apply lookup_insert_eq. }
  tauto.
Qed.

(** X2, with a driver whose second call, [RowsAffected], fails: the
    call returns that error although the row has been updated. *)
Lemma UpdateConfig_frame_witness :
  let w := snd (UpdateConfig example_env "k" "v1" empty_world) in
  fst (UpdateConfig (faulty_db_env 4) "k" "v2" w)
  = Some (wrapError "getting rows affected" (errorString "connection reset"))
  /\ config (snd (UpdateConfig (faulty_db_env 4) "k" "v2" w)) !! "k"
     = Some "v2"%string
  /\ transfers (snd (UpdateConfig (faulty_db_env 4) "k" "v2" w)) = transfers w.
Proof.
  intros w.
  destruct (UpdateConfig_frame (faulty_db_env 4) "k" "v2" w)
    as (_ & Hk & Ht & _).
  split; [vm_compute; reflexivity |]. split; [| exact Ht].
  destruct Hk as [Hk | Hk]; [| exact Hk].
  vm_compute in Hk. discriminate Hk.
Defined.

(** ** Refresh interval and daily refresh time *)

Lemma GetRefreshInterval_healthy (env : Env) (w : World) :
  db_fault env (db_calls w) = None ->
  fst (GetRefreshInterval env w)
  = match config w !! configKeyMinRefreshInterval with
    | Some v =>
        match strconv_Atoi v with
        | Some hours => (hours, None)
        | None => (defaultMinRefreshIntervalHrs,
                   Some (wrapError "parsing refresh interval"
                           (strconv_NumError "Atoi" v)))
        end
    | None =>
        (defaultMinRefreshIntervalHrs,
         Some (wrapError "getting refresh interval"
                 (wrapError ("getting config " +:+ configKeyMinRefreshInterval)
                    sql_ErrNoRows)))
    end.
Proof.
  intros Hdb. unfold GetRefreshInterval.
  run.
  rewrite GetConfig_healthy by assumption.
  destruct (config w !! configKeyMinRefreshInterval) as [v |]; [| reflexivity].
  destruct (strconv_Atoi v); reflexivity.
Qed.

Lemma GetDailyRefreshTime_healthy (env : Env) (w : World) :
  db_fault env (db_calls w) = None ->
  GetDailyRefreshTime env w
  = (match config w !! configKeyDailyRefreshTime with
     | Some v => (v, None)
     | None =>
         ("00:00:00"%string,
          Some (wrapError "getting daily refresh time"
                  (wrapError ("getting config " +:+ configKeyDailyRefreshTime)
                     sql_ErrNoRows)))
     end, bump_db w).
Proof.
  intros Hdb. unfold GetDailyRefreshTime.
  run.
  rewrite GetConfig_healthy by assumption.
  destruct (config w !! configKeyDailyRefreshTime); reflexivity.
Qed.

(** X3. The refresh interval is validated at write time and read back
    as written. An interval below one hour is rejected without a call
    into the driver and without any change of state; an interval of at
    least one hour is stored (with a healthy driver) and
    [GetRefreshInterval] then returns it. *)
Theorem refresh_interval_round_trip (env : Env) (hours : Z) (w : World) :
  in_int64 hours = true ->
  (hours < 1 ->
   UpdateRefreshInterval env hours w
   = (Some (errorString "refresh interval must be at least 1 hour"), w))
  /\ (1 <= hours -> db_healthy_from env (db_calls w) ->
      fst (UpdateRefreshInterval env hours w) = None
      /\ fst (GetRefreshInterval env (snd (UpdateRefreshInterval env hours w)))
         = (hours, None)).
Proof.
  intros Hr. split.
  - intros Hlt. unfold UpdateRefreshInterval.
    apply Z.ltb_lt in Hlt. now rewrite Hlt.
  - intros Hge Hh. unfold UpdateRefreshInterval.
    assert ((hours <? 1) = false) as -> by (apply Z.ltb_ge; lia).
    run.
    destruct (UpdateConfig_healthy env configKeyMinRefreshInterval
                (strconv_Itoa hours) w Hh) as (n & Hn & ->).
    cbn [fst snd]. split; [reflexivity |].
    rewrite GetRefreshInterval_healthy by (apply Hh; simpl; lia).
    cbn [config set_config]. rewrite lookup_insert_eq.
    unfold strconv_Atoi. now rewrite ParseInt_Itoa.
Qed.

Lemma refresh_interval_round_trip_witness :
  UpdateRefreshInterval example_env 0 empty_world
  = (Some (errorString "refresh interval must be at least 1 hour"), empty_world)
  /\ fst (GetRefreshInterval example_env
            (snd (UpdateRefreshInterval example_env 48 empty_world)))
     = (48, None).
Proof.
  destruct (refresh_interval_round_trip example_env 0 empty_world eq_refl)
    as [H0 _].
  destruct (refresh_interval_round_trip example_env 48 empty_world eq_refl)
    as [_ H48].
  split.
  - apply H0. lia.
  - apply H48; [lia |]. intros m _. reflexivity.
Defined.

(** X4. The getters fall back to their defaults together with an
    error. [GetRefreshInterval] returns an error exactly when the row
    cannot be read or is no [int64] numeral, and then the interval is
    1; without an error the interval is the stored numeral.
    [GetDailyRefreshTime] returns an error exactly when the row cannot
    be read, and then the time is "00:00:00"; without an error it is the
    stored text. *)
Theorem config_getters_default (env : Env) (w : World) :
  (snd (fst (GetRefreshInterval env w)) <> None ->
   fst (fst (GetRefreshInterval env w)) = 1)
  /\ (snd (fst (GetRefreshInterval env w)) = None <->
      db_fault env (db_calls w) = None
      /\ exists v, config w !! configKeyMinRefreshInterval = Some v
                   /\ strconv_Atoi v = Some (fst (fst (GetRefreshInterval env w))))
  /\ (snd (fst (GetDailyRefreshTime env w)) <> None ->
      fst (fst (GetDailyRefreshTime env w)) = "00:00:00"%string)
  /\ (snd (fst (GetDailyRefreshTime env w)) = None <->
      db_fault env (db_calls w) = None
      /\ config w !! configKeyDailyRefreshTime
         = Some (fst (fst (GetDailyRefreshTime env w)))).
Proof.
  destruct (db_fault env (db_calls w)) as [e |] eqn:Hdb.
  - assert (H1 : fst (GetRefreshInterval env w)
                 = (1, Some (wrapError "getting refresh interval"
                      (wrapError ("getting config " +:+ configKeyMinRefreshInterval) e)))).
    { unfold GetRefreshInterval, GetConfig. run. rewrite Hdb. reflexivity. }
    assert (H2 : fst (GetDailyRefreshTime env w)
                 = ("00:00:00"%string,
                    Some (wrapError "getting daily refresh time"
                      (wrapError ("getting config " +:+ configKeyDailyRefreshTime) e)))).
    { unfold GetDailyRefreshTime, GetConfig. run. rewrite Hdb. reflexivity. }
    rewrite H1, H2. cbn [fst snd].
    repeat split; try reflexivity; try discriminate;
      intros [Hf _]; discriminate.
  - rewrite GetRefreshInterval_healthy, GetDailyRefreshTime_healthy by assumption.
    split; [| split; [| split]].
    + destruct (config w !! configKeyMinRefreshInterval) as [v |]; [| reflexivity].
      destruct (strconv_Atoi v); [| reflexivity].
      cbn [fst snd]. congruence.
    + destruct (config w !! configKeyMinRefreshInterval) as [v |].
      * destruct (strconv_Atoi v) as [h |] eqn:Ev; cbn [fst snd].
        -- split; [| reflexivity]. intros _. split; [reflexivity |]. eauto.
        -- split; [discriminate |]. intros [_ (v' & Hv & Ha)].
           injection Hv as <-. congruence.
      * cbn [fst snd]. split; [discriminate |].
        intros [_ (v' & Hv & _)]. discriminate.
    + destruct (config w !! configKeyDailyRefreshTime); cbn [fst snd];
        [congruence | reflexivity].
    + destruct (config w !! configKeyDailyRefreshTime); cbn [fst snd].
      * split; auto.
      * split; [discriminate |]. intros [_ H]. discriminate.
Qed.

(** X4, on an empty configuration table: both getters return their
    default, with an error. *)
Lemma config_getters_default_witness :
  fst (fst (GetRefreshInterval example_env empty_world)) = 1
  /\ fst (fst (GetDailyRefreshTime example_env empty_world)) = "00:00:00"%string.
Proof.
  destruct (config_getters_default example_env empty_world) as (H1 & _ & H2 & _).
  split; [apply H1 | apply H2]; vm_compute; discriminate.
Defined.

(** What [dailyUpdateDue] decides once the stored time is read. *)
Lemma dailyUpdateDue_stored (env : Env) (w : World) (timeStr : string)
    (refreshTime : Time) :
  db_fault env (db_calls w) = None ->
  config w !! configKeyDailyRefreshTime = Some timeStr ->
  time_Parse env layoutClock timeStr = Some refreshTime ->
  fst (dailyUpdateDue env w)
  = time_Equal (time_Date_0_1_1 (time_Hour (clock env (clock_reads w)))
                                (time_Minute (clock env (clock_reads w))))
               (time_Date_0_1_1 (time_Hour refreshTime) (time_Minute refreshTime)).
Proof.
  intros Hdb Hc Hp. unfold dailyUpdateDue, time_Now.
  run.
  rewrite GetDailyRefreshTime_healthy by assumption.
  rewrite Hc. cbv iota beta. rewrite Hp. reflexivity.
Qed.

(** X5. The daily refresh time is validated at write time and governs
    the trigger. A text that [time.Parse] rejects for the layout
    "15:04:05" is refused, with the error of [time.Parse] wrapped in
    the message of the function, without a call into the driver and
    without any change of state. A text it accepts is stored (with a
    healthy driver), is what [GetDailyRefreshTime] returns afterwards,
    and the next wake of the scheduler is due exactly when the hour and
    minute of the wall clock are those of the parsed time. *)
Theorem daily_refresh_time_round_trip (env : Env) (timeStr : string) (w : World) :
  (time_Parse env layoutClock timeStr = None ->
   UpdateDailyRefreshTime env timeStr w
   = (Some (wrapError "invalid time format, expected HH:MM:SS"
              (time_ParseError env layoutClock timeStr)), w))
  /\ (forall refreshTime,
        time_Parse env layoutClock timeStr = Some refreshTime ->
        db_healthy_from env (db_calls w) ->
        let w1 := snd (UpdateDailyRefreshTime env timeStr w) in
        fst (UpdateDailyRefreshTime env timeStr w) = None
        /\ fst (GetDailyRefreshTime env w1) = (timeStr, None)
        /\ (fst (dailyUpdateDue env w1) = true <->
            time_Hour (clock env (clock_reads w1)) = time_Hour refreshTime
            /\ time_Minute (clock env (clock_reads w1)) = time_Minute refreshTime)).
Proof.
  split.
  - intros Hp. unfold UpdateDailyRefreshTime. now rewrite Hp.
  - intros refreshTime Hp Hh w1. unfold w1, UpdateDailyRefreshTime. rewrite Hp.
    run.
    destruct (UpdateConfig_healthy env configKeyDailyRefreshTime timeStr w Hh)
      as (n & Hn & ->).
    cbn [fst snd]. split; [reflexivity |].
    set (w2 := set_config (<[configKeyDailyRefreshTime := timeStr]> (config w))
                          (with_db_calls n w)).
    assert (Hdb : db_fault env (db_calls w2) = None) by (apply Hh; simpl; lia).
    assert (Hc : config w2 !! configKeyDailyRefreshTime = Some timeStr)
      by apply lookup_insert_eq.
    split.
    + rewrite GetDailyRefreshTime_healthy by assumption. now rewrite Hc.
    + rewrite (dailyUpdateDue_stored env w2 timeStr refreshTime Hdb Hc Hp).
      apply clock_instants_equal.
Qed.

(** X5, with a library that accepts "09:00:00" and rejects
    "9 o'clock". *)
Lemma daily_refresh_time_round_trip_witness :
  UpdateDailyRefreshTime (policy_env 0 0) "9 o'clock" empty_world
  = (Some (wrapError "invalid time format, expected HH:MM:SS"
             (errorString "parsing time 9 o'clock as 15:04:05")), empty_world)
  /\ fst (GetDailyRefreshTime (policy_env 0 0)
            (snd (UpdateDailyRefreshTime (policy_env 0 0) "09:00:00" empty_world)))
     = ("09:00:00"%string, None).
Proof.
  split.
  - apply (proj1 (daily_refresh_time_round_trip (policy_env 0 0) "9 o'clock"
                    empty_world)).
    reflexivity.
  - apply (proj2 (daily_refresh_time_round_trip (policy_env 0 0) "09:00:00"
                    empty_world) (time_Date_0_1_1 9 0) eq_refl).
    intros m _. reflexivity.
Defined.

(** ** The cooldown *)

(** X6. Cooldown gating for intervals whose duration fits in 64 bits
    (up to 2562047 hours). [ShouldRefreshData] never returns an error;
    it answers that a refresh is due when the marker cannot be read or
    parsed; and with a marker it answers that a refresh is due exactly
    when more than the configured interval has elapsed since the
    marker, the interval being the default of one hour when the
    configured one cannot be read. *)
Theorem cooldown_gating_bounded (env : Env) (w : World) :
  snd (fst (ShouldRefreshData env w)) = None
  /\ (stored_marker env w = None -> fst (fst (ShouldRefreshData env w)) = true)
  /\ (forall last,
        stored_marker env w = Some last ->
        -2562047 <= configured_interval env w <= 2562047 ->
        (fst (fst (ShouldRefreshData env w)) = true
         <-> configured_interval env w * Hour
             < unixNano (clock env (clock_reads w)) - unixNano last)).
Proof.
  split; [| split].
  - now rewrite ShouldRefreshData_decision.
  - intros H. now rewrite ShouldRefreshData_fail_open.
  - intros last Hm Hr. apply ShouldRefreshData_cooldown; [assumption |].
    unfold minInt64, maxInt64, Hour, Minute, Second. lia.
Qed.

(** X6, with the marker at 2023-11-14T22:13:20Z and an interval of one
    hour: not due 59 minutes later, due 61 minutes later. *)
Lemma cooldown_gating_bounded_witness :
  fst (fst (ShouldRefreshData (policy_env (1700000000 + 59 * 60) 0)
                              (policy_world "1"))) = false
  /\ fst (fst (ShouldRefreshData (policy_env (1700000000 + 61 * 60) 0)
                                 (policy_world "1"))) = true.
Proof.
  split.
  - destruct (cooldown_gating_bounded (policy_env (1700000000 + 59 * 60) 0)
                (policy_world "1")) as (_ & _ & H).
    specialize (H (mkTime (1700000000 * Second) 0) eq_refl).
    destruct (fst (fst (ShouldRefreshData _ _))); [| reflexivity].
    assert (Hr : -2562047 <= configured_interval (policy_env (1700000000 + 59 * 60) 0)
                               (policy_world "1") <= 2562047)
      by (vm_compute; split; discriminate).
    destruct (H Hr) as [Hlt _]. specialize (Hlt eq_refl).
    vm_compute in Hlt. discriminate Hlt.
  - destruct (cooldown_gating_bounded (policy_env (1700000000 + 61 * 60) 0)
                (policy_world "1")) as (_ & _ & H).
    apply (H (mkTime (1700000000 * Second) 0) eq_refl).
    + vm_compute; split; discriminate.
    + vm_compute. reflexivity.
Defined.

(** X7. A sync run restarts the cooldown. After a run over a non-empty
    address list with a driver that never fails, and a [time] library
    that reads the text it prints for a clock reading back as an
    instant within the same second, [ShouldRefreshData] called on the
    state the run left answers "not due" while the clock is within the
    configured interval (less one second) of the stamp, and "due" once
    more than the interval has elapsed since the stamp; this holds
    whether or not addresses failed during the run. *)
Theorem sync_restarts_cooldown (env : Env) (fuel : nat) (w : World) :
  bounded_pagination env fuel ->
  (forall n, db_fault env n = None) ->
  source_addresses w <> [] ->
  (forall n, exists t',
      time_Parse env RFC3339 (time_Format env (clock env n) RFC3339) = Some t'
      /\ unixNano (clock env n) - Second < unixNano t' <= unixNano (clock env n)) ->
  exists wl w',
    sync_addresses env fuel (source_addresses w)
      (time_AddDate env (clock env (clock_reads w)) 0 (-1) 0)
      (clock env (clock_reads w)) (bump_clock (bump_db w)) = Some (tt, wl)
    /\ FetchAndStoreTransfers env fuel w = Some (None, w')
    /\ (-2562047 <= configured_interval env w' <= 2562047 ->
        let stamp := unixNano (clock env (clock_reads wl)) in
        let now := unixNano (clock env (clock_reads w')) in
        (now - stamp + Second <= configured_interval env w' * Hour ->
         fst (fst (ShouldRefreshData env w')) = false)
        /\ (configured_interval env w' * Hour < now - stamp ->
            fst (fst (ShouldRefreshData env w')) = true)).
Proof.
  intros Hb Hdb Hne Hrt.
  destruct (sync_run_completes env fuel w Hb (Hdb _) Hne) as (wl & Hl & Hrun).
  exists wl, (snd (stamp_markers env wl)).
  split; [assumption |]. split; [assumption |].
  intros Hr stamp now.
  destruct (stamp_markers_spec env wl) as [_ Hm].
  destruct Hm as [Hm _]; [intros m _; apply Hdb |].
  destruct (Hrt (clock_reads wl)) as (t' & Hp & Ht').
  set (w' := snd (stamp_markers env wl)) in *.
  assert (Hs : stored_marker env w' = Some t').
  { unfold stored_marker. now rewrite Hdb, Hm. }
  assert (Hr64 : minInt64 <= configured_interval env w' * Hour <= maxInt64).
  { unfold minInt64, maxInt64, Hour, Minute, Second. lia. }
  pose proof (ShouldRefreshData_cooldown env w' t' Hs Hr64) as Hiff.
  fold stamp in Ht'. fold now in Hiff. split.
  - intros Hin.
    destruct (fst (fst (ShouldRefreshData env w'))); [| reflexivity].
    destruct Hiff as [Hlt _]. specialize (Hlt eq_refl). lia.
  - intros Hout. apply Hiff. lia.
Qed.

Lemma sync_restarts_cooldown_witness :
  exists w',
    FetchAndStoreTransfers seconds_env 1 one_address_world = Some (None, w')
    /\ fst (fst (ShouldRefreshData seconds_env w')) = false.
Proof.
  assert (Hb : bounded_pagination seconds_env 1).
  { intros n. exists 0%nat. split; [lia |]. intros q.
    split; intros _; reflexivity. }
  assert (Hrt : forall n, exists t',
             time_Parse seconds_env RFC3339
               (time_Format seconds_env (clock seconds_env n) RFC3339) = Some t'
             /\ unixNano (clock seconds_env n) - Second < unixNano t'
                <= unixNano (clock seconds_env n)).
  { intros n. exists (mkTime (1700000000 * Second) 0).
    split; [vm_compute; reflexivity |]. vm_compute. split; [reflexivity | discriminate]. }
  destruct (sync_restarts_cooldown seconds_env 1 one_address_world Hb
              (fun _ => eq_refl) ltac:(discriminate) Hrt)
    as (wl & w' & _ & Hrun & Hcool).
  exists w'. split; [exact Hrun |].
  assert (Hw' : Some (None, w')
                = FetchAndStoreTransfers seconds_env 1 one_address_world)
    by (symmetry; exact Hrun).
  vm_compute in Hw'. injection Hw' as ->.
  match type of Hcool with ?A -> _ =>
    assert (Hr : A) by (vm_compute; split; discriminate) end.
  specialize (Hcool Hr). cbv zeta in Hcool. destruct Hcool as [Hin _].
  apply Hin. vm_compute. discriminate.
Defined.

(** [ShouldRefreshData] reads: it changes the counters of driver calls
    and clock readings and nothing else. *)
Lemma ShouldRefreshData_world (env : Env) (w : World) :
  exists n c,
    snd (ShouldRefreshData env w)
    = mkWorld (transfers w) (config w) (source_addresses w) (lastReq w)
              n (http_calls w) c.
Proof.
  unfold ShouldRefreshData, GetRefreshInterval, GetConfig, time_Now. run.
  destruct (db_fault env (db_calls w)); [eexists; eexists; reflexivity |].
  run; cbn [config bump_db].
  destruct (config w !! configKeyLastETHUpdate) as [s |];
    [| eexists; eexists; reflexivity].
  run.
  destruct (time_Parse env RFC3339 s); [| eexists; eexists; reflexivity].
  run; cbn [db_calls bump_db].
  destruct (db_fault env (S (db_calls w))); [eexists; eexists; reflexivity |].
  run; cbn [config bump_db].
  destruct (config w !! configKeyMinRefreshInterval) as [v |];
    [| eexists; eexists; reflexivity].
  run.
  destruct (strconv_Atoi v); eexists; eexists; reflexivity.
Qed.

(** X8. Auto-refresh before a query. While [ShouldRefreshData] answers
    "not due", [refreshDataIfNeeded] returns without a request to the
    feed and without a write: transfers, configuration and tracked
    addresses are as before. When it answers "due",
    [refreshDataIfNeeded] is one run of [FetchAndStoreTransfers] whose
    error, if any, is dropped. *)
Theorem refresh_only_when_due (env : Env) (fuel : nat) (w : World) :
  (fst (fst (ShouldRefreshData env w)) = false ->
   exists w1,
     refreshDataIfNeeded env fuel w = Some (tt, w1)
     /\ transfers w1 = transfers w /\ config w1 = config w
     /\ source_addresses w1 = source_addresses w
     /\ http_calls w1 = http_calls w)
  /\ (fst (fst (ShouldRefreshData env w)) = true ->
      refreshDataIfNeeded env fuel w
      = match FetchAndStoreTransfers env fuel (snd (ShouldRefreshData env w)) with
        | Some (_, w1) => Some (tt, w1)
        | None => None
        end).
Proof.
  pose proof (ShouldRefreshData_decision env w) as Hd.
  destruct (ShouldRefreshData_world env w) as (n & c & Hw).
  destruct (ShouldRefreshData env w) as [[due err] w0] eqn:E.
  cbn [fst snd] in *. injection Hd as Hdue ->. subst w0.
  split; intros ->.
  - eexists. unfold refreshDataIfNeeded. runP. rewrite E. cbn [negb].
    split; [reflexivity |]. repeat split; reflexivity.
  - unfold refreshDataIfNeeded. runP. rewrite E. cbn [negb].
    destruct (FetchAndStoreTransfers env fuel _) as [[r w1] |]; reflexivity.
Qed.

Lemma refresh_only_when_due_witness :
  exists w1,
    refreshDataIfNeeded (policy_env (1700000000 + 59 * 60) 0) 1 (policy_world "1")
    = Some (tt, w1)
    /\ http_calls w1 = 0%nat /\ transfers w1 = [].
Proof.
  destruct (refresh_only_when_due (policy_env (1700000000 + 59 * 60) 0) 1
              (policy_world "1")) as [H _].
  destruct H as (w1 & Hr & Ht & _ & _ & Hh); [vm_compute; reflexivity |].
  exists w1. split; [exact Hr |]. split; [exact Hh | exact Ht].
Defined.

(** X9. Start-up configuration. [NewTransferService] never fails, even
    with a failing driver. A non-positive refresh interval and an empty
    or unparseable daily refresh time are not written: with both, the
    store is left untouched. With a healthy driver a positive interval
    is what [GetRefreshInterval] returns afterwards, and a parseable
    daily refresh time is what [GetDailyRefreshTime] returns
    afterwards. *)
Theorem NewTransferService_config (env : Env) (refreshInterval : Z)
    (dailyRefreshTime : string) (w : World) :
  in_int64 refreshInterval = true ->
  fst (NewTransferService env refreshInterval dailyRefreshTime w) = None
  /\ (refreshInterval <= 0 ->
      dailyRefreshTime = ""%string
      \/ time_Parse env layoutClock dailyRefreshTime = None ->
      snd (NewTransferService env refreshInterval dailyRefreshTime w) = w)
  /\ (0 < refreshInterval -> db_healthy_from env (db_calls w) ->
      fst (GetRefreshInterval env
             (snd (NewTransferService env refreshInterval dailyRefreshTime w)))
      = (refreshInterval, None))
  /\ (dailyRefreshTime <> ""%string ->
      time_Parse env layoutClock dailyRefreshTime <> None ->
      db_healthy_from env (db_calls w) ->
      fst (GetDailyRefreshTime env
             (snd (NewTransferService env refreshInterval dailyRefreshTime w)))
      = (dailyRefreshTime, None)).
Proof.
  intros Hr64. unfold NewTransferService.
  split; [| split; [| split]].
  - run. destruct (0 <? refreshInterval).
    + destruct (UpdateConfig env _ _ w) as [e1 w1].
      destruct (negb (String.eqb dailyRefreshTime "")); [| reflexivity].
      destruct (time_Parse env layoutClock dailyRefreshTime); [| reflexivity].
      destruct (UpdateConfig env _ _ w1) as [e2 w2]. reflexivity.
    + destruct (negb (String.eqb dailyRefreshTime "")); [| reflexivity].
      destruct (time_Parse env layoutClock dailyRefreshTime); [| reflexivity].
      destruct (UpdateConfig env _ _ w) as [e2 w2]. reflexivity.
  - intros Hle Hd. run.
    assert ((0 <? refreshInterval) = false) as -> by (apply Z.ltb_ge; lia).
    destruct Hd as [-> | Hp]; [reflexivity |].
    destruct (negb (String.eqb dailyRefreshTime "")); [| reflexivity].
    now rewrite Hp.
  - intros Hpos Hh. run.
    assert ((0 <? refreshInterval) = true) as -> by (apply Z.ltb_lt; lia).
    destruct (UpdateConfig_healthy env configKeyMinRefreshInterval
                (strconv_Itoa refreshInterval) w Hh) as (n & Hn & ->).
    set (w1 := set_config _ (with_db_calls n w)).
    assert (Hh1 : db_healthy_from env (db_calls w1)).
    { eapply db_healthy_from_le; [| exact Hh]. simpl. lia. }
    assert (Hc1 : config w1 !! configKeyMinRefreshInterval
                  = Some (strconv_Itoa refreshInterval)) by apply lookup_insert_eq.
    assert (Hfin : forall w2,
               db_fault env (db_calls w2) = None ->
               config w2 !! configKeyMinRefreshInterval
               = Some (strconv_Itoa refreshInterval) ->
               fst (GetRefreshInterval env w2) = (refreshInterval, None)).
    { intros w2 Hdb Hc. rewrite GetRefreshInterval_healthy by assumption.
      rewrite Hc. unfold strconv_Atoi. now rewrite ParseInt_Itoa. }
    destruct (negb (String.eqb dailyRefreshTime "")); run;
      [| apply Hfin; [apply Hh1; cbn [snd]; lia | assumption]].
    destruct (time_Parse env layoutClock dailyRefreshTime); run;
      [| apply Hfin; [apply Hh1; cbn [snd]; lia | assumption]].
    destruct (UpdateConfig_healthy env configKeyDailyRefreshTime
                dailyRefreshTime w1 Hh1) as (n2 & Hn2 & ->).
    run. cbn [snd]. apply Hfin.
    + apply Hh1. exact Hn2.
    + cbn [config set_config]. now rewrite lookup_insert_ne by discriminate.
  - intros Hne Hp Hh. run.
    assert (Hfin : forall w1,
               db_healthy_from env (db_calls w1) ->
               fst (GetDailyRefreshTime env
                      (snd (UpdateConfig env configKeyDailyRefreshTime
                                         dailyRefreshTime w1)))
               = (dailyRefreshTime, None)).
    { intros w1 Hh1.
      destruct (UpdateConfig_healthy env configKeyDailyRefreshTime
                  dailyRefreshTime w1 Hh1) as (n2 & Hn2 & ->).
      rewrite GetDailyRefreshTime_healthy by (apply Hh1; simpl; lia).
      cbn [snd config set_config fst]. now rewrite lookup_insert_eq. }
    assert (Hnz : negb (String.eqb dailyRefreshTime "") = true).
    { apply negb_true_iff, String.eqb_neq. assumption. }
    rewrite Hnz.
    destruct (time_Parse env layoutClock dailyRefreshTime); [| congruence].
    destruct (0 <? refreshInterval).
    + destruct (UpdateConfig_healthy env configKeyMinRefreshInterval
                  (strconv_Itoa refreshInterval) w Hh) as (n & Hn & ->).
      set (w1 := set_config _ (with_db_calls n w)).
      assert (Hh1 : db_healthy_from env (db_calls w1)).
      { eapply db_healthy_from_le; [| exact Hh]. simpl. lia. }
      specialize (Hfin w1 Hh1).
      destruct (UpdateConfig env configKeyDailyRefreshTime dailyRefreshTime w1).
      exact Hfin.
    + specialize (Hfin w Hh).
      destruct (UpdateConfig env configKeyDailyRefreshTime dailyRefreshTime w).
      exact Hfin.
Qed.

Lemma NewTransferService_config_witness :
  fst (GetRefreshInterval (policy_env 0 0)
         (snd (NewTransferService (policy_env 0 0) 6 "09:00:00" empty_world)))
  = (6, None)
  /\ fst (GetDailyRefreshTime (policy_env 0 0)
            (snd (NewTransferService (policy_env 0 0) 6 "09:00:00" empty_world)))
     = ("09:00:00"%string, None)
  /\ snd (NewTransferService (policy_env 0 0) 0 "nine" empty_world) = empty_world.
Proof.
  destruct (NewTransferService_config (policy_env 0 0) 6 "09:00:00" empty_world
              eq_refl) as (_ & _ & H6 & Hd).
  destruct (NewTransferService_config (policy_env 0 0) 0 "nine" empty_world
              eq_refl) as (_ & H0 & _).
  split; [| split].
  - apply H6; [lia |]. intros m _. reflexivity.
  - apply Hd; [discriminate | discriminate |]. intros m _. reflexivity.
  - apply H0; [lia |]. right. reflexivity.
Defined.

(** ** The ledger only grows *)

Lemma lower_row_lowered (t : Transfer) : lower_row (lower_addresses t).
Proof. apply lower_addresses_idem. Qed.

Lemma insert_all_appends (batch rows : list Transfer) :
  exists new,
    insert_all batch rows = rows ++ new
    /\ Forall (fun x => exists t, In t batch /\ x = lower_addresses t) new.
Proof.
  revert rows. induction batch as [| t batch IH]; intros rows; simpl.
  - exists []. split; [now rewrite app_nil_r | constructor].
  - destruct (IH (insert_do_nothing (lower_addresses t) rows)) as (new & -> & Hnew).
    assert (Hweak : Forall (fun x => exists t0, (t = t0 \/ In t0 batch)
                                                /\ x = lower_addresses t0) new).
    { eapply List.Forall_impl; [| exact Hnew].
      intros x (t0 & Ht0 & ->). exists t0. auto. }
    unfold insert_do_nothing.
    destruct (existsb (same_key (lower_addresses t)) rows).
    + exists new. split; [reflexivity | assumption].
    + exists (lower_addresses t :: new). split.
      * now rewrite <- app_assoc.
      * constructor; [| assumption]. exists t. auto.
Qed.

Lemma ledger_grows_refl (w : World) : ledger_grows w w.
Proof.
  split; [| split]; auto.
  exists []. split; [now rewrite app_nil_r | constructor].
Qed.

Lemma ledger_grows_trans (w1 w2 w3 : World) :
  ledger_grows w1 w2 -> ledger_grows w2 w3 -> ledger_grows w1 w3.
Proof.
  intros ((n1 & H1 & F1) & U1 & S1) ((n2 & H2 & F2) & U2 & S2).
  split; [| split]; [| auto | congruence].
  exists (n1 ++ n2). split.
  - now rewrite H2, H1, <- app_assoc.
  - apply Forall_app. auto.
Qed.

Lemma ledger_grows_same (w w' : World) :
  transfers w' = transfers w ->
  source_addresses w' = source_addresses w ->
  ledger_grows w w'.
Proof.
  intros Ht Hs. split; [| split]; [| now rewrite Ht | assumption].
  exists []. split; [now rewrite app_nil_r | constructor].
Qed.

Lemma AddTransfersBatch_grows (env : Env) (batch : list Transfer) (w : World) :
  ledger_grows w (snd (AddTransfersBatch env batch w)).
Proof.
  destruct (AddTransfersBatch env batch w) as [[err b'] w'] eqn:E.
  apply AddTransfersBatch_cases in E. cbn [snd].
  destruct E as [(_ & _ & n & ->) | (e & n & _ & ->)].
  - split; [| split]; [| | reflexivity].
    + destruct (insert_all_appends batch (transfers w)) as (new & Hnew & Hall).
      exists new. split; [exact Hnew |].
      eapply List.Forall_impl; [| exact Hall].
      intros x (t & _ & ->). apply lower_row_lowered.
    + apply insert_all_unique.
  - now apply ledger_grows_same.
Qed.

(** X10. The ledger is append-only and normalised. Whatever the driver
    does, a call of [AddTransfersBatch] leaves every stored row where
    it was and unchanged; the rows it adds come after them, each is a
    record of the batch with its three addresses in lower case, and no
    two rows share a uniqueness key if none did before. It touches
    neither the configuration nor the tracked addresses. *)
Theorem ledger_append_only (env : Env) (batch : list Transfer) (w : World) :
  let w1 := snd (AddTransfersBatch env batch w) in
  (exists new,
     transfers w1 = transfers w ++ new
     /\ Forall (fun x => (exists t, In t batch /\ x = lower_addresses t)
                         /\ strings_ToLower (FromAddress x) = FromAddress x
                         /\ strings_ToLower (ToAddress x) = ToAddress x
                         /\ strings_ToLower (TokenAddress x) = TokenAddress x) new)
  /\ (unique_keys (transfers w) -> unique_keys (transfers w1))
  /\ config w1 = config w
  /\ source_addresses w1 = source_addresses w.
Proof.
  intros w1. unfold w1.
  destruct (AddTransfersBatch env batch w) as [[err b'] w'] eqn:E.
  apply AddTransfersBatch_cases in E. cbn [snd].
  destruct E as [(_ & _ & n & ->) | (e & n & _ & ->)].
  - split; [| split; [| split]]; try reflexivity.
    + destruct (insert_all_appends batch (transfers w)) as (new & Hnew & Hall).
      exists new. split; [exact Hnew |].
      eapply List.Forall_impl; [| exact Hall].
      intros x (t & Ht & ->). split; [eauto |].
      simpl. now rewrite !strings_ToLower_idem.
    + apply insert_all_unique.
  - split; [| split; [| split]]; try reflexivity; auto.
    exists []. split; [now rewrite app_nil_r | constructor].
Qed.

(** X10, on [example_batch], whose first two records have one key: two
    rows are appended to an empty table. *)
Lemma ledger_append_only_witness :
  map Hash (transfers (snd (AddTransfersBatch example_env example_batch
                              empty_world)))
  = ["0xh1"; "0xh2"]%string
  /\ unique_keys (transfers (snd (AddTransfersBatch example_env example_batch
                                    empty_world))).
Proof.
  split; [vm_compute; reflexivity |].
  apply (ledger_append_only example_env example_batch empty_world).
  constructor.
Defined.

(** ** A whole run keeps the ledger's invariants *)

Lemma fetch_pages_sources {T : Type} (env : Env) (TimeStamp : T -> string)
    (feed : nat -> url_Values -> HttpOutcome T) (startTime endTime : Time)
    (fuel : nat) :
  forall (params : url_Values) (page : Z) (acc : list T) (w : World)
         (r : result (list T)) (w' : World),
    fetch_pages env TimeStamp feed fuel params startTime endTime page acc w
    = Some (r, w') ->
    source_addresses w' = source_addresses w.
Proof.
  induction fuel as [| fuel IH]; intros params page acc w r w'; simpl.
  - discriminate.
  - runP.
    destruct (doRequest feed (page_params params page) w) as [r1 w1] eqn:Er.
    assert (Hw1 : w1 = bump_http w).
    { now rewrite <- (doRequest_world feed (page_params params page) w), Er. }
    destruct r1 as [pg | e].
    + destruct (Z.of_nat (length pg) <? defaultOffset).
      * intros H. injection H as <- <-. now rewrite Hw1.
      * destruct (rateLimit env w1) as [u w2] eqn:Erl.
        intros H. apply IH in H. rewrite H.
        pose proof (rateLimit_tables env w1) as Ht. rewrite Erl in Ht.
        simpl in Ht. destruct Ht as (_ & _ & -> & _). now rewrite Hw1.
    + intros H. injection H as <- <-. now rewrite Hw1.
Qed.

Lemma store_batch_grows (env : Env) (what : string) (batch : list Transfer)
    (w : World) :
  ledger_grows w (snd (store_batch env what batch w)).
Proof.
  unfold store_batch. destruct (0 <? length batch)%nat.
  - run. pose proof (AddTransfersBatch_grows env batch w) as H.
    destruct (AddTransfersBatch env batch w) as [[err b'] w1].
    destruct err; exact H.
  - apply ledger_grows_refl.
Qed.

Lemma fetchAndStoreETHTransfers_grows (env : Env) (fuel : nat) (address : string)
    (startTime endTime : Time) (w : World) (r : option error) (w' : World) :
  fetchAndStoreETHTransfers env fuel address startTime endTime w = Some (r, w') ->
  ledger_grows w w'.
Proof.
  unfold fetchAndStoreETHTransfers, GetETHTransfers, fetchETHTransactions. runP.
  destruct (GetLastProcessedBlock env address ethTokenAddress w) as [[b err] w1] eqn:E1.
  assert (Hw1 : w1 = bump_db w).
  { now rewrite <- (GetLastProcessedBlock_world env address ethTokenAddress w), E1. }
  destruct (rateLimit env w1) as [u w2] eqn:Erl.
  pose proof (rateLimit_tables env w1) as Ht. rewrite Erl in Ht.
  simpl in Ht. destruct Ht as (Ht2 & _ & Hs2 & _).
  match goal with |- context [fetch_pages env ?ts ?fd ?fu ?pa ?s ?en ?pg ?ac ?ww] =>
    destruct (fetch_pages env ts fd fu pa s en pg ac ww) as [[r3 w3] |] eqn:Ef
  end; [| discriminate].
  pose proof (fetch_pages_transfers _ _ _ _ _ _ _ _ _ _ _ _ Ef) as Ht3.
  pose proof (fetch_pages_sources _ _ _ _ _ _ _ _ _ _ _ _ Ef) as Hs3.
  assert (Hpre : ledger_grows w w3).
  { apply ledger_grows_same; [rewrite Ht3, Ht2, Hw1 | rewrite Hs3, Hs2, Hw1];
      reflexivity. }
  destruct r3 as [txs | e0].
  - intros H. injection H as H.
    eapply ledger_grows_trans; [exact Hpre |].
    match type of H with store_batch ?e ?m ?b ?ww = _ =>
      pose proof (store_batch_grows e m b ww) as Hg; rewrite H in Hg end.
    exact Hg.
  - intros H. injection H as _ <-. exact Hpre.
Qed.

Lemma fetchAndStoreAllERC20Transfers_grows (env : Env) (fuel : nat)
    (address : string)
    (startTime endTime : Time) (w : World) (r : option error) (w' : World) :
  fetchAndStoreAllERC20Transfers env fuel address startTime endTime w = Some (r, w') ->
  ledger_grows w w'.
Proof.
  unfold fetchAndStoreAllERC20Transfers, GetERC20Transfers, fetchERC20Transactions.
  runP.
  destruct (GetLastProcessedBlockForERC20 env address w) as [[b err] w1] eqn:E1.
  assert (Hw1 : w1 = bump_db w).
  { now rewrite <- (GetLastProcessedBlockForERC20_world env address w), E1. }
  destruct (rateLimit env w1) as [u w2] eqn:Erl.
  pose proof (rateLimit_tables env w1) as Ht. rewrite Erl in Ht.
  simpl in Ht. destruct Ht as (Ht2 & _ & Hs2 & _).
  match goal with |- context [fetch_pages env ?ts ?fd ?fu ?pa ?s ?en ?pg ?ac ?ww] =>
    destruct (fetch_pages env ts fd fu pa s en pg ac ww) as [[r3 w3] |] eqn:Ef
  end; [| discriminate].
  pose proof (fetch_pages_transfers _ _ _ _ _ _ _ _ _ _ _ _ Ef) as Ht3.
  pose proof (fetch_pages_sources _ _ _ _ _ _ _ _ _ _ _ _ Ef) as Hs3.
  assert (Hpre : ledger_grows w w3).
  { apply ledger_grows_same; [rewrite Ht3, Ht2, Hw1 | rewrite Hs3, Hs2, Hw1];
      reflexivity. }
  destruct r3 as [txs | e0].
  - intros H. injection H as H.
    eapply ledger_grows_trans; [exact Hpre |].
    match type of H with store_batch ?e ?m ?b ?ww = _ =>
      pose proof (store_batch_grows e m b ww) as Hg; rewrite H in Hg end.
    exact Hg.
  - intros H. injection H as _ <-. exact Hpre.
Qed.

Lemma sync_addresses_grows (env : Env) (fuel : nat) (addrs : list SourceAddress)
    (startTime endTime : Time) (w w' : World) :
  sync_addresses env fuel addrs startTime endTime w = Some (tt, w') ->
  ledger_grows w w'.
Proof.
  revert w. induction addrs as [| a addrs IH]; intros w; simpl.
  - intros H. injection H as <-. apply ledger_grows_refl.
  - unfold sync_address. runP.
    destruct (fetchAndStoreETHTransfers env fuel (Address a) startTime endTime w)
      as [[r1 w1] |] eqn:E1; [| discriminate].
    apply fetchAndStoreETHTransfers_grows in E1.
    destruct r1 as [e |].
    + intros H. apply IH in H. eapply ledger_grows_trans; eassumption.
    + destruct (fetchAndStoreAllERC20Transfers env fuel (Address a)
                  startTime endTime w1) as [[r2 w2] |] eqn:E2; [| discriminate].
      apply fetchAndStoreAllERC20Transfers_grows in E2.
      intros H. apply IH in H.
      eapply ledger_grows_trans; [exact E1 |].
      eapply ledger_grows_trans; eassumption.
Qed.

Lemma UpdateConfig_sources (env : Env) (key value : string) (w : World) :
  source_addresses (snd (UpdateConfig env key value w)) = source_addresses w.
Proof.
  destruct (UpdateConfig_cases env key value w)
    as (n & _ & [-> | [(e & ->) | (e & old & _ & ->)]]); reflexivity.
Qed.

Lemma stamp_markers_grows (env : Env) (w : World) :
  ledger_grows w (snd (stamp_markers env w)).
Proof.
  apply ledger_grows_same.
  - apply (stamp_markers_spec env w).
  - unfold stamp_markers, time_Now. run.
    match goal with |- context [UpdateConfig env ?k ?v ?ww] =>
      pose proof (UpdateConfig_sources env k v ww) as H1;
      destruct (UpdateConfig env k v ww) as [e1 w1] end.
    match goal with |- context [UpdateConfig env ?k ?v ?ww] =>
      pose proof (UpdateConfig_sources env k v ww) as H2;
      destruct (UpdateConfig env k v ww) as [e2 w2] end.
    cbn [snd] in *. rewrite H2, H1. reflexivity.
Qed.

Lemma FetchAndStoreTransfers_grows (env : Env) (fuel : nat) (w : World)
    (r : option error) (w' : World) :
  FetchAndStoreTransfers env fuel w = Some (r, w') ->
  ledger_grows w w'.
Proof.
  unfold FetchAndStoreTransfers, GetSourceAddresses, time_Now. runP. run.
  destruct (db_fault env (db_calls w)) as [e |].
  { intros H. injection H as _ <-. now apply ledger_grows_same. }
  change (source_addresses (bump_db w)) with (source_addresses w).
  destruct (length (source_addresses w) =? 0)%nat.
  { intros H. injection H as _ <-. now apply ledger_grows_same. }
  change (clock_reads (bump_db w)) with (clock_reads w).
  match goal with |- context [sync_addresses env fuel ?a ?s ?e ?ww] =>
    destruct (sync_addresses env fuel a s e ww) as [[[] wl] |] eqn:El end;
    [| discriminate].
  apply sync_addresses_grows in El.
  pose proof (stamp_markers_grows env wl) as Hs.
  destruct (stamp_markers env wl) as [u w2]. cbn [snd] in Hs.
  intros H. injection H as _ <-.
  eapply ledger_grows_trans; [| exact Hs].
  eapply ledger_grows_trans; [| exact El].
  now apply ledger_grows_same.
Qed.

(** X11. A whole synchronisation run keeps the ledger's invariants.
    Whatever the explorer answers and whichever database calls fail,
    when [FetchAndStoreTransfers] returns, every row stored before the
    run is still there, unchanged and in the same place; the rows the
    run added have their three addresses in lower case; the list of
    tracked addresses is the same; and if no two rows shared a
    uniqueness key before the run, none do after it. *)
Theorem sync_keeps_ledger (env : Env) (fuel : nat) (w : World)
    (r : option error) (w' : World) :
  FetchAndStoreTransfers env fuel w = Some (r, w') ->
  (exists new,
     transfers w' = transfers w ++ new
     /\ Forall (fun x => strings_ToLower (FromAddress x) = FromAddress x
                         /\ strings_ToLower (ToAddress x) = ToAddress x
                         /\ strings_ToLower (TokenAddress x) = TokenAddress x) new)
  /\ (unique_keys (transfers w) -> unique_keys (transfers w'))
  /\ source_addresses w' = source_addresses w.
Proof.
  intros H. apply FetchAndStoreTransfers_grows in H.
  destruct H as ((new & Hn & Hl) & Hu & Hs).
  split; [| split]; [| exact Hu | exact Hs].
  exists new. split; [exact Hn |].
  eapply List.Forall_impl; [| exact Hl].
  intros x Hx. unfold lower_row, lower_addresses in Hx.
  destruct x; simpl in *. injection Hx as H1 H2 H3. auto.
Qed.

(** X11, on a store of six rows and the three tracked addresses of
    [isolation_world]: the run ends, and the six rows are the first six
    of the table it leaves. *)
Lemma sync_keeps_ledger_witness :
  exists r w',
    FetchAndStoreTransfers isolation_env 1 stocked_world = Some (r, w')
    /\ (exists new, transfers w' = transfers stocked_world ++ new)
    /\ source_addresses w' = source_addresses stocked_world.
Proof.
  destruct (FetchAndStoreTransfers isolation_env 1 stocked_world)
    as [[r w'] |] eqn:E; [| vm_compute in E; discriminate].
  exists r, w'. split; [reflexivity |].
  destruct (sync_keeps_ledger isolation_env 1 stocked_world r w' E)
    as ((new & Hn & _) & _ & Hs).
  split; [exists new; exact Hn | exact Hs].
Defined.

(** ** Cursors across writes *)

Lemma GetLastProcessedBlock_healthy (env : Env) (address tokenAddress : string)
    (w : World) :
  db_fault env (db_calls w) = None ->
  GetLastProcessedBlock env address tokenAddress w
  = (cursor_of address tokenAddress (transfers w), None, bump_db w).
Proof.
  intros Hdb. unfold GetLastProcessedBlock, cursor_of, rows_of. run.
  rewrite Hdb.
  destruct (String.eqb (strings_ToLower tokenAddress) "" 
            || String.eqb (strings_ToLower tokenAddress) ethTokenAddress);
    reflexivity.
Qed.

Lemma GetLastProcessedBlock_silent (env : Env) (address tokenAddress : string)
    (w : World) :
  snd (fst (GetLastProcessedBlock env address tokenAddress w)) = None ->
  fst (fst (GetLastProcessedBlock env address tokenAddress w))
  = cursor_of address tokenAddress (transfers w).
Proof.
  destruct (db_fault env (db_calls w)) as [e |] eqn:Hdb.
  - unfold GetLastProcessedBlock. run. rewrite Hdb. discriminate.
  - now rewrite GetLastProcessedBlock_healthy.
Qed.

Lemma GetLastProcessedBlockForERC20_silent (env : Env) (address : string)
    (w : World) :
  snd (fst (GetLastProcessedBlockForERC20 env address w)) = None ->
  fst (fst (GetLastProcessedBlockForERC20 env address w))
  = token_cursor_of address (transfers w).
Proof.
  unfold GetLastProcessedBlockForERC20, token_cursor_of. run.
  destruct (db_fault env (db_calls w)) as [e |]; [discriminate | reflexivity].
Qed.

Lemma max_app_mono (l l' : list Z) :
  (forall y, In y l' -> 0 <= y) ->
  COALESCE (sql_MAX l) 0 <= COALESCE (sql_MAX (l ++ l')) 0.
Proof.
  intros Hpos.
  destruct l as [| x l].
  - simpl app. destruct l' as [| y l']; [reflexivity |].
    destruct (sql_MAX_some (y :: l')) as (m & -> & Hin & _); [discriminate |].
    simpl. now apply Hpos.
  - destruct (sql_MAX_some (x :: l)) as (m & -> & Hin & _); [discriminate |].
    destruct (sql_MAX_some ((x :: l) ++ l')) as (m' & -> & _ & Hle);
      [discriminate |].
    simpl. apply Hle. apply in_or_app. now left.
Qed.

Lemma cursor_of_app (address tokenAddress : string) (rows new : list Transfer) :
  (forall t, In t new -> 0 <= BlockNumber t) ->
  cursor_of address tokenAddress rows <= cursor_of address tokenAddress (rows ++ new).
Proof.
  intros Hpos. unfold cursor_of, rows_of.
  rewrite List.filter_app, map_app. apply max_app_mono.
  intros y Hy. apply in_map_iff in Hy. destruct Hy as (t & <- & Ht).
  apply filter_In in Ht. now apply Hpos.
Qed.

(** X12. A cursor never moves backwards across a batch write. For any
    address and any asset (the native sentinel, the empty string that
    stands for it, or a token contract), when the block numbers of the
    batch are not negative, the cursor that [GetLastProcessedBlock]
    returns after [AddTransfersBatch] is at least the one it returned
    before, whether the write committed or not. *)
Theorem cursor_never_moves_back (env : Env) (address tokenAddress : string)
    (batch : list Transfer) (w : World) :
  let before := GetLastProcessedBlock env address tokenAddress w in
  let w1 := snd (AddTransfersBatch env batch (snd before)) in
  let after := GetLastProcessedBlock env address tokenAddress w1 in
  (forall t, In t batch -> 0 <= BlockNumber t) ->
  snd (fst before) = None ->
  snd (fst after) = None ->
  fst (fst before) <= fst (fst after).
Proof.
  intros before w1 after Hpos Hb Ha. unfold before, after in *.
  rewrite (GetLastProcessedBlock_silent _ _ _ _ Hb).
  rewrite (GetLastProcessedBlock_silent _ _ _ _ Ha).
  assert (Hw : snd (GetLastProcessedBlock env address tokenAddress w) = bump_db w)
    by apply GetLastProcessedBlock_world.
  unfold w1. fold before. unfold before. rewrite Hw.
  destruct (AddTransfersBatch env batch (bump_db w)) as [[err b'] w'] eqn:E.
  apply AddTransfersBatch_cases in E. cbn [snd].
  destruct E as [(_ & _ & n & ->) | (e & n & _ & ->)].
  - change (transfers (set_transfers (insert_all batch (transfers (bump_db w)))
                         (with_db_calls n (bump_db w))))
      with (insert_all batch (transfers w)).
    destruct (insert_all_appends batch (transfers w)) as (new & -> & Hall).
    apply cursor_of_app. intros t Ht.
    rewrite List.Forall_forall in Hall.
    destruct (Hall t Ht) as (t0 & Ht0 & ->). simpl. now apply Hpos.
  - rewrite with_db_calls_transfers. change (transfers (bump_db w)) with (transfers w).
    lia.
Qed.

(** X12, on [cursor_world]: the native cursor of [alice] is 70; after a
    batch with a native transfer at block 80 it is 80. *)
Lemma cursor_never_moves_back_witness :
  let batch := [row "0xe3" 80 alice bob ethTokenAddress] in
  let before := GetLastProcessedBlock example_env alice "" cursor_world in
  let after := GetLastProcessedBlock example_env alice ""
                 (snd (AddTransfersBatch example_env batch (snd before))) in
  fst (fst before) = 70 /\ fst (fst after) = 80
  /\ fst (fst before) <= fst (fst after).
Proof.
  intros batch before after.
  split; [reflexivity |]. split; [vm_compute; reflexivity |].
  apply (cursor_never_moves_back example_env alice "" batch cursor_world).
  - intros t [<- | []]. simpl. lia.
  - reflexivity.
  - vm_compute. reflexivity.
Defined.

(** ** The two asset classes do not disturb each other *)

Lemma store_batch_rows (env : Env) (what : string) (batch : list Transfer)
    (w : World) :
  exists new,
    transfers (snd (store_batch env what batch w)) = transfers w ++ new
    /\ Forall (fun x => exists t, In t batch /\ x = lower_addresses t) new.
Proof.
  unfold store_batch. destruct (0 <? length batch)%nat.
  - run. destruct (AddTransfersBatch env batch w) as [[err b'] w1] eqn:E.
    apply AddTransfersBatch_cases in E.
    destruct E as [(-> & _ & n & ->) | (e & n & -> & ->)]; cbn [snd].
    + apply insert_all_appends.
    + exists []. split; [now rewrite app_nil_r | constructor].
  - exists []. split; [now rewrite app_nil_r | constructor].
Qed.

Lemma fetchAndStoreETHTransfers_rows (env : Env) (fuel : nat) (address : string)
    (startTime endTime : Time) (w : World) (r : option error) (w' : World) :
  fetchAndStoreETHTransfers env fuel address startTime endTime w = Some (r, w') ->
  exists txs new,
    transfers w' = transfers w ++ new
    /\ Forall (fun x => exists t, In t (eth_batch env txs)
                                  /\ x = lower_addresses t) new.
Proof.
  unfold fetchAndStoreETHTransfers, GetETHTransfers, fetchETHTransactions. runP.
  destruct (GetLastProcessedBlock env address ethTokenAddress w) as [[b err] w1] eqn:E1.
  assert (Hw1 : w1 = bump_db w).
  { now rewrite <- (GetLastProcessedBlock_world env address ethTokenAddress w), E1. }
  destruct (rateLimit env w1) as [u w2] eqn:Erl.
  pose proof (rateLimit_tables env w1) as Ht. rewrite Erl in Ht.
  simpl in Ht. destruct Ht as (Ht2 & _).
  match goal with |- context [fetch_pages env ?ts ?fd ?fu ?pa ?s ?en ?pg ?ac ?ww] =>
    destruct (fetch_pages env ts fd fu pa s en pg ac ww) as [[r3 w3] |] eqn:Ef
  end; [| discriminate].
  pose proof (fetch_pages_transfers _ _ _ _ _ _ _ _ _ _ _ _ Ef) as Ht3.
  assert (Hpre : transfers w3 = transfers w).
  { rewrite Ht3, Ht2, Hw1. reflexivity. }
  destruct r3 as [txs | e0].
  - intros H. injection H as H. exists txs.
    match type of H with store_batch ?e ?m ?b ?ww = _ =>
      destruct (store_batch_rows e m b ww) as (new & Hn & Hall);
      rewrite H in Hn end.
    exists new. cbn [snd] in Hn. rewrite Hn, Hpre. split; [reflexivity | exact Hall].
  - intros H. injection H as _ <-. exists [], [].
    rewrite Hpre. split; [now rewrite app_nil_r | constructor].
Qed.

Lemma eth_batch_sentinel (env : Env) (txs : list ETHTransaction) (t : Transfer) :
  In t (eth_batch env txs) -> TokenAddress t = ethTokenAddress.
Proof.
  induction txs as [| tx txs IH]; simpl; [tauto |].
  destruct (negb (String.eqb (eth_IsError tx) "0")); [assumption |].
  destruct (strconv_ParseInt (eth_BlockNumber tx)); [| assumption].
  destruct (strconv_ParseInt (eth_TimeStamp tx)); [| assumption].
  intros [<- | H]; [reflexivity | auto].
Qed.

Lemma token_blocks_native (address : string) (rows new : list Transfer) :
  Forall (fun x => TokenAddress x = ethTokenAddress) new ->
  token_blocks address (rows ++ new) = token_blocks address rows.
Proof.
  intros Hall. unfold token_blocks. rewrite List.filter_app.
  assert (Hnil : List.filter
                   (fun t => from_or_to address t
                             && negb (String.eqb (TokenAddress t) ethTokenAddress))
                   new = []).
  { induction Hall as [| x l Hx _ IH]; simpl; [reflexivity |].
    rewrite Hx, String.eqb_refl, andb_false_r. exact IH. }
  rewrite Hnil, app_nil_r. reflexivity.
Qed.

Lemma rows_of_native (address token : string) (rows new : list Transfer) :
  token <> ethTokenAddress ->
  Forall (fun x => TokenAddress x = ethTokenAddress) new ->
  rows_of address token (rows ++ new) = rows_of address token rows.
Proof.
  intros Hne Hall. unfold rows_of. rewrite List.filter_app.
  assert (Hnil : List.filter
                   (fun t => from_or_to address t
                             && String.eqb (TokenAddress t) token) new = []).
  { induction Hall as [| x l Hx _ IH]; simpl; [reflexivity |].
    rewrite Hx.
    destruct (String.eqb_spec ethTokenAddress token) as [Heq | _];
      [now subst token |].
    rewrite andb_false_r. exact IH. }
  rewrite Hnil, app_nil_r. reflexivity.
Qed.

(** X13. The native synchronisation never moves a token cursor. When
    [fetchAndStoreETHTransfers] returns, with or without an error, then
    for every address the aggregate token cursor
    ([GetLastProcessedBlockForERC20]) and the cursor of every token
    contract ([GetLastProcessedBlock] with a token that is neither
    empty nor the sentinel) read what they read before the call. *)
Theorem native_sync_keeps_token_cursors (env : Env) (fuel : nat)
    (address : string) (startTime endTime : Time) (w : World)
    (r : option error) (w' : World) :
  fetchAndStoreETHTransfers env fuel address startTime endTime w = Some (r, w') ->
  forall a : string,
    (snd (fst (GetLastProcessedBlockForERC20 env a w)) = None ->
     snd (fst (GetLastProcessedBlockForERC20 env a w')) = None ->
     fst (fst (GetLastProcessedBlockForERC20 env a w'))
     = fst (fst (GetLastProcessedBlockForERC20 env a w)))
    /\ (forall token : string,
          strings_ToLower token <> ""%string ->
          strings_ToLower token <> ethTokenAddress ->
          snd (fst (GetLastProcessedBlock env a token w)) = None ->
          snd (fst (GetLastProcessedBlock env a token w')) = None ->
          fst (fst (GetLastProcessedBlock env a token w'))
          = fst (fst (GetLastProcessedBlock env a token w))).
Proof.
  intros H a.
  destruct (fetchAndStoreETHTransfers_rows _ _ _ _ _ _ _ _ H)
    as (txs & new & Hn & Hall).
  assert (Hsent : Forall (fun x => TokenAddress x = ethTokenAddress) new).
  { eapply List.Forall_impl; [| exact Hall].
    intros x (t & Ht & ->). simpl.
    rewrite (eth_batch_sentinel env txs t Ht). reflexivity. }
  split.
  - intros H0 H1.
    rewrite (GetLastProcessedBlockForERC20_silent _ _ _ H0).
    rewrite (GetLastProcessedBlockForERC20_silent _ _ _ H1).
    unfold token_cursor_of. rewrite Hn. now rewrite token_blocks_native.
  - intros token Hne Hns H0 H1.
    rewrite (GetLastProcessedBlock_silent _ _ _ _ H0).
    rewrite (GetLastProcessedBlock_silent _ _ _ _ H1).
    unfold cursor_of. rewrite Hn.
    destruct (String.eqb_spec (strings_ToLower token) "") as [E | _];
      [contradiction |].
    destruct (String.eqb_spec (strings_ToLower token) ethTokenAddress) as [E | _];
      [contradiction |].
    cbn [orb]. now rewrite rows_of_native.
Qed.

(** X13, on the six rows of [cursor_world], where the feed has one
    native transfer of [alice] inside the window: the run stores it,
    and the aggregate token cursor of [alice] stays at 50. *)
Lemma native_sync_keeps_token_cursors_witness :
  exists r w',
    fetchAndStoreETHTransfers isolation_env 1 alice (mkTime 0 0)
      (mkTime (1700000000 * Second) 0) stocked_world = Some (r, w')
    /\ length (transfers w') = 7%nat
    /\ fst (fst (GetLastProcessedBlockForERC20 isolation_env alice stocked_world)) = 50
    /\ fst (fst (GetLastProcessedBlockForERC20 isolation_env alice w')) = 50.
Proof.
  destruct (fetchAndStoreETHTransfers isolation_env 1 alice (mkTime 0 0)
              (mkTime (1700000000 * Second) 0) stocked_world)
    as [[r w'] |] eqn:E; [| vm_compute in E; discriminate].
  exists r, w'. split; [reflexivity |].
  assert (Hw : length (transfers w') = 7%nat
               /\ snd (fst (GetLastProcessedBlockForERC20 isolation_env alice w')) = None).
  { vm_compute in E. injection E as _ <-. vm_compute. split; reflexivity. }
  destruct Hw as [Hlen Hq]. split; [exact Hlen |].
  split; [vm_compute; reflexivity |].
  destruct (native_sync_keeps_token_cursors isolation_env 1 alice (mkTime 0 0)
              (mkTime (1700000000 * Second) 0) stocked_world r w' E alice)
    as [Hagg _].
  rewrite (Hagg eq_refl Hq). vm_compute. reflexivity.
Defined.

(** ** The aggregate cursor against the cursor of one token *)

(** X14. The aggregate token cursor is never ahead of a token's own
    cursor. For an address and a token contract with at least one
    stored row, the block that [GetLastProcessedBlockForERC20] returns
    is at most the block that [GetLastProcessedBlock] returns for that
    token, which is the largest block number of the token's rows for
    the address; both arguments are compared in lower case. *)
Theorem aggregate_cursor_below_token_cursor (env : Env)
    (address tokenAddress : string) (w : World) :
  db_fault env (db_calls w) = None ->
  let a := strings_ToLower address in
  let token := strings_ToLower tokenAddress in
  token <> ""%string ->
  token_seen a token (transfers w) ->
  is_max_block (fst (fst (GetLastProcessedBlock env address tokenAddress w)))
               (rows_of a token (transfers w))
  /\ fst (fst (GetLastProcessedBlockForERC20 env address w))
     <= fst (fst (GetLastProcessedBlock env address tokenAddress w)).
Proof.
  intros Hdb a token Hne [Hns Hrows].
  rewrite GetLastProcessedBlock_healthy by exact Hdb. cbn [fst].
  assert (Hq : snd (fst (GetLastProcessedBlockForERC20 env address w)) = None).
  { unfold GetLastProcessedBlockForERC20. run. now rewrite Hdb. }
  rewrite (GetLastProcessedBlockForERC20_silent _ _ _ Hq).
  unfold cursor_of, token_cursor_of. fold a token.
  destruct (String.eqb_spec token "") as [E | _]; [contradiction |].
  destruct (String.eqb_spec token ethTokenAddress) as [E | _]; [contradiction |].
  cbn [orb].
  pose proof (max_block_of_rows _ Hrows) as Hmax.
  split; [exact Hmax |].
  assert (Hin : In (token, COALESCE (sql_MAX (map BlockNumber
                                       (rows_of a token (transfers w)))) 0)
                   (token_blocks a (transfers w))).
  { apply token_blocks_spec. split; [split; assumption | exact Hmax]. }
  destruct (sql_MIN_some (map snd (token_blocks a (transfers w))))
    as (m & -> & _ & Hle).
  { intros Hnil. apply (in_map snd) in Hin. rewrite Hnil in Hin. inversion Hin. }
  simpl. apply Hle. apply in_map_iff. eexists. split; [| exact Hin]. reflexivity.
Qed.

(** X14, on [cursor_world]: token A, written in upper case, has its
    cursor at 100 for [alice]; the aggregate cursor is 50. *)
Lemma aggregate_cursor_below_token_cursor_witness :
  fst (fst (GetLastProcessedBlock example_env alice
              "0xAAAAAAAAAAAAAAAAAAAAAAAAAAAAAAAAAAAAAAAA" cursor_world)) = 100
  /\ fst (fst (GetLastProcessedBlockForERC20 example_env alice cursor_world))
     <= fst (fst (GetLastProcessedBlock example_env alice
                    "0xAAAAAAAAAAAAAAAAAAAAAAAAAAAAAAAAAAAAAAAA" cursor_world)).
Proof.
  split; [vm_compute; reflexivity |].
  apply (aggregate_cursor_below_token_cursor example_env alice
           "0xAAAAAAAAAAAAAAAAAAAAAAAAAAAAAAAAAAAAAAAA" cursor_world).
  - reflexivity.
  - vm_compute. discriminate.
  - split; vm_compute; discriminate.
Defined.

(** ** The walk through the pages *)

Lemma page_number_small (j : nat) :
  Z.of_nat j < maxInt64 -> page_number j = Z.of_nat j + 1.
Proof.
  induction j as [| j IH]; intros Hj; [reflexivity |].
  cbn [page_number]. rewrite IH by lia.
  rewrite wrap64_small; [lia |].
  unfold minInt64, maxInt64 in *. lia.
Qed.

Lemma explorer_query_built (env : Env) (action address : string) (startBlock : Z)
    (tokenAddress : string) (page : Z) :
  let params := base_params env action address
                  (if startBlock <=? 0 then defaultStartBlock else startBlock) in
  page_params (if negb (String.eqb tokenAddress "")
               then url_Add params "contractaddress" tokenAddress
               else params) page
  = explorer_query env action address startBlock tokenAddress page.
Proof.
  intros params. rewrite page_params_shape. unfold explorer_query, params.
  assert (Hsb : (if startBlock <=? 0 then defaultStartBlock else startBlock)
                = Z.max 0 startBlock).
  { unfold defaultStartBlock. destruct (Z.leb_spec startBlock 0); lia. }
  rewrite Hsb.
  destruct (String.eqb tokenAddress ""); reflexivity.
Qed.

(** X15. How the explorer is walked. When [GetETHTransfers] or
    [GetERC20Transfers] returns transactions, it has asked for pages
    1, 2, ... in turn, one request each, with the same query apart from
    the page number: module [account], the action of the asset class,
    the address as given, a start block that is the argument or 0 when
    the argument is not positive, end block 999999999, ascending order,
    the key and chain of the client, the contract only when a token is
    named, and 10000 records per page. Every page but the last held at
    least 10000 records and the last fewer; the result is the filtered
    content of the pages in the order they were served. *)
Theorem explorer_pagination (env : Env) (fuel : nat) (address : string)
    (startTime endTime : Time) (startBlock : Z) (w : World) :
  (forall txs w',
     GetETHTransfers env fuel address startTime endTime startBlock w
     = Some (Ok txs, w') ->
     paged env eth_TimeStamp (http_txlist env)
           (explorer_query env "txlist" address startBlock "")
           startTime endTime w w' txs)
  /\ (forall tokenAddress txs w',
        GetERC20Transfers env fuel address tokenAddress startTime endTime
                          startBlock w = Some (Ok txs, w') ->
        paged env erc_TimeStamp (http_tokentx env)
              (explorer_query env "tokentx" address startBlock tokenAddress)
              startTime endTime w w' txs)
  /\ (forall i : nat, Z.of_nat i < maxInt64 -> page_number i = Z.of_nat i + 1).
Proof.
  split; [| split].
  - intros txs w'. unfold GetETHTransfers, fetchETHTransactions. runP.
    destruct (rateLimit env w) as [u w0] eqn:Erl.
    assert (Hw0 : http_calls w0 = http_calls w).
    { pose proof (rateLimit_http env w) as Hh. now rewrite Erl in Hh. }
    intros H.
    match type of H with fetch_pages _ _ _ _ ?p _ _ _ _ _ = _ =>
      apply (fetch_pages_shape env eth_TimeStamp (http_txlist env) startTime endTime
               p fuel 0%nat) in H; [| reflexivity] end.
    destruct H as (pages & last & -> & Hfull & Hshort & Hcalls & Hpages).
    exists pages, last. rewrite Hw0 in *.
    split; [reflexivity |]. split; [exact Hfull |]. split; [exact Hshort |].
    split; [exact Hcalls |].
    intros i page Hi. apply Hpages in Hi. cbn [Nat.add] in Hi.
    rewrite <- (explorer_query_built env "txlist" address startBlock ""
                  (page_number i)).
    exact Hi.
  - intros tokenAddress txs w'. unfold GetERC20Transfers, fetchERC20Transactions.
    runP.
    destruct (rateLimit env w) as [u w0] eqn:Erl.
    assert (Hw0 : http_calls w0 = http_calls w).
    { pose proof (rateLimit_http env w) as Hh. now rewrite Erl in Hh. }
    intros H.
    match type of H with fetch_pages _ _ _ _ ?p _ _ _ _ _ = _ =>
      apply (fetch_pages_shape env erc_TimeStamp (http_tokentx env) startTime endTime
               p fuel 0%nat) in H; [| reflexivity] end.
    destruct H as (pages & last & -> & Hfull & Hshort & Hcalls & Hpages).
    exists pages, last. rewrite Hw0 in *.
    split; [reflexivity |]. split; [exact Hfull |]. split; [exact Hshort |].
    split; [exact Hcalls |].
    intros i page Hi. apply Hpages in Hi. cbn [Nat.add] in Hi.
    rewrite <- (explorer_query_built env "tokentx" address startBlock tokenAddress
                  (page_number i)).
    exact Hi.
  - exact page_number_small.
Qed.

(** X15, on [window_page], a short page: one request, with page 1 and
    start block 0 for the argument -5, and the three transactions
    inside the window returned. *)
Lemma explorer_pagination_witness :
  exists w',
    GetETHTransfers window_env 1 alice (mkTime (1000 * Second) 0)
      (mkTime (2000 * Second) 0) (-5) empty_world
    = Some (Ok [eth_tx "0x2" "1000"; eth_tx "0x3" "1500"; eth_tx "0x4" "2000"], w')
    /\ http_calls w' = 1%nat
    /\ explorer_query window_env "txlist" alice (-5) "" (page_number 0)
       = [ ("module", "account"); ("action", "txlist"); ("address", alice);
           ("startblock", "0"); ("endblock", "999999999"); ("sort", "asc");
           ("apikey", "KEY"); ("chainid", "1"); ("page", "1");
           ("offset", "10000") ]
    /\ paged window_env eth_TimeStamp (http_txlist window_env)
         (explorer_query window_env "txlist" alice (-5) "")
         (mkTime (1000 * Second) 0) (mkTime (2000 * Second) 0)
         empty_world w'
         [eth_tx "0x2" "1000"; eth_tx "0x3" "1500"; eth_tx "0x4" "2000"].
Proof.
  eexists. split; [vm_compute; reflexivity |].
  split; [reflexivity |]. split; [vm_compute; reflexivity |].
  apply (proj1 (explorer_pagination window_env 1 alice (mkTime (1000 * Second) 0)
                  (mkTime (2000 * Second) 0) (-5) empty_world)).
  vm_compute. reflexivity.
Defined.

(** ** From the cursor to the table *)

Lemma eth_batch_complete (env : Env) (txs : list ETHTransaction)
    (tx : ETHTransaction) (bn ts : Z) :
  In tx txs ->
  eth_IsError tx = "0"%string ->
  strconv_ParseInt (eth_BlockNumber tx) = Some bn ->
  strconv_ParseInt (eth_TimeStamp tx) = Some ts ->
  In (mkTransfer (eth_Hash tx) bn (time_Unix env ts) (eth_From tx) (eth_To tx)
                 ethTokenAddress (eth_Value tx))
     (eth_batch env txs).
Proof.
  intros Hin Hf Hb Ht.
  induction txs as [| x txs IH]; simpl; [inversion Hin |].
  destruct Hin as [-> | Hin].
  - rewrite Hf, Hb, Ht. simpl. now left.
  - destruct (negb (String.eqb (eth_IsError x) "0")); [now apply IH |].
    destruct (strconv_ParseInt (eth_BlockNumber x)); [| now apply IH].
    destruct (strconv_ParseInt (eth_TimeStamp x)); [| now apply IH].
    right. now apply IH.
Qed.

Lemma erc20_batch_complete (env : Env) (txs : list ERC20Transaction)
    (tx : ERC20Transaction) (bn ts : Z) :
  In tx txs ->
  strconv_ParseInt (erc_BlockNumber tx) = Some bn ->
  strconv_ParseInt (erc_TimeStamp tx) = Some ts ->
  In (mkTransfer (erc_Hash tx) bn (time_Unix env ts) (erc_From tx) (erc_To tx)
                 (erc_ContractAddress tx) (erc_Value tx))
     (erc20_batch env txs).
Proof.
  intros Hin Hb Ht.
  induction txs as [| x txs IH]; simpl; [inversion Hin |].
  destruct Hin as [-> | Hin].
  - rewrite Hb, Ht. now left.
  - destruct (strconv_ParseInt (erc_BlockNumber x)); [| now apply IH].
    destruct (strconv_ParseInt (erc_TimeStamp x)); [| now apply IH].
    right. now apply IH.
Qed.

(** A batch that [store_batch] reports as stored has a row for the key
    of each of its records. *)
Lemma store_batch_stored (env : Env) (what : string) (batch : list Transfer)
    (w w' : World) (t : Transfer) :
  store_batch env what batch w = (None, w') ->
  In t batch ->
  exists row, In row (transfers w')
              /\ transfer_key row = transfer_key (lower_addresses t).
Proof.
  unfold store_batch. intros H Hin.
  destruct (0 <? length batch)%nat eqn:El.
  2:{ apply Nat.ltb_ge in El. destruct batch; [inversion Hin | simpl in El; lia]. }
  revert H. run.
  destruct (AddTransfersBatch env batch w) as [[err b'] w1] eqn:E.
  destruct err as [e |]; [discriminate |].
  intros H. injection H as <-.
  apply AddTransfersBatch_cases in E.
  destruct E as [(_ & _ & n & ->) | (e & n & He & _)]; [| discriminate].
  pose proof (insert_all_has_keys batch (transfers w) t Hin) as Hk.
  apply existsb_exists in Hk. destruct Hk as (row & Hrow & Hsame).
  exists row. split; [exact Hrow |].
  symmetry. now apply same_key_iff.
Qed.

Lemma store_batch_http (env : Env) (what : string) (batch : list Transfer)
    (w : World) :
  http_calls (snd (store_batch env what batch w)) = http_calls w.
Proof.
  unfold store_batch. destruct (0 <? length batch)%nat; [| reflexivity].
  run. destruct (AddTransfersBatch env batch w) as [[err b'] w1] eqn:E.
  apply AddTransfersBatch_cases in E.
  destruct E as [(-> & _ & n & ->) | (e & n & -> & ->)]; reflexivity.
Qed.

(** X16. A stage that reports success has stored what the explorer
    served from the cursor on. When [fetchAndStoreETHTransfers] returns
    no error, its requests were the pages 1, 2, ... of the query whose
    start block is the native cursor of the address (0 when the cursor
    could not be read), and for every transaction of every page served
    to them that is not flagged as failed, whose block number is an
    integer and whose timestamp lies in the window, bounds included,
    the table holds a row with the transaction's hash, the sentinel as
    asset and the sender and receiver in lower case. The same holds for
    [fetchAndStoreAllERC20Transfers] from the aggregate token cursor,
    with the contract address in lower case as asset and without the
    test of a flag. *)
Theorem stage_stores_served_window (env : Env) (fuel : nat) (address : string)
    (startTime endTime : Time) (w w' : World) :
  (fetchAndStoreETHTransfers env fuel address startTime endTime w
   = Some (None, w') ->
   let c := GetLastProcessedBlock env address ethTokenAddress w in
   let startBlock := match snd (fst c) with
                     | Some _ => 0
                     | None => fst (fst c)
                     end in
   forall i page tx bn ts,
     (http_calls w + i < http_calls w')%nat ->
     served (http_txlist env) (http_calls w + i)
            (explorer_query env "txlist" address startBlock "" (page_number i))
     = Some page ->
     In tx page ->
     eth_IsError tx = "0"%string ->
     strconv_ParseInt (eth_BlockNumber tx) = Some bn ->
     strconv_ParseInt (eth_TimeStamp tx) = Some ts ->
     unixNano startTime <= ts * Second <= unixNano endTime ->
     exists row,
       In row (transfers w')
       /\ transfer_key row
          = (eth_Hash tx, ethTokenAddress,
             strings_ToLower (eth_From tx), strings_ToLower (eth_To tx)))
  /\ (fetchAndStoreAllERC20Transfers env fuel address startTime endTime w
      = Some (None, w') ->
      let c := GetLastProcessedBlockForERC20 env address w in
      let startBlock := match snd (fst c) with
                        | Some _ => 0
                        | None => fst (fst c)
                        end in
      forall i page tx bn ts,
        (http_calls w + i < http_calls w')%nat ->
        served (http_tokentx env) (http_calls w + i)
               (explorer_query env "tokentx" address startBlock "" (page_number i))
        = Some page ->
        In tx page ->
        strconv_ParseInt (erc_BlockNumber tx) = Some bn ->
        strconv_ParseInt (erc_TimeStamp tx) = Some ts ->
        unixNano startTime <= ts * Second <= unixNano endTime ->
        exists row,
          In row (transfers w')
          /\ transfer_key row
             = (erc_Hash tx, strings_ToLower (erc_ContractAddress tx),
                strings_ToLower (erc_From tx), strings_ToLower (erc_To tx))).
Proof.
  split.
  - unfold fetchAndStoreETHTransfers, GetETHTransfers, fetchETHTransactions. runP.
    destruct (GetLastProcessedBlock env address ethTokenAddress w)
      as [[b err] w1] eqn:E1.
    assert (Hw1 : w1 = bump_db w).
    { now rewrite <- (GetLastProcessedBlock_world env address ethTokenAddress w), E1. }
    cbn [fst snd].
    destruct (rateLimit env w1) as [u w2] eqn:Erl.
    assert (Hh2 : http_calls w2 = http_calls w).
    { pose proof (rateLimit_http env w1) as Hh. rewrite Erl in Hh.
      simpl in Hh. rewrite Hh, Hw1. reflexivity. }
    match goal with |- context [fetch_pages env ?ts ?fd ?fu ?pa ?s ?en ?pg ?ac ?ww] =>
      destruct (fetch_pages env ts fd fu pa s en pg ac ww) as [[r3 w3] |] eqn:Ef
    end; [| discriminate].
    destruct r3 as [txs | e0]; [| discriminate].
    intros H. injection H as H.
    apply fetch_pages_window in Ef. destruct Ef as [_ Hall].
    match type of H with store_batch ?e ?m ?bt ?ww = _ =>
      pose proof (store_batch_http e m bt ww) as Hh3; rewrite H in Hh3 end.
    cbn [snd] in Hh3.
    intros i page tx bn ts Hi Hserved Hin Hf Hb Ht Hwin.
    rewrite Hh2 in Hall. rewrite Hh3 in Hi.
    assert (Htx : In tx txs).
    { apply (Hall i page tx ts Hi); try assumption.
      rewrite <- Hserved. f_equal.
      apply (explorer_query_built env "txlist" address _ "" (page_number i)). }
    destruct (store_batch_stored env _ _ _ _ _ H
                (eth_batch_complete env txs tx bn ts Htx Hf Hb Ht))
      as (row & Hrow & Hkey).
    exists row. split; [exact Hrow |]. rewrite Hkey. reflexivity.
  - unfold fetchAndStoreAllERC20Transfers, GetERC20Transfers,
      fetchERC20Transactions. runP.
    destruct (GetLastProcessedBlockForERC20 env address w) as [[b err] w1] eqn:E1.
    assert (Hw1 : w1 = bump_db w).
    { now rewrite <- (GetLastProcessedBlockForERC20_world env address w), E1. }
    cbn [fst snd].
    destruct (rateLimit env w1) as [u w2] eqn:Erl.
    assert (Hh2 : http_calls w2 = http_calls w).
    { pose proof (rateLimit_http env w1) as Hh. rewrite Erl in Hh.
      simpl in Hh. rewrite Hh, Hw1. reflexivity. }
    match goal with |- context [fetch_pages env ?ts ?fd ?fu ?pa ?s ?en ?pg ?ac ?ww] =>
      destruct (fetch_pages env ts fd fu pa s en pg ac ww) as [[r3 w3] |] eqn:Ef
    end; [| discriminate].
    destruct r3 as [txs | e0]; [| discriminate].
    intros H. injection H as H.
    apply fetch_pages_window in Ef. destruct Ef as [_ Hall].
    match type of H with store_batch ?e ?m ?bt ?ww = _ =>
      pose proof (store_batch_http e m bt ww) as Hh3; rewrite H in Hh3 end.
    cbn [snd] in Hh3.
    intros i page tx bn ts Hi Hserved Hin Hb Ht Hwin.
    rewrite Hh2 in Hall. rewrite Hh3 in Hi.
    assert (Htx : In tx txs).
    { apply (Hall i page tx ts Hi); try assumption.
      rewrite <- Hserved. f_equal.
      apply (explorer_query_built env "tokentx" address _ "" (page_number i)). }
    destruct (store_batch_stored env _ _ _ _ _ H
                (erc20_batch_complete env txs tx bn ts Htx Hb Ht))
      as (row & Hrow & Hkey).
    exists row. split; [exact Hrow |]. rewrite Hkey. reflexivity.
Qed.

(** X16, for [alice] on the feed of [isolation_env]: the native
    transfer the feed serves for her, inside the window, is stored
    under its key. *)
Lemma stage_stores_served_window_witness :
  exists w' row,
    fetchAndStoreETHTransfers isolation_env 1 alice (mkTime 0 0)
      (mkTime (1700000000 * Second) 0) isolation_world = Some (None, w')
    /\ In row (transfers w')
    /\ transfer_key row = (("0xh" +:+ alice)%string, ethTokenAddress, alice, tokenA).
Proof.
  destruct (fetchAndStoreETHTransfers isolation_env 1 alice (mkTime 0 0)
              (mkTime (1700000000 * Second) 0) isolation_world)
    as [[[e |] w'] |] eqn:E;
    [vm_compute in E; discriminate | | vm_compute in E; discriminate].
  assert (Hc : (http_calls isolation_world + 0 < http_calls w')%nat).
  { assert (E' := E). vm_compute in E'. injection E' as <-.
    vm_compute. constructor. }
  destruct (proj1 (stage_stores_served_window isolation_env 1 alice (mkTime 0 0)
                     (mkTime (1700000000 * Second) 0) isolation_world w') E
              0%nat
              [mkETHTransaction "7" "1699990000" ("0xh" +:+ alice) alice tokenA
                                "5" "1" "21000" "0" "1"]
              (mkETHTransaction "7" "1699990000" ("0xh" +:+ alice) alice tokenA
                                "5" "1" "21000" "0" "1")
              7 1699990000 Hc
              ltac:(vm_compute; reflexivity) ltac:(now left) eq_refl
              ltac:(vm_compute; reflexivity) ltac:(vm_compute; reflexivity)
              ltac:(vm_compute; split; discriminate))
    as (row & Hrow & Hkey).
  exists w', row. split; [reflexivity |]. split; [exact Hrow | exact Hkey].
Defined.

(** ** Time parameters of the API *)

Lemma parseDigits_rejects (s : string) (c : ascii) :
  In c (list_ascii_of_string s) -> isDigit c = false ->
  forall acc, parseDigits s acc = None.
Proof.
  induction s as [| x s IH]; simpl; [tauto |].
  intros [-> | Hin] Hc acc.
  - now rewrite Hc.
  - destruct (isDigit x); [now apply IH | reflexivity].
Qed.

Lemma ParseInt_rejects (s : string) (c : ascii) :
  In c (list_ascii_of_string s) ->
  isDigit c = false -> c <> "+"%char -> c <> "-"%char ->
  strconv_ParseInt s = None.
Proof.
  intros Hin Hd Hp Hm. destruct s as [| x s]; [reflexivity |].
  unfold strconv_ParseInt.
  assert (Htail : x <> c -> In c (list_ascii_of_string s)).
  { intros Hx. simpl in Hin. destruct Hin as [-> | H]; [contradiction | exact H]. }
  destruct (Ascii.eqb_spec x "+") as [-> | Hxp].
  { destruct s as [| y s]; [reflexivity |].
    rewrite (parseDigits_rejects (String y s) c); auto. }
  destruct (Ascii.eqb_spec x "-") as [-> | Hxm].
  { destruct s as [| y s]; [reflexivity |].
    rewrite (parseDigits_rejects (String y s) c); auto. }
  rewrite (parseDigits_rejects (String x s) c); auto.
Qed.

Lemma Itoa_nonempty (n : Z) : strconv_Itoa n <> ""%string.
Proof.
  intros H. assert (Hp : strconv_ParseInt (strconv_Itoa n) = None)
    by (rewrite H; reflexivity).
  destruct (in_int64 n) eqn:E.
  - rewrite ParseInt_Itoa in Hp by exact E. discriminate.
  - unfold strconv_Itoa, NilZero.string_of_int in H.
    destruct (Z.to_int n) as [d | d]; [| discriminate].
    unfold NilZero.string_of_uint in H.
    destruct d; discriminate.
Qed.

Lemma time_unixTime_small (env : Env) (sec : Z) :
  minInt64 <= sec <= 9223371974719179007 ->
  time_unixTime env sec = time_Unix env sec.
Proof.
  intros H. unfold time_unixTime, time_Unix. f_equal.
  rewrite wrap64_small; [lia |].
  unfold minInt64, maxInt64, unixToInternal in *. lia.
Qed.

Lemma time_unixTime_wraps (env : Env) (sec : Z) :
  9223371974719179007 < sec <= maxInt64 ->
  unixNano (time_unixTime env sec) = (sec - 2 ^ 64) * Second.
Proof.
  intros H. unfold time_unixTime, wrap64, unixToInternal, maxInt64 in *.
  cbn [unixNano]. f_equal.
  replace (sec + 62135596800 + 2 ^ 63)
    with (sec + 62135596800 - 2 ^ 63 + 1 * 2 ^ 64) by lia.
  rewrite Z.mod_add by lia. rewrite Z.mod_small by lia. lia.
Qed.

Lemma ParseUint_loop_kind (s : string) (n : Z) (kind : error) :
  ParseUint_loop s n = Err kind -> kind = ErrSyntax \/ kind = ErrRange.
Proof.
  revert n. induction s as [| c s IH]; intros n; simpl; [discriminate |].
  destruct (negb (isDigit c)); [intros H; injection H as <-; now left |].
  destruct (maxUint64 / 10 + 1 <=? n); [intros H; injection H as <-; now right |].
  destruct (maxUint64 <? n * 10 + digitVal c);
    [intros H; injection H as <-; now right | apply IH].
Qed.

Lemma ParseInt_Err_kind (s : string) :
  ParseInt_Err s = ErrSyntax \/ ParseInt_Err s = ErrRange.
Proof.
  unfold ParseInt_Err. destruct s as [| c s]; [now left |].
  destruct (if Ascii.eqb c "+" then s else if Ascii.eqb c "-" then s else String c s)
    as [| y body]; [now left |].
  destruct (ParseUint_loop (String y body) 0) as [un | kind] eqn:E; [now right |].
  now apply ParseUint_loop_kind in E.
Qed.

(** Up to 19 digits never leave [uint64]: a byte that is no digit
    after them is met before any overflow. *)
Lemma ParseUint_loop_syntax (pre : string) (c : ascii) (rest : string) :
  forall n,
    forallb isDigit (list_ascii_of_string pre) = true ->
    isDigit c = false ->
    0 <= n < 10 ^ (19 - Z.of_nat (String.length pre)) ->
    ParseUint_loop (pre ++ String c rest) n = Err ErrSyntax.
Proof.
  induction pre as [| x pre IH]; intros n Hd Hc Hn.
  - simpl. now rewrite Hc.
  - cbn [list_ascii_of_string forallb] in Hd. apply andb_true_iff in Hd.
    destruct Hd as [Hx Hd].
    change ((String x pre +:+ String c rest)%string)
      with (String x (pre +:+ String c rest)).
    cbn [ParseUint_loop]. rewrite Hx. cbn [negb].
    change (String.length (String x pre)) with (S (String.length pre)) in Hn.
    assert (Hlen : 0 <= Z.of_nat (String.length pre)) by lia.
    assert (Hpos : 0 <= 19 - Z.of_nat (S (String.length pre)) \/
                   19 - Z.of_nat (S (String.length pre)) < 0) by lia.
    destruct Hpos as [Hpos | Hneg].
    2:{ rewrite Z.pow_neg_r in Hn by lia. lia. }
    assert (Hmono : 10 ^ (19 - Z.of_nat (S (String.length pre))) <= 10 ^ 18)
      by (apply Z.pow_le_mono_r; lia).
    pose proof (isDigit_digitVal x Hx) as Hv.
    assert (Hstep : 10 ^ (19 - Z.of_nat (String.length pre))
                    = 10 * 10 ^ (19 - Z.of_nat (S (String.length pre)))).
    { rewrite <- Z.pow_succ_r by lia. f_equal. lia. }
    assert (H18 : 10 ^ 18 = 1000000000000000000) by reflexivity.
    assert (Hcut : (maxUint64 / 10 + 1 <=? n) = false).
    { apply Z.leb_gt. change (maxUint64 / 10 + 1) with 1844674407370955162. lia. }
    rewrite Hcut.
    assert (Hmax : (maxUint64 <? n * 10 + digitVal x) = false).
    { apply Z.ltb_ge. change maxUint64 with 18446744073709551615. lia. }
    rewrite Hmax. apply IH; [assumption | assumption |]. lia.
Qed.

(** X17. What [parseTimeParam] accepts. An empty parameter gives the
    default time. The decimal text of any [int64] is read as that many
    seconds since the epoch, kept as [time.Unix] keeps them: up to
    9223371974719179007 that is the instant itself, above it the
    64-bit seconds wrap and the instant returned lies [2 ^ 64] seconds
    earlier. Any text holding a byte that is neither a digit nor a sign
    is refused with the [*strconv.NumError] of [ParseInt] wrapped in
    the message of the function, its cause being [ErrSyntax] or
    [ErrRange]; it is [ErrSyntax] when that byte comes after at most 19
    digits. A timestamp in RFC 3339 form is such a text: it is an
    error, whatever the function's comment says. *)
Theorem parseTimeParam_accepts (env : Env) (defaultTime : Time) :
  parseTimeParam env "" defaultTime = Ok defaultTime
  /\ (forall n, in_int64 n = true ->
        parseTimeParam env (strconv_Itoa n) defaultTime = Ok (time_unixTime env n)
        /\ (n <= 9223371974719179007 ->
            time_unixTime env n = time_Unix env n
            /\ unixNano (time_unixTime env n) = n * Second)
        /\ (9223371974719179007 < n ->
            unixNano (time_unixTime env n) = (n - 2 ^ 64) * Second))
  /\ (forall s c,
        In c (list_ascii_of_string s) ->
        isDigit c = false -> c <> "+"%char -> c <> "-"%char ->
        exists kind,
          (kind = ErrSyntax \/ kind = ErrRange)
          /\ parseTimeParam env s defaultTime
             = Err (wrapError "parsing timestamp as integer"
                      (numError "ParseInt" s kind)))
  /\ (forall pre c rest,
        forallb isDigit (list_ascii_of_string pre) = true ->
        (String.length pre <= 19)%nat ->
        isDigit c = false ->
        (pre = ""%string -> c <> "+"%char /\ c <> "-"%char) ->
        parseTimeParam env (pre ++ String c rest) defaultTime
        = Err (wrapError "parsing timestamp as integer"
                 (numError "ParseInt" (pre ++ String c rest) ErrSyntax))).
Proof.
  split; [reflexivity |]. split; [| split].
  - intros n Hn. unfold parseTimeParam.
    destruct (String.eqb_spec (strconv_Itoa n) "") as [E | _];
      [now apply Itoa_nonempty in E |].
    rewrite ParseInt_Itoa by exact Hn. split; [reflexivity |].
    unfold in_int64 in Hn. apply andb_true_iff in Hn. destruct Hn as [Hlo Hhi].
    apply Z.leb_le in Hlo. apply Z.leb_le in Hhi.
    split.
    + intros Hb. rewrite time_unixTime_small by lia. split; reflexivity.
    + intros Hb. apply time_unixTime_wraps. lia.
  - intros s c Hin Hd Hp Hm. unfold parseTimeParam.
    destruct (String.eqb_spec s "") as [-> | _]; [inversion Hin |].
    rewrite (ParseInt_rejects s c Hin Hd Hp Hm).
    exists (ParseInt_Err s). split; [apply ParseInt_Err_kind | reflexivity].
  - intros pre c rest Hpre Hlen Hd Hsign.
    assert (Hloop : ParseUint_loop (pre +:+ String c rest) 0 = Err ErrSyntax).
    { apply ParseUint_loop_syntax; [assumption | assumption |].
      split; [lia |]. apply Z.pow_pos_nonneg; lia. }
    unfold parseTimeParam, strconv_NumError, ParseInt_Err, strconv_ParseInt.
    destruct pre as [| x pre].
    + destruct (Hsign eq_refl) as [Hp Hm].
      change (("" +:+ String c rest)%string) with (String c rest) in *.
      cbv beta iota zeta. cbn [String.eqb].
      destruct (Ascii.eqb_spec c "+") as [E | _]; [contradiction |].
      destruct (Ascii.eqb_spec c "-") as [E | _]; [contradiction |].
      rewrite Hloop. cbn [parseDigits]. rewrite Hd. reflexivity.
    + change ((String x pre +:+ String c rest)%string)
        with (String x (pre +:+ String c rest)) in *.
      cbn [list_ascii_of_string forallb] in Hpre. apply andb_true_iff in Hpre.
      destruct Hpre as [Hx Hpre].
      cbv beta iota zeta. cbn [String.eqb].
      destruct (Ascii.eqb_spec x "+") as [-> | _]; [discriminate Hx |].
      destruct (Ascii.eqb_spec x "-") as [-> | _]; [discriminate Hx |].
      rewrite Hloop.
      rewrite (parseDigits_rejects (String x (pre +:+ String c rest)) c);
        [reflexivity | | assumption].
      right. clear. induction pre as [| y pre IH]; simpl; auto.
Qed.

(** X17, on three parameters: 1700000000 is read as an instant; the
    same instant in RFC 3339 form is refused as a syntax error; the
    largest [int64] is read as an instant before the epoch. *)
Lemma parseTimeParam_accepts_witness :
  parseTimeParam example_env (strconv_Itoa 1700000000) (mkTime 0 0)
  = Ok (mkTime (1700000000 * Second) 0)
  /\ parseTimeParam example_env "2023-11-14T22:13:20Z" (mkTime 0 0)
     = Err (wrapError "parsing timestamp as integer"
              (numError "ParseInt" "2023-11-14T22:13:20Z" ErrSyntax))
  /\ parseTimeParam example_env (strconv_Itoa 9223372036854775807) (mkTime 0 0)
     = Ok (mkTime (-9223372036854775809 * Second) 0).
Proof.
  destruct (parseTimeParam_accepts example_env (mkTime 0 0))
    as (_ & Hint & _ & Hsyn).
  split; [| split].
  - rewrite (proj1 (Hint 1700000000 eq_refl)). vm_compute. exact eq_refl.
  - apply (Hsyn "2023"%string "-"%char "11-14T22:13:20Z"%string);
      [exact eq_refl | simpl; lia | exact eq_refl | discriminate].
  - rewrite (proj1 (Hint 9223372036854775807 eq_refl)). vm_compute. exact eq_refl.
Defined.

(** ** The range in which amounts are normalised exactly *)



(** ** Removing a tracked address *)

(** X19. [DeleteSourceAddress] removes the rows with the given
    identifier and nothing else. Whatever the driver does, the
    transfers and the configuration are as before, and the list of
    tracked addresses is either as before or without the rows of that
    identifier, the others in the same order. When it returns no error
    a row with the identifier existed and is gone. With a driver that
    reports no fault, an identifier that is not in the table gives
    [sql.ErrNoRows] and leaves the table as it is. *)
Theorem DeleteSourceAddress_removes (env : Env) (id : Z) (w : World) :
  let err := fst (DeleteSourceAddress env id w) in
  let w' := snd (DeleteSourceAddress env id w) in
  let kept := List.filter (fun a => negb (ID a =? id)) (source_addresses w) in
  transfers w' = transfers w
  /\ config w' = config w
  /\ (source_addresses w' = source_addresses w \/ source_addresses w' = kept)
  /\ (err = None ->
      source_addresses w' = kept
      /\ (exists a, In a (source_addresses w) /\ ID a = id)
      /\ (forall a, In a (source_addresses w') -> ID a <> id))
  /\ (db_fault env (db_calls w) = None ->
      db_fault env (S (db_calls w)) = None ->
      (forall a, In a (source_addresses w) -> ID a <> id) ->
      err = Some sql_ErrNoRows /\ source_addresses w' = source_addresses w).
Proof.
  intros err w' kept. unfold err, w', DeleteSourceAddress. run.
  destruct (db_fault env (db_calls w)) as [e |] eqn:E1.
  { cbn [fst snd].
    split; [reflexivity |]. split; [reflexivity |]. split; [now left |].
    split; discriminate. }
  run. cbn [db_calls bump_db set_source_addresses source_addresses].
  fold kept.
  destruct (db_fault env (S (db_calls w))) as [e |] eqn:E2.
  { cbn [fst snd transfers config source_addresses].
    split; [reflexivity |]. split; [reflexivity |]. split; [now right |].
    split; discriminate. }
  assert (Hnone : (forall a, In a (source_addresses w) -> ID a <> id) ->
                  List.filter (fun a => ID a =? id) (source_addresses w) = []
                  /\ kept = source_addresses w).
  { intros Hno. unfold kept.
    induction (source_addresses w) as [| a l IH]; simpl; [auto |].
    assert (Ha : (ID a =? id) = false)
      by (apply Z.eqb_neq, Hno; now left).
    rewrite Ha. simpl.
    destruct IH as [IH1 IH2]; [intros x Hx; apply Hno; now right |].
    rewrite IH1, IH2. auto. }
  destruct (List.filter (fun a => ID a =? id) (source_addresses w))
    as [| a0 l0] eqn:Ef.
  - cbn [length Z.of_nat Z.eqb fst snd transfers config source_addresses].
    split; [reflexivity |]. split; [reflexivity |]. split; [now right |].
    split; [discriminate |].
    intros _ _ Hno. destruct (Hnone Hno) as [_ ->]. split; reflexivity.
  - assert (Hz : (Z.of_nat (length (a0 :: l0)) =? 0) = false)
      by (apply Z.eqb_neq; simpl length; lia).
    rewrite Hz. cbn [fst snd transfers config source_addresses].
    split; [reflexivity |]. split; [reflexivity |]. split; [now right |].
    split.
    + intros _. split; [reflexivity |]. split.
      * exists a0.
        assert (Hin : In a0 (List.filter (fun a => ID a =? id) (source_addresses w)))
          by (rewrite Ef; now left).
        apply filter_In in Hin. destruct Hin as [Hin Hid].
        split; [exact Hin | now apply Z.eqb_eq].
      * intros a Ha. unfold kept in Ha. apply filter_In in Ha.
        destruct Ha as [_ Ha]. apply negb_true_iff in Ha. now apply Z.eqb_neq.
    + intros _ _ Hno. destruct (Hnone Hno) as [Hnil _]. discriminate.
Qed.

(** X19, on the three tracked addresses of [isolation_world]: removing
    identifier 2 leaves the first and the third; identifier 9 is not
    there. *)
Lemma DeleteSourceAddress_removes_witness :
  fst (DeleteSourceAddress example_env 2 isolation_world) = None
  /\ map Address (source_addresses (snd (DeleteSourceAddress example_env 2
                                           isolation_world)))
     = [alice; carol]
  /\ fst (DeleteSourceAddress example_env 9 isolation_world) = Some sql_ErrNoRows.
Proof.
  assert (H2 : fst (DeleteSourceAddress example_env 2 isolation_world) = None)
    by (vm_compute; reflexivity).
  destruct (DeleteSourceAddress_removes example_env 2 isolation_world)
    as (_ & _ & _ & Hok & _).
  destruct (DeleteSourceAddress_removes example_env 9 isolation_world)
    as (_ & _ & _ & _ & Hno).
  split; [exact H2 |]. split.
  - destruct (Hok H2) as [-> _]. vm_compute. reflexivity.
  - apply Hno; [reflexivity | reflexivity |].
    intros a [<- | [<- | [<- | []]]]; discriminate.
Defined.

(** ** An answer the explorer marks as not OK *)

(** X20. An answer whose status is not ["1"] fails the stage, whatever
    it carries. If the explorer answers the first native request of an
    address with such an envelope, the body of the loop for that
    address ends with the error built from the envelope's message,
    after that one request: the token stage of the address is not run
    in this pass, and no row is stored. *)
Theorem not_ok_answer_skips_address (env : Env) (fuel : nat) (a : SourceAddress)
    (startTime endTime : Time) (w : World)
    (status message : string) (decoded : result (list ETHTransaction)) :
  (forall q, http_txlist env (http_calls w) q = Envelope status message decoded) ->
  status <> "1"%string ->
  exists w',
    sync_address env (S fuel) a startTime endTime w
    = Some (Some (wrapError "fetching ETH transfers"
                    (errorString ("etherscan API error: " +:+ message))), w')
    /\ http_calls w' = S (http_calls w)
    /\ transfers w' = transfers w.
Proof.
  intros Hfeed Hst.
  unfold sync_address, fetchAndStoreETHTransfers, GetETHTransfers,
    fetchETHTransactions. runP.
  destruct (GetLastProcessedBlock env (Address a) ethTokenAddress w)
    as [[b err] w1] eqn:E1.
  assert (Hw1 : w1 = bump_db w).
  { now rewrite <- (GetLastProcessedBlock_world env (Address a) ethTokenAddress w), E1. }
  destruct (rateLimit env w1) as [u w2] eqn:Erl.
  pose proof (rateLimit_tables env w1) as Ht. rewrite Erl in Ht.
  simpl in Ht. destruct Ht as (Ht2 & _).
  assert (Hh2 : http_calls w2 = http_calls w).
  { pose proof (rateLimit_http env w1) as Hh. rewrite Erl in Hh.
    simpl in Hh. rewrite Hh, Hw1. reflexivity. }
  cbn [fetch_pages]. runP. unfold doRequest at 1.
  rewrite Hh2, Hfeed.
  apply String.eqb_neq in Hst. rewrite Hst. cbn [negb].
  eexists. split; [reflexivity |]. cbn [http_calls bump_http transfers].
  split; [now rewrite Hh2 | now rewrite Ht2, Hw1].
Qed.

(** X20, with an explorer that answers status ["0"] and the message
    [No transactions found]. *)
Lemma not_ok_answer_skips_address_witness :
  let env := mkEnv (fun _ => None)
               (fun _ _ => Envelope "0" "No transactions found" (Ok []))
               silent_feed
               (clock example_env) (local_offset example_env)
               (time_Parse example_env) (time_ParseError example_env)
               (time_Format example_env)
               (time_AddDate example_env) "KEY" 1 in
  exists w',
    sync_address env 1 (mkSourceAddress 1 alice "first" (mkTime 0 0) (mkTime 0 0))
      (mkTime 0 0) (mkTime 0 0) empty_world
    = Some (Some (wrapError "fetching ETH transfers"
                    (errorString "etherscan API error: No transactions found")), w')
    /\ http_calls w' = 1%nat.
Proof.
  intros env.
  destruct (not_ok_answer_skips_address env 0
              (mkSourceAddress 1 alice "first" (mkTime 0 0) (mkTime 0 0))
              (mkTime 0 0) (mkTime 0 0) empty_world
              "0" "No transactions found" (Ok []))
    as (w' & Hrun & Hcalls & _).
  - intros q. reflexivity.
  - discriminate.
  - exists w'. split; [exact Hrun | exact Hcalls].
Defined.
